(** * Casagrande's preconsolidation pressure: [pysigmap/casagrande.py]

    A shallow embedding of [Casagrande.getSigmaP] and of the library
    routines it calls, followed by the properties of the specification.

    Numbers.  The program computes with IEEE doubles; the embedding uses
    the real numbers of the Standard Library, so that [np.log10] is
    [ln x / ln 10], [10**x] is [Rpower 10 x], [np.tan] and [np.arctan]
    are [tan] and [atan].  Rounding and NaN are outside the model, and
    every statement that goes through a logarithm says on which stresses
    it holds.  Overflow matters in one place: line 163 raises ten to a
    quotient, which a double carries only up to an exponent of about
    308, where the model has a real number for every exponent.  What is
    stated of [sigmaP] without a bound on the exponent is the expression
    the program evaluates; what needs the power to be finite (its
    logarithm, the intersection with the virgin line) is stated for
    exponents in the range of a double, [double_exponent].

    Libraries.  [scipy.signal.find_peaks] and [np.argmax] only compare
    samples, so they are written once over any type with a decidable
    order and run on integers as well as on reals.  The numerical
    construction of the spline ([scipy.interpolate.CubicSpline]) and the
    least-squares fit ([numpy.polynomial.polynomial.polyfit]) are
    parameters of the development; the argument checks they perform
    before computing are modelled. *)

From Stdlib Require Import String Reals Lra Lia Bool Arith ZArith List.
From Stdlib Require Import Sorting.Sorted Sorting.Permutation.
Import ListNotations.

Local Open Scope R_scope.

(** ** Python exceptions and results *)

(** The built-in exception classes the modelled code can raise, and
    [Custom] for a class defined by a program (the module defines none). *)
Inductive PyExc : Type :=
| IndexError
| ValueError
| TypeError
| AttributeError
| Custom (name : string).

Inductive PyResult (A : Type) : Type :=
| Ok (a : A)
| Raise (e : PyExc).
Arguments Ok {A} a.
Arguments Raise {A} e.

(** ** Sequences compared sample by sample *)

Module Signal.
Section Generic.
Context {A : Type}.
Variable ltb : A -> A -> bool.
Variable eqb : A -> A -> bool.
Variable d : A.

(** [numpy.argmax] on a one-dimensional array: the index of the first
    occurrence of the largest sample.  [best] is the index found so far
    and [i] the index of the head of the remaining samples. *)
Fixpoint argmax_from (xs : list A) (i best : nat) (vbest : A) : nat :=
  match xs with
  | [] => best
  | v :: xs' =>
      if ltb vbest v then argmax_from xs' (S i) i v
      else argmax_from xs' (S i) best vbest
  end.

Definition argmax (x : list A) : PyResult nat :=
  match x with
  | [] => Raise ValueError
  | v :: xs => Ok (argmax_from xs 1 0 v)
  end.

(** [scipy.signal._peak_finding_utils._local_maxima_1d], inner loop:
    [while i_ahead < i_max and x[i_ahead] == x[i]: i_ahead += 1]. *)
Fixpoint plateau_end (x : list A) (i i_max i_ahead fuel : nat) : nat :=
  match fuel with
  | O => i_ahead
  | S fuel' =>
      if (i_ahead <? i_max)%nat && eqb (nth i_ahead x d) (nth i x d)
      then plateau_end x i i_max (S i_ahead) fuel'
      else i_ahead
  end.

(** Outer loop of [_local_maxima_1d]: [while i < i_max]; a rising edge
    at [i] followed by a plateau and a falling edge records the middle
    of the plateau, [(left + right) // 2], and jumps past it. *)
Fixpoint local_maxima_loop (x : list A) (i i_max fuel : nat) : list nat :=
  match fuel with
  | O => []
  | S fuel' =>
      if (i <? i_max)%nat then
        if ltb (nth (i - 1) x d) (nth i x d) then
          let i_ahead := plateau_end x i i_max (i + 1) (length x) in
          if ltb (nth i_ahead x d) (nth i x d) then
            ((i + (i_ahead - 1)) / 2)%nat
              :: local_maxima_loop x (i_ahead + 1) i_max fuel'
          else local_maxima_loop x (i + 1) i_max fuel'
        else local_maxima_loop x (i + 1) i_max fuel'
      else []
  end.

Definition local_maxima_1d (x : list A) : list nat :=
  local_maxima_loop x 1 (length x - 1) (length x).

(** [np.argsort(priority)]: positions ordered by increasing priority.
    Insertion from the left keeps equal priorities in index order. *)
Fixpoint argsort_insert (pr : list A) (i : nat) (l : list nat) : list nat :=
  match l with
  | [] => [i]
  | h :: t =>
      if ltb (nth i pr d) (nth h pr d) then i :: h :: t
      else h :: argsort_insert pr i t
  end.

Definition argsort (pr : list A) : list nat :=
  fold_left (fun l i => argsort_insert pr i l) (seq 0 (length pr)) [].

Fixpoint set_false (keep : list bool) (k : nat) : list bool :=
  match keep, k with
  | [], _ => []
  | _ :: t, O => false :: t
  | b :: t, S k' => b :: set_false t k'
  end.

(** [_select_by_peak_distance], first inner loop:
    [k = j - 1; while 0 <= k and peaks[j] - peaks[k] < distance:
     keep[k] = 0; k -= 1].  The argument [k1] is [k + 1]. *)
Fixpoint clear_left (peaks : list nat) (distance : Z) (j k1 : nat)
    (keep : list bool) : list bool :=
  match k1 with
  | O => keep
  | S k =>
      if (Z.of_nat (nth j peaks 0%nat) - Z.of_nat (nth k peaks 0%nat)
            <? distance)%Z
      then clear_left peaks distance j k (set_false keep k)
      else keep
  end.

(** Second inner loop: [k = j + 1; while k < peaks_size and
    peaks[k] - peaks[j] < distance: keep[k] = 0; k += 1]. *)
Fixpoint clear_right (peaks : list nat) (distance : Z) (j k fuel : nat)
    (keep : list bool) : list bool :=
  match fuel with
  | O => keep
  | S fuel' =>
      if (k <? length peaks)%nat
         && (Z.of_nat (nth k peaks 0%nat) - Z.of_nat (nth j peaks 0%nat)
               <? distance)%Z
      then clear_right peaks distance j (S k) fuel' (set_false keep k)
      else keep
  end.

(** One round of the outer loop, for the position [j] of the peak of
    next-highest priority: skipped when [j] was already cleared. *)
Definition select_step (peaks : list nat) (distance : Z)
    (keep : list bool) (j : nat) : list bool :=
  if nth j keep false then
    clear_right peaks distance j (S j) (length peaks)
      (clear_left peaks distance j j keep)
  else keep.

(** [_select_by_peak_distance(peaks, priority, distance)]: peaks are
    visited from the highest priority down. *)
Definition select_by_peak_distance (peaks : list nat) (priority : list A)
    (distance : Z) : list bool :=
  fold_left (select_step peaks distance) (rev (argsort priority))
    (repeat true (length peaks)).

Fixpoint mask {B : Type} (l : list B) (keep : list bool) : list B :=
  match l, keep with
  | b :: l', true :: keep' => b :: mask l' keep'
  | _ :: l', false :: keep' => mask l' keep'
  | _, _ => []
  end.

(** [find_peaks(x, distance=distance)[0]]: the local maxima, thinned so
    that kept peaks are at least [distance] samples apart. *)
Definition find_peaks (x : list A) (distance : Z) : list nat :=
  let peaks := local_maxima_1d x in
  let keep :=
    select_by_peak_distance peaks (map (fun p => nth p x d) peaks) distance in
  mask peaks keep.

(** A peak as scipy understands it: the middle of a run of equal
    samples, between a strictly lower sample on each side. *)
Definition plateau_peak (x : list A) (p : nat) : Prop :=
  exists l r : nat,
    (1 <= l <= r)%nat /\ (r + 1 < length x)%nat /\
    p = ((l + r) / 2)%nat /\
    ltb (nth (l - 1) x d) (nth l x d) = true /\
    (forall k, (l < k <= r)%nat -> eqb (nth k x d) (nth l x d) = true) /\
    ltb (nth (r + 1) x d) (nth l x d) = true.

(** Position [a] has a priority no higher than position [b]. *)
Definition prio_le (pr : list A) (a b : nat) : Prop :=
  ltb (nth b pr d) (nth a pr d) = false.

End Generic.
End Signal.

(** ** The numpy and pandas operations of the program, on reals *)

(** [np.log10]. *)
Definition log10 (x : R) : R := ln x / ln 10.

(** The order of samples, as booleans. *)
Definition Rltb (x y : R) : bool := if Rlt_dec x y then true else false.
Definition Reqb (x y : R) : bool := if Req_dec_T x y then true else false.

(** [np.linspace(start, stop, num)]: [arange(0, num) * step + start] with
    [step = (stop - start) / (num - 1)]; numpy then stores [stop] itself
    in the last cell, which over the reals is the value already there. *)
Definition linspace (start stop : R) (num : nat) : list R :=
  map (fun i => INR i * ((stop - start) / INR (num - 1)) + start) (seq 0 num).

(** [numpy.polynomial.polynomial.polyval(x, c)], lowest degree first. *)
Fixpoint polyval (x : R) (c : list R) : R :=
  match c with
  | [] => 0
  | c0 :: c' => c0 + x * polyval x c'
  end.

(** A bound of a Python slice over a sequence of length [n]. *)
Definition slice_bound (n : nat) (b : option Z) (dflt : nat) : nat :=
  match b with
  | None => dflt
  | Some z =>
      if (z <? 0)%Z then Z.to_nat (Z.max 0 (Z.of_nat n + z))
      else Nat.min (Z.to_nat z) n
  end.

(** [s[lo:hi]] on a pandas Series or a list. *)
Definition py_slice {B : Type} (l : list B) (lo hi : option Z) : list B :=
  let n := length l in
  let a := slice_bound n lo 0 in
  let b := slice_bound n hi n in
  firstn (b - a) (skipn a l).

(** [s.iloc[0]] and [s.iloc[-1]]. *)
Definition iloc_first {B : Type} (l : list B) : PyResult B :=
  match l with
  | [] => Raise IndexError
  | v :: _ => Ok v
  end.

Definition iloc_last {B : Type} (l : list B) : PyResult B :=
  match rev l with
  | [] => Raise IndexError
  | v :: _ => Ok v
  end.

(** [a[0]] on an array. *)
Definition item0 {B : Type} (l : list B) : PyResult B :=
  match l with
  | [] => Raise IndexError
  | v :: _ => Ok v
  end.

(** [p0, p1, p2, p3, p4 = c]. *)
Definition unpack5 (c : list R) : PyResult (R * R * R * R * R) :=
  match c with
  | [p0; p1; p2; p3; p4] => Ok (p0, p1, p2, p3, p4)
  | _ => Raise ValueError
  end.

Fixpoint increasingb (l : list R) : bool :=
  match l with
  | a :: ((b :: _) as t) => Rltb a b && increasingb t
  | _ => true
  end.

(** ** Data of the test and the object of the method *)

(** A data frame with the columns ['stress'] and ['e'], row by row. *)
Definition DataFrame : Type := list (R * R).
Definition col_stress (df : DataFrame) : list R := map fst df.
Definition col_e (df : DataFrame) : list R := map snd df.

(** The [Data] object, of which the method reads the two frames, the
    in-situ stress, the compression index with its intercept, and the
    lookup [findStressIdx(stress2find, cleanedData)], whose answer is an
    index or [None].  The class is defined in another module. *)
Record Data : Type := mkData {
  raw : DataFrame;
  cleaned : DataFrame;
  sigmaV : R;
  idxCc : R;
  idxCcInt : R;
  findStressIdx : R -> bool -> option Z
}.

(** The [Casagrande] object: [data], and the five attributes that
    [getSigmaP] assigns, absent until then. *)
Record Casagrande : Type := mkCasagrande {
  data : Data;
  sigmaMC : option R;
  eMC : option R;
  sigmaP : option R;
  eSigmaP : option R;
  ocr : option R
}.

(** A piecewise polynomial as scipy returns it: [cs(x, nu)] is the
    derivative of order [nu] at [x], and [cs(x)] is [cs(x, 0)]. *)
Record PPoly : Type := mkPPoly { call : R -> nat -> R }.

(** What the figure shows of the construction: the tangent and the
    bisector through the point of maximum curvature, and the curvature
    samples, drawn only when the point was searched for.  The markers
    of the in-situ stress, of the point and of the result with their
    labels (lines 209-219) are not recorded here. *)
Record Fig : Type := mkFig {
  tangent : list (R * R);
  bisector : list (R * R);
  curvature_plot : option (list (R * R))
}.

(** ** Method bodies: state of [self] and exceptions *)

Definition M (A : Type) : Type := Casagrande -> PyResult A * Casagrande.

Definition ret {A : Type} (a : A) : M A := fun self => (Ok a, self).

Definition bind {A B : Type} (c : M A) (k : A -> M B) : M B :=
  fun self =>
    match c self with
    | (Ok a, self') => k a self'
    | (Raise e, self') => (Raise e, self')
    end.

Declare Scope py_scope.
Delimit Scope py_scope with py.
Notation "x <- c ;; k" := (bind c (fun x => k))
  (at level 61, c at next level, right associativity) : py_scope.
Notation "c ;; k" := (bind c (fun _ => k))
  (at level 61, right associativity) : py_scope.

Definition lift {A : Type} (r : PyResult A) : M A := fun self => (r, self).

(** [self.data]. *)
Definition get_data : M Data := fun self => (Ok (data self), self).

(** Reading an attribute that may not have been assigned yet. *)
Definition attr (f : Casagrande -> option R) : M R :=
  fun self =>
    match f self with
    | Some v => (Ok v, self)
    | None => (Raise AttributeError, self)
    end.

Definition set_sigmaMC (v : R) : M unit := fun self =>
  (Ok tt, mkCasagrande (data self) (Some v) (eMC self) (sigmaP self)
            (eSigmaP self) (ocr self)).
Definition set_eMC (v : R) : M unit := fun self =>
  (Ok tt, mkCasagrande (data self) (sigmaMC self) (Some v) (sigmaP self)
            (eSigmaP self) (ocr self)).
Definition set_sigmaP (v : R) : M unit := fun self =>
  (Ok tt, mkCasagrande (data self) (sigmaMC self) (eMC self) (Some v)
            (eSigmaP self) (ocr self)).
Definition set_eSigmaP (v : R) : M unit := fun self =>
  (Ok tt, mkCasagrande (data self) (sigmaMC self) (eMC self) (sigmaP self)
            (Some v) (ocr self)).
Definition set_ocr (v : R) : M unit := fun self =>
  (Ok tt, mkCasagrande (data self) (sigmaMC self) (eMC self) (sigmaP self)
            (eSigmaP self) (Some v)).

(** The object after both attributes of the point of maximum curvature
    were assigned, and after the three results were. *)
Definition with_mcp (self : Casagrande) (sMC y : R) : Casagrande :=
  mkCasagrande (data self) (Some sMC) (Some y) (sigmaP self)
    (eSigmaP self) (ocr self).

Definition with_result (self : Casagrande) (sP eP o : R) : Casagrande :=
  mkCasagrande (data self) (sigmaMC self) (eMC self) (Some sP)
    (Some eP) (Some o).

(** ** [Casagrande.getSigmaP] *)

Section Program.

(** The interpolating cubic spline scipy computes through valid knots,
    and the coefficients numpy's least-squares solver returns. *)
Variable interp : list R -> list R -> PPoly.
Variable lstsq : list R -> list R -> nat -> list R.

(** [CubicSpline(x=x, y=y)]: scipy first rejects fewer than two knots,
    columns of different lengths and abscissae that do not increase
    strictly, each with [ValueError]. *)
Definition CubicSpline (x y : list R) : PyResult PPoly :=
  if (length x <? 2)%nat then Raise ValueError
  else if negb (length x =? length y)%nat then Raise ValueError
  else if negb (increasingb x) then Raise ValueError
  else Ok (interp x y).

(** [polyfit(x, y, deg=deg)]: numpy rejects an empty [x] and columns of
    different lengths with [TypeError]. *)
Definition polyfit (x y : list R) (deg : nat) : PyResult (list R) :=
  match x with
  | [] => Raise TypeError
  | _ :: _ =>
      if negb (length x =? length y)%nat then Raise TypeError
      else Ok (lstsq x y deg)
  end.

(** The local function [transform(x, reverse=False)] (lines 98-108). *)
Definition transform (loglog : bool) (x : R) (reverse : bool) : R :=
  if reverse then
    if loglog then Rpower 10 (Rpower 10 x) else Rpower 10 x
  else
    if loglog then log10 (log10 x) else log10 x.

(** [k(x) = |f''(x)| / (1 + f'(x)^2)^(3/2)] from the two derivatives. *)
Definition curvature_of (der1 der2 : R) : R :=
  Rabs der2 / Rpower (1 + der1 ^ 2) (3 / 2).

(** [np.tan(0.5*np.arctan(slopeMP))] (line 158). *)
Definition slopeBisect_of (slopeMP : R) : R := tan (0.5 * atan slopeMP).

(** Line 110, and line 112: the samples of the spline's domain. *)
Definition sigmaLog (d : Data) : list R :=
  map log10 (skipn 1 (col_stress (cleaned d))).

Definition sigmaCS_of (s0 sN : R) : list R := linspace s0 sN 100.

(** Line 116. *)
Definition spline_curvature (cs : PPoly) (sigmaCS : list R) : list R :=
  map (fun x => curvature_of (call cs x 1) (call cs x 2)) sigmaCS.

(** Lines 113-120: the search on the spline. *)
Definition search_spline (cs : PPoly) (sigmaCS : list R)
    : M (list R * list R) :=
  (let x4FOP := map (Rpower 10) sigmaCS in
   let curvature := spline_curvature cs sigmaCS in
   maxCurvIdx <- lift (item0 (Signal.find_peaks Rltb Reqb 0 curvature 500)) ;;
   set_sigmaMC (Rpower 10 (nth maxCurvIdx sigmaCS 0)) ;;
   set_eMC (call cs (nth maxCurvIdx sigmaCS 0) 0) ;;
   ret (x4FOP, curvature))%py.

(** Lines 124-132: the rows between the two indices looked up. *)
Definition sigmaFOP_of (d : Data) (r0 r1 : R) : list R :=
  py_slice (col_stress (cleaned d))
    (findStressIdx d r0 true) (findStressIdx d r1 true).

Definition eFOP_of (d : Data) (r0 r1 : R) : list R :=
  py_slice (col_e (cleaned d))
    (findStressIdx d r0 true) (findStressIdx d r1 true).

(** Lines 138-143, for the coefficients [p = (p0, p1, p2, p3, p4)]. *)
Definition FOP_value (p : R * R * R * R * R) (x : R) : R :=
  let '(p0, p1, p2, p3, p4) := p in polyval x [p0; p1; p2; p3; p4].

Definition FOP_firstDer (p : R * R * R * R * R) (x : R) : R :=
  let '(p0, p1, p2, p3, p4) := p in
  p1 + 2 * p2 * x + 3 * p3 * x ^ 2 + 4 * p4 * x ^ 3.

Definition FOP_secondDer (p : R * R * R * R * R) (x : R) : R :=
  let '(p0, p1, p2, p3, p4) := p in
  2 * p2 + 6 * p3 * x + 12 * p4 * x ^ 2.

Definition FOP_curvature (p : R * R * R * R * R) (x : R) : R :=
  Rabs (FOP_secondDer p x) / Rpower (1 + FOP_firstDer p x ^ 2) 1.5.

(** Lines 122-146: the search on the fourth-order polynomial.  The
    score [r2FOP] of line 134 only labels the figure. *)
Definition search_FOP (d : Data) (r0 r1 : R) (loglog : bool)
    : M (list R * list R) :=
  (let sigmaFOP := sigmaFOP_of d r0 r1 in
   let sigmaFOPlog := map (fun x => transform loglog x false) sigmaFOP in
   let eFOP := eFOP_of d r0 r1 in
   coeffs <- lift (polyfit sigmaFOPlog eFOP 4) ;;
   p <- lift (unpack5 coeffs) ;;
   f0 <- lift (iloc_first sigmaFOP) ;;
   fN <- lift (iloc_last sigmaFOP) ;;
   let x4FOP := linspace f0 fN 1000 in
   let x4FOPlog := map (fun x => transform loglog x false) x4FOP in
   let y4FOP := map (FOP_value p) x4FOPlog in
   let curvature := map (FOP_curvature p) x4FOPlog in
   maxCurvIdx <- lift (Signal.argmax Rltb curvature) ;;
   set_sigmaMC (transform loglog (nth maxCurvIdx x4FOPlog 0) true) ;;
   set_eMC (nth maxCurvIdx y4FOP 0) ;;
   ret (x4FOP, curvature))%py.

(** Lines 148-150: the caller's point replaces the one searched. *)
Definition override (cs : PPoly) (mcp : option R) : M unit :=
  match mcp with
  | Some p =>
      (set_sigmaMC p ;;
       sMC <- attr sigmaMC ;;
       set_eMC (call cs (log10 sMC) 0))%py
  | None => ret tt
  end.

(** Lines 152-166, and the curves handed to the figure.  The power of
    line 163 is the real power: see [double_exponent] below for the
    exponents on which the program's double is finite. *)
Definition construct (cs : PPoly) (d : Data) (mcp : option R)
    (x4FOP curvature : list R) : M Fig :=
  (sMC <- attr sigmaMC ;;
   let slopeMP := call cs (log10 sMC) 1 in
   y1 <- attr eMC ;;
   let x1 := log10 sMC in
   sLast <- lift (iloc_last (col_stress (cleaned d))) ;;
   let x2 := map log10 (linspace sMC sLast 50) in
   let y2 := map (fun x => slopeMP * (x - x1) + y1) x2 in
   let slopeBisect := slopeBisect_of slopeMP in
   let y2bis := map (fun x => slopeBisect * (x - x1) + y1) x2 in
   set_sigmaP (Rpower 10 ((y1 - slopeBisect * x1 - idxCcInt d)
                          / (- idxCc d - slopeBisect))) ;;
   sP <- attr sigmaP ;;
   set_eSigmaP (slopeBisect * (log10 sP - x1) + y1) ;;
   set_ocr (sP / sigmaV d) ;;
   ret (mkFig (combine (map (Rpower 10) x2) y2)
              (combine (map (Rpower 10) x2) y2bis)
              (match mcp with
               | None => Some (combine x4FOP curvature)
               | Some _ => None
               end)))%py.

(** Lines 110-150: the spline, the search and the override. *)
Definition locate (mcp : option R) (range2fitFOP : option (R * R))
    (loglog : bool) : M (PPoly * (list R * list R)) :=
  (d <- get_data ;;
   cs <- lift (CubicSpline (sigmaLog d) (skipn 1 (col_e (cleaned d)))) ;;
   s0 <- lift (iloc_first (sigmaLog d)) ;;
   sN <- lift (iloc_last (sigmaLog d)) ;;
   let sigmaCS := sigmaCS_of s0 sN in
   found <- match range2fitFOP with
            | None => search_spline cs sigmaCS
            | Some (r0, r1) => search_FOP d r0 r1 loglog
            end ;;
   override cs mcp ;;
   ret (cs, found))%py.

(** [getSigmaP(self, mcp=None, range2fitFOP=None, loglog=True)].  The
    drawing itself (lines 168-237) is represented by [Fig]. *)
Definition getSigmaP (mcp : option R) (range2fitFOP : option (R * R))
    (loglog : bool) : M Fig :=
  (r <- locate mcp range2fitFOP loglog ;;
   d <- get_data ;;
   construct (fst r) d mcp (fst (snd r)) (snd (snd r)))%py.

End Program.

(** ** Names for what a run computes *)

Section Outcome.
Variable interp : list R -> list R -> PPoly.
Variable lstsq : list R -> list R -> nat -> list R.

(** The knots scipy accepts: at least two, strictly increasing. *)
Definition valid_knots (d : Data) : Prop :=
  (2 <= length (sigmaLog d))%nat /\ increasingb (sigmaLog d) = true.

(** The spline of line 111 and the samples of line 112. *)
Definition the_spline (d : Data) : PPoly :=
  interp (sigmaLog d) (skipn 1 (col_e (cleaned d))).

Definition sigmaCS (d : Data) : list R :=
  sigmaCS_of (hd 0 (sigmaLog d)) (last (sigmaLog d) 0).

(** The search selected by [range2fitFOP] (line 113). *)
Definition search (d : Data) (range2fitFOP : option (R * R))
    (loglog : bool) : M (list R * list R) :=
  match range2fitFOP with
  | None => search_spline (the_spline d) (sigmaCS d)
  | Some (r0, r1) => search_FOP lstsq d r0 r1 loglog
  end.

(** The values of lines 153-166 for a point of maximum curvature
    [(sMC, y1)]. *)
Definition slopeMP_at (cs : PPoly) (sMC : R) : R := call cs (log10 sMC) 1.

Definition sigmaP_at (cs : PPoly) (d : Data) (sMC y1 : R) : R :=
  Rpower 10
    ((y1 - slopeBisect_of (slopeMP_at cs sMC) * log10 sMC - idxCcInt d)
     / (- idxCc d - slopeBisect_of (slopeMP_at cs sMC))).

Definition eSigmaP_at (cs : PPoly) (d : Data) (sMC y1 : R) : R :=
  slopeBisect_of (slopeMP_at cs sMC)
  * (log10 (sigmaP_at cs d sMC y1) - log10 sMC) + y1.

(** The line of slope [k] through the point, over the abscissae [x2]
    of lines 155-156, as the figure draws it. *)
Definition line_through (d : Data) (sMC y1 k : R) : list (R * R) :=
  let x2 := map log10
              (linspace sMC (last (col_stress (cleaned d)) 0) 50) in
  combine (map (Rpower 10) x2)
          (map (fun x => k * (x - log10 sMC) + y1) x2).

Definition fig_at (cs : PPoly) (d : Data) (mcp : option R)
    (found : list R * list R) (sMC y1 : R) : Fig :=
  mkFig (line_through d sMC y1 (slopeMP_at cs sMC))
        (line_through d sMC y1 (slopeBisect_of (slopeMP_at cs sMC)))
        (match mcp with
         | None => Some (combine (fst found) (snd found))
         | Some _ => None
         end).

Definition finished (cs : PPoly) (self : Casagrande) (sMC y1 : R)
    : Casagrande :=
  with_result self (sigmaP_at cs (data self) sMC y1)
    (eSigmaP_at cs (data self) sMC y1)
    (sigmaP_at cs (data self) sMC y1 / sigmaV (data self)).

End Outcome.

(** A method body that never assigns [self.data]. *)
Definition keeps_data {A : Type} (c : M A) : Prop :=
  forall self, data (snd (c self)) = data self.

(** ** Two compression curves *)

(** A parabola [c - a (x - x0)^2] as a piecewise polynomial. *)
Definition parabola (c a x0 : R) : PPoly :=
  mkPPoly (fun x nu =>
    match nu with
    | 0%nat => c - a * (x - x0) ^ 2
    | 1%nat => - 2 * a * (x - x0)
    | 2%nat => - 2 * a
    | _ => 0
    end).

(** A lookup in the manner of [Data.findStressIdx]: the first row whose
    stress is at least the one asked for, [None] past the last row. *)
Fixpoint first_at_least (l : list R) (s : R) (i : Z) : option Z :=
  match l with
  | [] => None
  | v :: t => if Rle_dec s v then Some i else first_at_least t s (i + 1)
  end.

Definition lookup (df : DataFrame) (s : R) (cleanedData : bool) : option Z :=
  first_at_least (col_stress df) s 0.

(** A curve that bends most in the middle of the range: the void ratio
    at [10^x] kPa is [1 - (x - 2)^2 / 8]. *)
Definition hill_cleaned : DataFrame :=
  [(0.5, 0.4); (1, 0.5); (10, 0.875); (100, 1); (1000, 0.875); (10000, 0.5)].

Definition hill_data : Data :=
  mkData hill_cleaned hill_cleaned 75 0.3 2 (lookup hill_cleaned).

(** The same test with an almost horizontal virgin line. *)
Definition hill_flat_data : Data :=
  mkData hill_cleaned hill_cleaned 75 1e-10 2 (lookup hill_cleaned).

(** A curve that bends most at its first knot: [3 - x^2 / 8]. *)
Definition ramp_cleaned : DataFrame :=
  [(0.5, 3.01); (1, 3); (10, 2.875); (100, 2.5); (1000, 1.875); (10000, 1)].

Definition ramp_data : Data :=
  mkData ramp_cleaned ramp_cleaned 75 0.3 2 (lookup ramp_cleaned).

(** On knots taken from a polynomial of degree at most three the cubic
    spline is that polynomial, and on five points of a polynomial of
    degree at most four so is the least-squares fit of degree four. *)
Definition interp_hill (x y : list R) : PPoly := parabola 1 (1 / 8) 2.
Definition interp_ramp (x y : list R) : PPoly := parabola 3 (1 / 8) 0.
Definition lstsq_hill (x y : list R) (deg : nat) : list R :=
  [0.5; 0.5; - 0.125; 0; 0].

Definition fresh (d : Data) : Casagrande :=
  mkCasagrande d None None None None None.

(** Curvature samples of these curves by rank: [Some n] stands for the
    sample [(1/4) / (1 + n/K)^(3/2)] and [None] for no sample. *)
Definition key_ltb (a b : option nat) : bool :=
  match a, b with
  | None, Some _ => true
  | Some x, Some y => (y <? x)%nat
  | _, None => false
  end.

Definition key_eqb (a b : option nat) : bool :=
  match a, b with
  | None, None => true
  | Some x, Some y => (x =? y)%nat
  | _, _ => false
  end.

Definition key_curv (K : R) (k : option nat) : R :=
  match k with
  | None => 0
  | Some n => (1 / 4) / Rpower (1 + INR n / K) (3 / 2)
  end.

Definition hill_key (i : nat) : option nat :=
  Some (Z.to_nat ((2 * Z.of_nat i - 99) ^ 2)).

Definition ramp_key (i : nat) : option nat := Some (i * i)%nat.

(** The second and the last stress of the cleaned curve. *)
Definition second_stress (d : Data) : R := nth 1 (col_stress (cleaned d)) 0.
Definition last_stress (d : Data) : R := last (col_stress (cleaned d)) 0.

Definition DegenerateGeometryError : PyExc := Custom "DegenerateGeometryError".

(** The exception classes the method can raise. *)
Definition builtin (e : PyExc) : Prop :=
  e = TypeError \/ e = ValueError \/ e = IndexError.

(** ** The rest of the class: construction and what the figure adds *)

(** [Casagrande.__init__] (lines 66-69): the object holds the data and
    none of the result attributes. *)
Definition init (d : Data) : Casagrande :=
  mkCasagrande d None None None None None.

(** Lines 176-177: the horizontal through the point of maximum
    curvature, from its stress to the last stress of the cleaned curve. *)
Definition plot_horizontal : M (list (R * R)) :=
  (sMC <- attr sigmaMC ;;
   d <- get_data ;;
   sLast <- lift (iloc_last (col_stress (cleaned d))) ;;
   y <- attr eMC ;;
   ret [(sMC, y); (sLast, y)])%py.

(** Lines 181-183: the virgin compression line, drawn from [sigmaP] to
    the last stress at the 50 abscissae of [np.linspace]'s default. *)
Definition plot_Cc : M (list (R * R)) :=
  (sP <- attr sigmaP ;;
   d <- get_data ;;
   sLast <- lift (iloc_last (col_stress (cleaned d))) ;;
   let x4Cc := linspace sP sLast 50 in
   let y4Cc := map (fun x => - idxCc d * log10 x + idxCcInt d) x4Cc in
   ret (combine x4Cc y4Cc))%py.

(** The curves and markers that can enter the legend, [l1] to [l9] in
    the source. *)
Inductive Layer : Type :=
| CompressibilityCurve   (* l1 *)
| CcLine                 (* l2 *)
| CcFitData              (* l3 *)
| FOPCurve               (* l4 *)
| FOPData                (* l5 *)
| CurvatureCurve         (* l6 *)
| InSituStress           (* l7 *)
| MaxCurvaturePoint      (* l8 *)
| PreconsolidationPoint. (* l9 *)

(** [l.insert(i, x)] on a Python list, for [0 <= i]. *)
Definition py_insert {B : Type} (l : list B) (i : nat) (x : B) : list B :=
  firstn i l ++ x :: skipn i l.

(** Lines 186-220: the layers of the legend.  [l3] is bound only when
    [data.fitCc] holds and [l6] only when no point was given; a use of
    an unbound name gives [None]. *)
Definition legend_layers (mcp : option R) (range2fitFOP : option (R * R))
    (fitCc : bool) : option (list Layer) :=
  let l3 := if fitCc then Some CcFitData else None in
  let l6 := match mcp with None => Some CurvatureCurve | Some _ => None end in
  let allLayers :=
    match mcp with
    | Some _ => Some [CompressibilityCurve; CcLine]
    | None =>
        match range2fitFOP with
        | Some _ =>
            match l6 with
            | Some c =>
                Some [CompressibilityCurve; CcLine; FOPCurve; FOPData; c]
            | None => None
            end
        | None =>
            match l6 with
            | Some c => Some [CompressibilityCurve; CcLine; c]
            | None => None
            end
        end
    end in
  let allLayers :=
    if fitCc then
      match allLayers, l3 with
      | Some l, Some c => Some (py_insert l 2 c)
      | _, _ => None
      end
    else allLayers in
  match allLayers with
  | Some l => Some (l ++ [InSituStress; MaxCurvaturePoint;
                          PreconsolidationPoint])
  | None => None
  end.

Definition Layer_eqb (a b : Layer) : bool :=
  match a, b with
  | CompressibilityCurve, CompressibilityCurve | CcLine, CcLine
  | CcFitData, CcFitData | FOPCurve, FOPCurve | FOPData, FOPData
  | CurvatureCurve, CurvatureCurve | InSituStress, InSituStress
  | MaxCurvaturePoint, MaxCurvaturePoint
  | PreconsolidationPoint, PreconsolidationPoint => true
  | _, _ => false
  end.

Definition has_layer (x : Layer) (l : list Layer) : bool :=
  existsb (Layer_eqb x) l.

(** The same object with other data, and data that differ from [d] in
    the in-situ stress, or in everything but the cleaned rows and the
    lookup. *)
Definition on_data (self : Casagrande) (d : Data) : Casagrande :=
  mkCasagrande d (sigmaMC self) (eMC self) (sigmaP self) (eSigmaP self)
    (ocr self).

Definition with_sigmaV (d : Data) (v : R) : Data :=
  mkData (raw d) (cleaned d) v (idxCc d) (idxCcInt d) (findStressIdx d).

(** A test of two readings, too short for a spline. *)
Definition short_data : Data :=
  mkData [(1, 1); (10, 0.9)] [(1, 1); (10, 0.9)] 75 0.3 2
    (lookup [(1, 1); (10, 0.9)]).

(** A straight line [c + k x] as a piecewise polynomial, and a test
    whose readings after the first lie on [1 - 0.125 x]: spline and fit
    are that line. *)
Definition straight (c k : R) : PPoly :=
  mkPPoly (fun x nu =>
    match nu with
    | 0%nat => c + k * x
    | 1%nat => k
    | _ => 0
    end).

Definition line_cleaned : DataFrame :=
  [(0.5, 1.1); (1, 1); (10, 0.875); (100, 0.75); (1000, 0.625);
   (10000, 0.5)].

Definition line_data : Data :=
  mkData line_cleaned line_cleaned 75 0.3 2 (lookup line_cleaned).

Definition interp_line (x y : list R) : PPoly := straight 1 (- 0.125).

Definition lstsq_line (x y : list R) (deg : nat) : list R :=
  [1; - 0.125; 0; 0; 0].

(** A curve that bends most at the sample of index 30: the parabola
    [1 - (x - 40/33)^2 / 8], with its readings and the ranks of its
    curvature samples. *)
Definition interp_left (x y : list R) : PPoly := parabola 1 (1 / 8) (40 / 33).

Definition left_cleaned : DataFrame :=
  [(0.5, 0.7);
   (1, 1 - 1 / 8 * (0 - 40 / 33) ^ 2);
   (10, 1 - 1 / 8 * (1 - 40 / 33) ^ 2);
   (100, 1 - 1 / 8 * (2 - 40 / 33) ^ 2);
   (1000, 1 - 1 / 8 * (3 - 40 / 33) ^ 2);
   (10000, 1 - 1 / 8 * (4 - 40 / 33) ^ 2)].

Definition left_data : Data :=
  mkData left_cleaned left_cleaned 75 0.3 2 (lookup left_cleaned).

Definition left_key (i : nat) : option nat :=
  Some (Z.to_nat ((Z.of_nat i - 30) ^ 2)).

(** The exponents of line 163 that a double can carry.  [10**q] is a
    finite, normal double only while [q] stays within about 307 in
    magnitude; beyond, the program holds [inf] or [0.0] where the
    embedding has a positive real. *)
Definition double_exponent (q : R) : Prop := Rabs q <= 307.

(** The hill with an almost horizontal virgin line that passes through
    the top of the hill. *)
Definition hill_level_data : Data :=
  mkData hill_cleaned hill_cleaned 75 1e-10 1 (lookup hill_cleaned).

(** A curve with two bends, concave around 100 kPa and convex, more
    sharply, above 1000 kPa: three cubics that agree in value, slope
    and second derivative at [x = 2] and [x = 3].  On the knots
    0, 1, ..., 5 it is the cubic spline through its own readings, the
    pieces changing only at knots other than the second and the last
    but one. *)
Definition bend : PPoly :=
  mkPPoly (fun x nu =>
    if Rltb x 2 then
      match nu with
      | 0%nat => 7 / 2 - 3 / 5 * x - 1 / 40 * x ^ 3
      | 1%nat => - (3 / 5) - 3 / 40 * x ^ 2
      | 2%nat => - (3 / 20) * x
      | _ => 0
      end
    else if Rltb x 3 then
      match nu with
      | 0%nat => 21 / 10 - 9 / 10 * (x - 2) - 3 / 20 * (x - 2) ^ 2
                 + 3 / 20 * (x - 2) ^ 3
      | 1%nat => - (9 / 10) - 3 / 10 * (x - 2) + 9 / 20 * (x - 2) ^ 2
      | 2%nat => - (3 / 10) + 9 / 10 * (x - 2)
      | _ => 0
      end
    else
      match nu with
      | 0%nat => 6 / 5 - 3 / 4 * (x - 3) + 3 / 10 * (x - 3) ^ 2
                 - 1 / 20 * (x - 3) ^ 3
      | 1%nat => - (3 / 4) + 3 / 5 * (x - 3) - 3 / 20 * (x - 3) ^ 2
      | 2%nat => 3 / 5 - 3 / 10 * (x - 3)
      | _ => 0
      end).

Definition bend_cleaned : DataFrame :=
  [(0.5, 3.7); (1, 3.5); (10, 2.875); (100, 2.1); (1000, 1.2);
   (10000, 0.7); (100000, 0.5)].

Definition bend_data : Data :=
  mkData bend_cleaned bend_cleaned 75 0.6 3 (lookup bend_cleaned).

Definition interp_bend (x y : list R) : PPoly := bend.

(** Curvature samples by score: the pair [(h, g)] stands for the sample
    [|h/H| / (1 + (g/D)^2)^(3/2)], and two samples compare as the
    integers [h^2 (D^2 + g'^2)^3] and [h'^2 (D^2 + g^2)^3]. *)
Definition score_ltb (D : Z) (a b : Z * Z) : bool :=
  (fst a ^ 2 * (D ^ 2 + snd b ^ 2) ^ 3 <? fst b ^ 2 * (D ^ 2 + snd a ^ 2) ^ 3)%Z.

Definition score_eqb (D : Z) (a b : Z * Z) : bool :=
  (fst a ^ 2 * (D ^ 2 + snd b ^ 2) ^ 3 =? fst b ^ 2 * (D ^ 2 + snd a ^ 2) ^ 3)%Z.

Definition score_val (H : R) (D : Z) (k : Z * Z) : R :=
  curvature_of (IZR (snd k) / IZR D) (IZR (fst k) / H).

(** The second and the first derivative of the curve with two bends at
    sample [i] of its range, times 1980 and 392040. *)
Definition bend_key (i : nat) : Z * Z :=
  let z := Z.of_nat i in
  if (z <? 40)%Z then
    (- 15 * z, - 235224 - 75 * z ^ 2)%Z
  else if (z <? 60)%Z then
    (90 * z - 4158,
     - 352836 - 1188 * (5 * z - 198) + 18 * (5 * z - 198) ^ 2)%Z
  else
    (1188 - 6 * (5 * z - 297),
     - 294030 + 2376 * (5 * z - 297) - 6 * (5 * z - 297) ^ 2)%Z.

(** * Properties *)

(** ** The library routines on small inputs *)

Example find_peaks_two_hills :
  Signal.find_peaks Nat.ltb Nat.eqb 0%nat [0;3;1;1;5;5;5;2;4;1]%nat 500
  = [5%nat].
Proof. reflexivity. Qed.

Example find_peaks_two_hills_apart :
  Signal.find_peaks Nat.ltb Nat.eqb 0%nat [0;3;1;1;5;5;5;2;4;1]%nat 3
  = [1%nat; 5%nat; 8%nat].
Proof. reflexivity. Qed.

(** A run of equal samples that reaches the end of the signal is no
    peak, however high. *)
Example find_peaks_edge_plateau :
  Signal.find_peaks Nat.ltb Nat.eqb 0%nat [0;1;0;5;5]%nat 500 = [1%nat].
Proof. reflexivity. Qed.

Example find_peaks_monotone :
  Signal.find_peaks Nat.ltb Nat.eqb 0%nat [9;7;4;2;1]%nat 500 = [].
Proof. reflexivity. Qed.

Example argmax_first_of_ties :
  Signal.argmax Nat.ltb [1;7;3;7;2]%nat = Ok 1%nat.
Proof. reflexivity. Qed.

(** The peak reported first need not hold the largest sample. *)
Example first_peak_is_not_argmax :
  Signal.find_peaks Nat.ltb Nat.eqb 0%nat [9;1;3;1;2]%nat 500 = [2%nat] /\
  Signal.argmax Nat.ltb [9;1;3;1;2]%nat = Ok 0%nat.
Proof. split; reflexivity. Qed.

Example py_slice_from_one :
  py_slice [10; 20; 30; 40]%nat (Some 1%Z) None = [20; 30; 40]%nat.
Proof. reflexivity. Qed.

Example py_slice_negative_stop :
  py_slice [10; 20; 30; 40]%nat (Some 1%Z) (Some (-1)%Z) = [20; 30]%nat.
Proof. reflexivity. Qed.

Example py_slice_empty :
  py_slice [10; 20; 30; 40]%nat (Some 3%Z) (Some 2%Z) = ([] : list nat).
Proof. reflexivity. Qed.

(** ** Peak detection over an arbitrary decidable order *)

Section SignalFacts.
Context {A : Type}.
Variable ltb : A -> A -> bool.
Variable eqb : A -> A -> bool.
Variable d : A.

Local Notation "'plateau_end'" := (Signal.plateau_end eqb d).
Local Notation "'local_maxima_loop'" := (Signal.local_maxima_loop ltb eqb d).
Local Notation "'local_maxima_1d'" := (Signal.local_maxima_1d ltb eqb d).
Local Notation "'plateau_peak'" := (Signal.plateau_peak ltb eqb d).

Lemma plateau_end_ge x i i_max fuel : forall i_ahead,
  (i_ahead <= plateau_end x i i_max i_ahead fuel)%nat.
Proof.
  induction fuel as [|fuel IH]; intros i_ahead; simpl; [lia|].
  destruct ((i_ahead <? i_max)%nat && eqb (nth i_ahead x d) (nth i x d)).
  - specialize (IH (S i_ahead)). lia.
  - lia.
Qed.

Lemma plateau_end_le x i i_max fuel : forall i_ahead,
  (i_ahead <= i_max)%nat ->
  (plateau_end x i i_max i_ahead fuel <= i_max)%nat.
Proof.
  induction fuel as [|fuel IH]; intros i_ahead Hle; simpl; [lia|].
  destruct (Nat.ltb_spec i_ahead i_max) as [Hlt|Hge]; simpl; [|lia].
  destruct (eqb (nth i_ahead x d) (nth i x d)); [|lia].
  apply IH. lia.
Qed.

Lemma plateau_end_flat x i i_max fuel : forall i_ahead k,
  (i_ahead <= k < plateau_end x i i_max i_ahead fuel)%nat ->
  eqb (nth k x d) (nth i x d) = true.
Proof.
  induction fuel as [|fuel IH]; intros i_ahead k Hk; simpl in Hk; [lia|].
  destruct ((i_ahead <? i_max)%nat && eqb (nth i_ahead x d) (nth i x d))
    eqn:Hc; [|lia].
  apply andb_true_iff in Hc. destruct Hc as [_ Heq].
  destruct (Nat.eq_dec k i_ahead) as [->|Hne]; [exact Heq|].
  apply (IH (S i_ahead)). lia.
Qed.

Lemma plateau_end_stop x i i_max fuel : forall i_ahead,
  (i_max - i_ahead < fuel)%nat ->
  (plateau_end x i i_max i_ahead fuel < i_max)%nat ->
  eqb (nth (plateau_end x i i_max i_ahead fuel) x d) (nth i x d) = false.
Proof.
  induction fuel as [|fuel IH]; intros i_ahead Hf Hlt; [lia|].
  simpl in *.
  destruct (Nat.ltb_spec i_ahead i_max) as [Hlt'|Hge]; simpl in *; [|lia].
  destruct (eqb (nth i_ahead x d) (nth i x d)) eqn:Heq; [|exact Heq].
  apply IH; [lia|exact Hlt].
Qed.

Lemma plateau_peak_interior x p :
  plateau_peak x p -> (1 <= p /\ p + 1 < length x)%nat.
Proof.
  intros (l & r & Hlr & Hr & -> & _).
  assert (l <= (l + r) / 2)%nat
    by (apply Nat.div_le_lower_bound; lia).
  assert ((l + r) / 2 <= r)%nat
    by (apply Nat.Div0.div_le_upper_bound; lia).
  lia.
Qed.

Lemma local_maxima_loop_sound x fuel : forall i p,
  (1 <= i)%nat ->
  In p (local_maxima_loop x i (length x - 1) fuel) ->
  plateau_peak x p /\ (i <= p)%nat.
Proof.
  induction fuel as [|fuel IH]; intros i p Hi Hin;
    cbn [Signal.local_maxima_loop] in Hin; [easy|].
  destruct (Nat.ltb_spec i (length x - 1)) as [Hlt|Hge]; [|easy].
  destruct (ltb (nth (i - 1) x d) (nth i x d)) eqn:Hrise.
  - set (ia := plateau_end x i (length x - 1) (i + 1) (length x)) in *.
    assert (Hia1 : (i + 1 <= ia)%nat) by apply plateau_end_ge.
    assert (Hia2 : (ia <= length x - 1)%nat)
      by (apply plateau_end_le; lia).
    destruct (ltb (nth ia x d) (nth i x d)) eqn:Hfall.
    + destruct Hin as [<-|Hin].
      * split.
        -- exists i, (ia - 1)%nat. repeat split; try lia.
           ++ exact Hrise.
           ++ intros k Hk. apply (plateau_end_flat x i (length x - 1)
                (length x) (i + 1)). fold ia. lia.
           ++ replace (ia - 1 + 1)%nat with ia by lia. exact Hfall.
        -- apply Nat.div_le_lower_bound; lia.
      * destruct (IH (ia + 1)%nat p ltac:(lia) Hin) as [Hp Hle].
        split; [exact Hp|lia].
    + destruct (IH (i + 1)%nat p ltac:(lia) Hin) as [Hp Hle].
      split; [exact Hp|lia].
  - destruct (IH (i + 1)%nat p ltac:(lia) Hin) as [Hp Hle].
    split; [exact Hp|lia].
Qed.

Lemma local_maxima_1d_sound x p :
  In p (local_maxima_1d x) -> plateau_peak x p.
Proof.
  intros Hin. apply (local_maxima_loop_sound x (length x) 1 p); [lia|].
  exact Hin.
Qed.

End SignalFacts.

Section SignalOrder.
Context {A : Type}.
Variable ltb : A -> A -> bool.
Variable eqb : A -> A -> bool.
Variable d : A.
Hypothesis eqb_eq : forall a b, eqb a b = true -> a = b.
Hypothesis ltb_irrefl : forall a, ltb a a = false.
Hypothesis ltb_trans :
  forall a b c, ltb a b = true -> ltb b c = true -> ltb a c = true.

Local Notation "'plateau_end'" := (Signal.plateau_end eqb d).
Local Notation "'local_maxima_loop'" := (Signal.local_maxima_loop ltb eqb d).
Local Notation "'local_maxima_1d'" := (Signal.local_maxima_1d ltb eqb d).
Local Notation "'argsort_insert'" := (Signal.argsort_insert ltb d).
Local Notation "'argsort'" := (Signal.argsort ltb d).
Local Notation "'prio_le'" := (Signal.prio_le ltb d).

Lemma ltb_asym a b : ltb a b = true -> ltb b a = false.
Proof.
  intros H. destruct (ltb b a) eqn:E; [|reflexivity].
  rewrite <- (ltb_irrefl a). symmetry. exact (ltb_trans _ _ _ H E).
Qed.

Lemma ltb_neq a b : ltb a b = true -> eqb a b = false.
Proof.
  intros H. destruct (eqb a b) eqn:E; [|reflexivity].
  apply eqb_eq in E. subst b. rewrite ltb_irrefl in H. discriminate.
Qed.

(** Every sample strictly above both neighbours is reported. *)
Lemma local_maxima_loop_complete x j :
  (1 <= j)%nat -> (j + 1 < length x)%nat ->
  ltb (nth (j - 1) x d) (nth j x d) = true ->
  ltb (nth (j + 1) x d) (nth j x d) = true ->
  forall fuel i,
    (1 <= i <= j)%nat -> (length x - 1 - i <= fuel)%nat ->
    In j (local_maxima_loop x i (length x - 1) fuel).
Proof.
  intros Hj1 Hj2 Hrise Hfall.
  induction fuel as [|fuel IH]; intros i Hi Hfuel; [lia|].
  cbn [Signal.local_maxima_loop].
  destruct (Nat.ltb_spec i (length x - 1)) as [Hlt|Hge]; [|lia].
  destruct (ltb (nth (i - 1) x d) (nth i x d)) eqn:Hri.
  - set (ia := plateau_end x i (length x - 1) (i + 1) (length x)).
    assert (Hia1 : (i + 1 <= ia)%nat) by apply plateau_end_ge.
    assert (Hia2 : (ia <= length x - 1)%nat)
      by (apply plateau_end_le; lia).
    assert (Hflat : forall k, (i <= k < ia)%nat -> nth k x d = nth i x d).
    { intros k Hk. destruct (Nat.eq_dec k i) as [->|Hne]; [reflexivity|].
      apply eqb_eq.
      apply (plateau_end_flat eqb d x i (length x - 1) (length x) (i + 1)).
      fold ia. lia. }
    destruct (Nat.eq_dec i j) as [->|Hne].
    + assert (Hia : ia = (j + 1)%nat).
      { destruct (Nat.eq_dec ia (j + 1)) as [E|E]; [exact E|exfalso].
        assert (Heq : nth (j + 1) x d = nth j x d)
          by (apply Hflat; lia).
        rewrite Heq, ltb_irrefl in Hfall. discriminate. }
      rewrite Hia, Hfall. left.
      replace (j + (j + 1 - 1))%nat with (j * 2)%nat by lia.
      apply Nat.div_mul. lia.
    + assert (Hout : ltb (nth ia x d) (nth i x d) = true ->
                     (ia + 1 <= j)%nat).
      { intros Hfa.
        destruct (Nat.le_gt_cases (ia + 1) j) as [Hok|Hbad];
          [exact Hok|exfalso].
        assert (Hprev : nth (j - 1) x d = nth i x d)
          by (apply Hflat; lia).
        destruct (Nat.eq_dec j ia) as [->|Hja].
        - rewrite Hprev in Hrise.
          rewrite (ltb_asym _ _ Hfa) in Hrise. discriminate.
        - assert (Hcur : nth j x d = nth i x d) by (apply Hflat; lia).
          rewrite Hprev, Hcur, ltb_irrefl in Hrise. discriminate. }
      destruct (ltb (nth ia x d) (nth i x d)) eqn:Hfa.
      * right. apply IH; specialize (Hout eq_refl); lia.
      * apply IH; lia.
  - destruct (Nat.eq_dec i j) as [->|Hne].
    + rewrite Hrise in Hri. discriminate.
    + apply IH; lia.
Qed.

Lemma local_maxima_1d_complete x j :
  (1 <= j)%nat -> (j + 1 < length x)%nat ->
  ltb (nth (j - 1) x d) (nth j x d) = true ->
  ltb (nth (j + 1) x d) (nth j x d) = true ->
  In j (local_maxima_1d x).
Proof.
  intros. apply local_maxima_loop_complete; try assumption; lia.
Qed.

Lemma argsort_insert_perm pr i l :
  Permutation (i :: l) (argsort_insert pr i l).
Proof.
  induction l as [|h t IH]; simpl; [reflexivity|].
  destruct (ltb (nth i pr d) (nth h pr d)); [reflexivity|].
  rewrite perm_swap. constructor. exact IH.
Qed.

Lemma argsort_insert_sorted pr i l :
  StronglySorted (prio_le pr) l ->
  StronglySorted (prio_le pr) (argsort_insert pr i l).
Proof.
  induction l as [|h t IH]; intros Hs; simpl.
  - repeat constructor.
  - inversion Hs as [|? ? Hst Hall]; subst.
    destruct (ltb (nth i pr d) (nth h pr d)) eqn:Hih.
    + constructor; [exact Hs|]. constructor.
      * unfold Signal.prio_le. apply ltb_asym. exact Hih.
      * rewrite Forall_forall in *. intros k Hk. unfold Signal.prio_le.
        destruct (ltb (nth k pr d) (nth i pr d)) eqn:Hki; [|reflexivity].
        specialize (Hall k Hk). unfold Signal.prio_le in Hall.
        rewrite (ltb_trans _ _ _ Hki Hih) in Hall. discriminate.
    + constructor; [apply IH; exact Hst|].
      rewrite Forall_forall in *. intros k Hk.
      apply (Permutation_in _ (Permutation_sym (argsort_insert_perm pr i t)))
        in Hk.
      destruct Hk as [<-|Hk]; [exact Hih|apply Hall; exact Hk].
Qed.

Lemma argsort_fold pr : forall l acc,
  StronglySorted (prio_le pr) acc ->
  Permutation (l ++ acc)
    (fold_left (fun a i => argsort_insert pr i a) l acc)
  /\ StronglySorted (prio_le pr)
       (fold_left (fun a i => argsort_insert pr i a) l acc).
Proof.
  induction l as [|i l IH]; intros acc Hs; simpl.
  - split; [reflexivity|exact Hs].
  - destruct (IH (argsort_insert pr i acc) (argsort_insert_sorted pr i acc Hs))
      as [Hp Hs'].
    split; [|exact Hs'].
    rewrite <- Hp. rewrite <- argsort_insert_perm.
    apply Permutation_middle.
Qed.

Lemma argsort_perm pr : Permutation (seq 0 (length pr)) (argsort pr).
Proof.
  unfold Signal.argsort.
  destruct (argsort_fold pr (seq 0 (length pr)) [] (SSorted_nil _)) as [Hp _].
  rewrite app_nil_r in Hp. exact Hp.
Qed.

Lemma argsort_sorted pr : StronglySorted (prio_le pr) (argsort pr).
Proof.
  unfold Signal.argsort.
  apply (argsort_fold pr (seq 0 (length pr)) [] (SSorted_nil _)).
Qed.

Lemma sorted_last_top pr : forall l a,
  StronglySorted (prio_le pr) (l ++ [a]) ->
  forall b, In b l -> prio_le pr b a.
Proof.
  induction l as [|h t IH]; intros a Hs b Hb; [easy|].
  simpl in Hs. inversion Hs as [|? ? Hst Hall]; subst.
  destruct Hb as [<-|Hb].
  - rewrite Forall_forall in Hall. apply Hall.
    apply in_or_app. right. left. reflexivity.
  - apply (IH a Hst b Hb).
Qed.

(** The position visited first has a priority no other exceeds. *)
Lemma argsort_rev_head pr :
  pr <> [] ->
  exists j rest,
    rev (argsort pr) = j :: rest /\
    (j < length pr)%nat /\ ~ In j rest /\
    (forall k, In k rest -> (k < length pr)%nat) /\
    (forall k, (k < length pr)%nat -> ltb (nth j pr d) (nth k pr d) = false).
Proof.
  intros Hne.
  pose proof (argsort_perm pr) as Hp.
  pose proof (argsort_sorted pr) as Hs.
  destruct (rev (argsort pr)) as [|j rest] eqn:Hrev.
  - apply (f_equal (@length nat)) in Hrev.
    rewrite length_rev, <- (Permutation_length Hp), length_seq in Hrev.
    destruct pr; [congruence|discriminate].
  - assert (Hl : argsort pr = rev rest ++ [j]).
    { rewrite <- (rev_involutive (argsort pr)), Hrev. reflexivity. }
    assert (Hin : forall k, In k (j :: rest) <-> (k < length pr)%nat).
    { intros k. rewrite <- Hrev, <- in_rev.
      split; intros H.
      - apply (Permutation_in _ (Permutation_sym Hp)) in H.
        apply in_seq in H. lia.
      - apply (Permutation_in _ Hp). apply in_seq. lia. }
    assert (Hnd : NoDup (j :: rest)).
    { rewrite <- Hrev. apply NoDup_rev.
      apply (Permutation_NoDup Hp). apply seq_NoDup. }
    exists j, rest. repeat split.
    + apply Hin. left. reflexivity.
    + inversion Hnd; assumption.
    + intros k Hk. apply Hin. right. exact Hk.
    + intros k Hk. apply Hin in Hk. destruct Hk as [<-|Hk].
      * apply ltb_irrefl.
      * rewrite Hl in Hs.
        apply (sorted_last_top pr (rev rest) j Hs k).
        apply in_rev in Hk. exact Hk.
Qed.

End SignalOrder.

(** ** Thinning by distance when every pair of peaks is too close *)

Lemma set_false_length keep k :
  length (Signal.set_false keep k) = length keep.
Proof.
  revert k. induction keep as [|b t IH]; intros [|k]; simpl; auto.
Qed.

Lemma set_false_nth keep : forall k i,
  nth i (Signal.set_false keep k) false
  = if (i =? k)%nat then false else nth i keep false.
Proof.
  induction keep as [|b t IH]; intros [|k] [|i]; simpl; auto.
  - destruct (i =? k)%nat; reflexivity.
Qed.

Lemma repeat_true_nth n i :
  nth i (repeat true n) false = (i <? n)%nat.
Proof.
  revert i. induction n as [|n IH]; intros [|i]; simpl; auto.
Qed.

Section Thinning.
Variable peaks : list nat.
Variable distance : Z.
Hypothesis close : forall a b,
  (Z.of_nat (nth a peaks 0%nat) - Z.of_nat (nth b peaks 0%nat) < distance)%Z.

Lemma clear_left_spec j : forall k keep,
  length (Signal.clear_left peaks distance j k keep) = length keep /\
  forall i, nth i (Signal.clear_left peaks distance j k keep) false
            = if (i <? k)%nat then false else nth i keep false.
Proof.
  induction k as [|k IH]; intros keep; simpl.
  - split; [reflexivity|]. intros i. reflexivity.
  - destruct (Z.ltb_spec (Z.of_nat (nth j peaks 0%nat)
                          - Z.of_nat (nth k peaks 0%nat)) distance)
      as [_|Hge]; [|specialize (close j k); lia].
    destruct (IH (Signal.set_false keep k)) as [Hlen Hnth].
    split; [rewrite Hlen; apply set_false_length|].
    intros i. rewrite Hnth, set_false_nth.
    destruct (Nat.ltb_spec i k), (Nat.eqb_spec i k),
      (Nat.ltb_spec i (S k)); try reflexivity; lia.
Qed.

Lemma clear_right_spec j : forall fuel k keep,
  (length peaks - k <= fuel)%nat ->
  length (Signal.clear_right peaks distance j k fuel keep) = length keep /\
  forall i, nth i (Signal.clear_right peaks distance j k fuel keep) false
            = if (k <=? i)%nat && (i <? length peaks)%nat then false
              else nth i keep false.
Proof.
  induction fuel as [|fuel IH]; intros k keep Hf; simpl.
  - split; [reflexivity|]. intros i.
    destruct (Nat.leb_spec k i), (Nat.ltb_spec i (length peaks));
      simpl; try reflexivity; lia.
  - destruct (Nat.ltb_spec k (length peaks)) as [Hk|Hk]; simpl.
    + destruct (Z.ltb_spec (Z.of_nat (nth k peaks 0%nat)
                            - Z.of_nat (nth j peaks 0%nat)) distance)
        as [_|Hge]; [|specialize (close k j); lia].
      destruct (IH (S k) (Signal.set_false keep k) ltac:(lia))
        as [Hlen Hnth].
      split; [rewrite Hlen; apply set_false_length|].
      intros i. rewrite Hnth, set_false_nth.
      destruct (Nat.leb_spec (S k) i), (Nat.leb_spec k i),
        (Nat.eqb_spec i k), (Nat.ltb_spec i (length peaks));
        simpl; try reflexivity; lia.
    + split; [reflexivity|]. intros i.
      destruct (Nat.leb_spec k i), (Nat.ltb_spec i (length peaks));
        simpl; try reflexivity; lia.
Qed.

(** The first peak visited clears every other one. *)
Lemma select_step_first j :
  (j < length peaks)%nat ->
  let keep := Signal.select_step peaks distance
                (repeat true (length peaks)) j in
  length keep = length peaks /\
  forall i, nth i keep false = (i =? j)%nat.
Proof.
  intros Hj. unfold Signal.select_step.
  rewrite repeat_true_nth.
  destruct (Nat.ltb_spec j (length peaks)) as [_|]; [|lia].
  destruct (clear_left_spec j j (repeat true (length peaks)))
    as [Hl1 Hn1].
  destruct (clear_right_spec j (length peaks) (S j)
              (Signal.clear_left peaks distance j j
                 (repeat true (length peaks))) ltac:(lia))
    as [Hl2 Hn2].
  cbv zeta. split.
  - rewrite Hl2, Hl1. apply repeat_length.
  - intros i. rewrite Hn2, Hn1, repeat_true_nth.
    destruct (Nat.leb_spec (S j) i), (Nat.ltb_spec i (length peaks)),
      (Nat.ltb_spec i j), (Nat.eqb_spec i j); simpl; try reflexivity; lia.
Qed.

Lemma select_step_skip keep j :
  nth j keep false = false ->
  Signal.select_step peaks distance keep j = keep.
Proof. intros H. unfold Signal.select_step. rewrite H. reflexivity. Qed.

Lemma select_rest_skip j keep : forall rest,
  (forall i, nth i keep false = (i =? j)%nat) ->
  ~ In j rest ->
  fold_left (Signal.select_step peaks distance) rest keep = keep.
Proof.
  induction rest as [|k rest IH]; intros Hk Hnin; simpl; [reflexivity|].
  rewrite select_step_skip.
  - apply IH; [exact Hk|]. intros Hin. apply Hnin. right. exact Hin.
  - rewrite Hk. apply Nat.eqb_neq. intros ->. apply Hnin. left. reflexivity.
Qed.

End Thinning.

Lemma mask_none {B : Type} (l : list B) : forall keep,
  (forall i, nth i keep false = false) -> Signal.mask l keep = [].
Proof.
  induction l as [|b l IH]; intros [|k keep] H; simpl; try reflexivity.
  pose proof (H 0%nat) as H0. simpl in H0. subst k.
  apply IH. intros i. exact (H (S i)).
Qed.

Lemma mask_only {B : Type} (dflt : B) (l : list B) : forall keep j,
  length keep = length l -> (j < length l)%nat ->
  (forall i, nth i keep false = (i =? j)%nat) ->
  Signal.mask l keep = [nth j l dflt].
Proof.
  induction l as [|b l IH]; intros [|k keep] j Hlen Hj H; simpl in *;
    try lia.
  pose proof (H 0%nat) as H0. simpl in H0.
  destruct j as [|j]; simpl in H0; subst k.
  - f_equal. apply mask_none. intros i. exact (H (S i)).
  - apply IH; [lia|lia|]. intros i. exact (H (S i)).
Qed.

Section FindPeaksFar.
Context {A : Type}.
Variable ltb : A -> A -> bool.
Variable eqb : A -> A -> bool.
Variable d : A.
Hypothesis eqb_eq : forall a b, eqb a b = true -> a = b.
Hypothesis ltb_irrefl : forall a, ltb a a = false.
Hypothesis ltb_trans :
  forall a b c, ltb a b = true -> ltb b c = true -> ltb a c = true.

(** With a distance no shorter than the signal, [find_peaks] reports
    nothing when there is no peak and otherwise exactly one peak, one
    whose sample no other peak exceeds. *)
Lemma find_peaks_far x distance :
  (Z.of_nat (length x) <= distance)%Z ->
  (Signal.local_maxima_1d ltb eqb d x = [] /\
   Signal.find_peaks ltb eqb d x distance = [])
  \/
  (exists p,
      Signal.find_peaks ltb eqb d x distance = [p] /\
      In p (Signal.local_maxima_1d ltb eqb d x) /\
      forall q, In q (Signal.local_maxima_1d ltb eqb d x) ->
                ltb (nth p x d) (nth q x d) = false).
Proof.
  intros Hdist. unfold Signal.find_peaks.
  set (peaks := Signal.local_maxima_1d ltb eqb d x).
  assert (Hsound : forall p, In p peaks -> (p + 1 < length x)%nat).
  { intros p Hp. apply local_maxima_1d_sound in Hp.
    apply plateau_peak_interior in Hp. lia. }
  clearbody peaks.
  destruct peaks as [|p0 peaks'] eqn:Hpk; [left; split; reflexivity|].
  right. rewrite <- Hpk in *. cbv zeta.
  set (pr := map (fun p => nth p x d) peaks).
  assert (Hlen : length pr = length peaks) by apply length_map.
  assert (Hne : pr <> []).
  { intros E. apply (f_equal (@length A)) in E. rewrite Hlen, Hpk in E.
    discriminate. }
  destruct (argsort_rev_head ltb d ltb_irrefl ltb_trans pr Hne)
    as (j & rest & Hrev & Hj & Hnin & _ & Htop).
  rewrite Hlen in Hj.
  assert (Hclose : forall a b,
    (Z.of_nat (nth a peaks 0%nat) - Z.of_nat (nth b peaks 0%nat)
       < distance)%Z).
  { intros a b.
    assert (Hbound : forall c, (Z.of_nat (nth c peaks 0%nat) < distance)%Z).
    { intros c. destruct (Nat.lt_ge_cases c (length peaks)) as [Hc|Hc].
      - specialize (Hsound _ (nth_In peaks 0%nat Hc)). lia.
      - rewrite nth_overflow by exact Hc.
        specialize (Hsound p0 ltac:(rewrite Hpk; left; reflexivity)). lia. }
    specialize (Hbound a). lia. }
  destruct (select_step_first peaks distance Hclose j Hj) as [Hkl Hkn].
  unfold Signal.select_by_peak_distance. rewrite Hrev. simpl fold_left.
  rewrite (select_rest_skip peaks distance j _ rest Hkn Hnin).
  rewrite (mask_only 0%nat peaks _ j Hkl Hj Hkn).
  assert (Hpr : forall k, (k < length peaks)%nat ->
                          nth k pr d = nth (nth k peaks 0%nat) x d).
  { intros k Hk. unfold pr.
    rewrite (nth_indep _ d (nth 0%nat x d)) by (rewrite length_map; exact Hk).
    apply (map_nth (fun p => nth p x d)). }
  exists (nth j peaks 0%nat). split; [reflexivity|].
  split; [apply nth_In; exact Hj|].
  intros q Hq. destruct (In_nth peaks q 0%nat Hq) as (k & Hk & <-).
  rewrite <- (Hpr j Hj), <- (Hpr k Hk). apply Htop. rewrite Hlen. exact Hk.
Qed.

End FindPeaksFar.

(** ** Peak detection sees a signal only through its order *)

Section Transfer.
Context {A B : Type}.
Variable ltbA eqbA : A -> A -> bool.
Variable ltbB eqbB : B -> B -> bool.
Variable dA : A.
Variable f : A -> B.
Hypothesis f_ltb : forall a b, ltbB (f a) (f b) = ltbA a b.
Hypothesis f_eqb : forall a b, eqbB (f a) (f b) = eqbA a b.

Lemma plateau_end_map x i i_max fuel : forall i_ahead,
  Signal.plateau_end eqbB (f dA) (map f x) i i_max i_ahead fuel
  = Signal.plateau_end eqbA dA x i i_max i_ahead fuel.
Proof.
  induction fuel as [|fuel IH]; intros i_ahead; simpl; [reflexivity|].
  rewrite !map_nth, f_eqb, IH. reflexivity.
Qed.

Lemma local_maxima_loop_map x i_max fuel : forall i,
  Signal.local_maxima_loop ltbB eqbB (f dA) (map f x) i i_max fuel
  = Signal.local_maxima_loop ltbA eqbA dA x i i_max fuel.
Proof.
  induction fuel as [|fuel IH]; intros i;
    cbn [Signal.local_maxima_loop]; [reflexivity|].
  rewrite !map_nth, !f_ltb, length_map, plateau_end_map, !IH.
  reflexivity.
Qed.

Lemma local_maxima_1d_map x :
  Signal.local_maxima_1d ltbB eqbB (f dA) (map f x)
  = Signal.local_maxima_1d ltbA eqbA dA x.
Proof.
  unfold Signal.local_maxima_1d. rewrite length_map.
  apply local_maxima_loop_map.
Qed.

Lemma argsort_insert_map pr i l :
  Signal.argsort_insert ltbB (f dA) (map f pr) i l
  = Signal.argsort_insert ltbA dA pr i l.
Proof.
  induction l as [|h t IH]; simpl; [reflexivity|].
  rewrite !map_nth, f_ltb, IH. reflexivity.
Qed.

Lemma argsort_map pr :
  Signal.argsort ltbB (f dA) (map f pr) = Signal.argsort ltbA dA pr.
Proof.
  unfold Signal.argsort. rewrite length_map.
  generalize (seq 0 (length pr)) ([] : list nat).
  induction l as [|i l IH]; intros acc; simpl; [reflexivity|].
  rewrite argsort_insert_map. apply IH.
Qed.

Lemma find_peaks_map x distance :
  Signal.find_peaks ltbB eqbB (f dA) (map f x) distance
  = Signal.find_peaks ltbA eqbA dA x distance.
Proof.
  unfold Signal.find_peaks, Signal.select_by_peak_distance.
  rewrite local_maxima_1d_map.
  set (peaks := Signal.local_maxima_1d ltbA eqbA dA x).
  replace (map (fun p => nth p (map f x) (f dA)) peaks)
    with (map f (map (fun p => nth p x dA) peaks)).
  - rewrite argsort_map. reflexivity.
  - rewrite map_map. apply map_ext. intros p. symmetry. apply map_nth.
Qed.

End Transfer.

(** ** Samples of real numbers *)

Lemma Rltb_true a b : Rltb a b = true <-> a < b.
Proof. unfold Rltb. destruct (Rlt_dec a b); split; intros; try easy. Qed.

Lemma Rltb_false a b : Rltb a b = false <-> b <= a.
Proof.
  unfold Rltb. destruct (Rlt_dec a b); split; intros; try easy; lra.
Qed.

Lemma Reqb_true a b : Reqb a b = true <-> a = b.
Proof. unfold Reqb. destruct (Req_dec_T a b); split; intros; try easy. Qed.

Lemma Reqb_eq a b : Reqb a b = true -> a = b.
Proof. apply Reqb_true. Qed.

Lemma Rltb_irrefl a : Rltb a a = false.
Proof. apply Rltb_false. lra. Qed.

Lemma Rltb_trans a b c :
  Rltb a b = true -> Rltb b c = true -> Rltb a c = true.
Proof. rewrite !Rltb_true. lra. Qed.

(** [np.argmax]: the index returned holds a largest sample, and is the
    first to do so. *)
Lemma argmax_from_spec (whole : list R) : forall xs i best,
  skipn i whole = xs ->
  (best < i)%nat -> (i <= length whole)%nat ->
  (forall j, (j < i)%nat -> nth j whole 0 <= nth best whole 0) ->
  (forall j, (j < best)%nat -> nth j whole 0 < nth best whole 0) ->
  let r := Signal.argmax_from Rltb xs i best (nth best whole 0) in
  (r < length whole)%nat /\
  (forall j, (j < length whole)%nat -> nth j whole 0 <= nth r whole 0) /\
  (forall j, (j < r)%nat -> nth j whole 0 < nth r whole 0).
Proof.
  induction xs as [|v xs IH]; intros i best Hskip Hb Hi Hmax Hfirst; simpl.
  - assert (length whole <= i)%nat.
    { apply (f_equal (@length R)) in Hskip. rewrite length_skipn in Hskip.
      simpl in Hskip. lia. }
    repeat split; try lia; try assumption.
    intros j Hj. apply Hmax. lia.
  - assert (Hv : nth i whole 0 = v).
    { rewrite <- (Nat.add_0_r i), <- nth_skipn, Hskip. reflexivity. }
    assert (Hlt : (i < length whole)%nat).
    { apply (f_equal (@length R)) in Hskip. rewrite length_skipn in Hskip.
      simpl in Hskip. lia. }
    assert (Hskip' : skipn (S i) whole = xs).
    { replace (S i) with (1 + i)%nat by lia.
      rewrite <- skipn_skipn, Hskip. reflexivity. }
    destruct (Rltb (nth best whole 0) v) eqn:Hc.
    + apply Rltb_true in Hc. rewrite <- Hv.
      apply IH; try assumption; try lia.
      * intros j Hj. destruct (Nat.eq_dec j i) as [->|Hne]; [lra|].
        specialize (Hmax j ltac:(lia)). lra.
      * intros j Hj. specialize (Hmax j Hj). lra.
    + apply Rltb_false in Hc.
      apply IH; try assumption; try lia.
      intros j Hj. destruct (Nat.eq_dec j i) as [->|Hne]; [lra|].
      apply Hmax. lia.
Qed.

Lemma argmax_spec (x : list R) :
  x <> [] ->
  exists r,
    Signal.argmax Rltb x = Ok r /\
    (r < length x)%nat /\
    (forall j, (j < length x)%nat -> nth j x 0 <= nth r x 0) /\
    (forall j, (j < r)%nat -> nth j x 0 < nth r x 0).
Proof.
  destruct x as [|v xs]; [congruence|]. intros _.
  exists (Signal.argmax_from Rltb xs 1 0 v). split; [reflexivity|].
  apply (argmax_from_spec (v :: xs) xs 1 0); simpl; try lia;
    try reflexivity.
  - intros j Hj. assert (j = 0%nat) as -> by lia. lra.
Qed.

(** ** Logarithms, powers of ten and even samples *)

Lemma ln10_pos : 0 < ln 10.
Proof. rewrite <- ln_1. apply ln_increasing; lra. Qed.

Lemma log10_pow10 x : log10 (Rpower 10 x) = x.
Proof.
  unfold log10, Rpower. rewrite ln_exp. field.
  pose proof ln10_pos. lra.
Qed.

Lemma pow10_log10 x : 0 < x -> Rpower 10 (log10 x) = x.
Proof.
  intros Hx. unfold log10, Rpower.
  replace (ln x / ln 10 * ln 10) with (ln x)
    by (field; pose proof ln10_pos; lra).
  apply exp_ln. exact Hx.
Qed.

Lemma pow10_pos x : 0 < Rpower 10 x.
Proof. unfold Rpower. apply exp_pos. Qed.

Lemma pow10_lt x y : x < y -> Rpower 10 x < Rpower 10 y.
Proof. intros H. apply Rpower_lt; lra. Qed.

Lemma log10_lt x y : 0 < x -> x < y -> log10 x < log10 y.
Proof.
  intros Hx Hxy. unfold log10.
  apply Rmult_lt_compat_r.
  - apply Rinv_0_lt_compat. apply ln10_pos.
  - apply ln_increasing; assumption.
Qed.

Lemma log10_pow n : log10 (10 ^ n) = INR n.
Proof.
  unfold log10. rewrite ln_pow by lra. field.
  pose proof ln10_pos. lra.
Qed.

Lemma linspace_length a b n : length (linspace a b n) = n.
Proof. unfold linspace. rewrite length_map. apply length_seq. Qed.

Lemma linspace_nth a b n i :
  (i < n)%nat ->
  nth i (linspace a b n) 0 = INR i * ((b - a) / INR (n - 1)) + a.
Proof.
  intros Hi. unfold linspace.
  rewrite (nth_indep _ 0 ((fun k => INR k * ((b - a) / INR (n - 1)) + a) 0%nat))
    by (rewrite length_map, length_seq; exact Hi).
  rewrite (map_nth (fun k => INR k * ((b - a) / INR (n - 1)) + a)).
  rewrite seq_nth by exact Hi. reflexivity.
Qed.

Lemma linspace_first a b n :
  (0 < n)%nat -> nth 0 (linspace a b n) 0 = a.
Proof. intros H. rewrite linspace_nth by exact H. simpl. lra. Qed.

Lemma linspace_last a b n :
  (2 <= n)%nat -> nth (n - 1) (linspace a b n) 0 = b.
Proof.
  intros H. rewrite linspace_nth by lia. field.
  apply not_0_INR. lia.
Qed.

Lemma linspace_step a b n i :
  (S i < n)%nat ->
  nth (S i) (linspace a b n) 0 - nth i (linspace a b n) 0
  = (b - a) / INR (n - 1).
Proof.
  intros H. rewrite !linspace_nth by lia. rewrite S_INR. lra.
Qed.

Lemma linspace_inside a b n i :
  a < b -> (1 <= i)%nat -> (i + 1 < n)%nat ->
  a < nth i (linspace a b n) 0 < b.
Proof.
  intros Hab Hi1 Hi2. rewrite linspace_nth by lia.
  assert (Hn : 0 < INR (n - 1)) by (apply lt_0_INR; lia).
  assert (Hi : 0 < INR i) by (apply lt_0_INR; lia).
  assert (Hin : INR i < INR (n - 1)) by (apply lt_INR; lia).
  assert (Hq : 0 < (b - a) / INR (n - 1))
    by (apply Rdiv_lt_0_compat; lra).
  split.
  - nra.
  - replace b with (INR (n - 1) * ((b - a) / INR (n - 1)) + a) at 2
      by (field; lra).
    nra.
Qed.

(** ** The bisector of the tangent and the horizontal *)

Lemma half_atan_bound m : - (PI / 4) < 0.5 * atan m < PI / 4.
Proof. pose proof (atan_bound m). lra. Qed.

Lemma slopeBisect_zero : slopeBisect_of 0 = 0.
Proof.
  unfold slopeBisect_of. rewrite atan_0.
  replace (0.5 * 0) with 0 by lra. apply tan_0.
Qed.

Lemma slopeBisect_below_one m : -1 < slopeBisect_of m < 1.
Proof.
  pose proof (half_atan_bound m) as [Hlo Hhi]. pose proof PI_RGT_0.
  unfold slopeBisect_of. split.
  - replace (-1) with (tan (- (PI / 4))) by (rewrite tan_neg, tan_PI4; lra).
    apply tan_increasing; lra.
  - rewrite <- tan_PI4. apply tan_increasing; lra.
Qed.

Lemma slopeBisect_negative m : m < 0 -> m < slopeBisect_of m < 0.
Proof.
  intros Hm. pose proof (atan_bound m) as [Hlo Hhi]. pose proof PI_RGT_0.
  assert (Ha : atan m < 0) by (rewrite <- atan_0; apply atan_increasing; lra).
  unfold slopeBisect_of. split.
  - rewrite <- (tan_atan m) at 1. apply tan_increasing; lra.
  - rewrite <- tan_0. apply tan_increasing; lra.
Qed.

Lemma slopeBisect_positive m : 0 < m -> 0 < slopeBisect_of m < m.
Proof.
  intros Hm. pose proof (atan_bound m) as [Hlo Hhi]. pose proof PI_RGT_0.
  assert (Ha : 0 < atan m) by (rewrite <- atan_0; apply atan_increasing; lra).
  unfold slopeBisect_of. split.
  - rewrite <- tan_0. apply tan_increasing; lra.
  - rewrite <- (tan_atan m) at 2. apply tan_increasing; lra.
Qed.

(** The tangent slope is recovered from the bisector slope by the
    double-angle formula. *)
Lemma slopeBisect_double m :
  m = 2 * slopeBisect_of m / (1 - slopeBisect_of m * slopeBisect_of m).
Proof.
  pose proof (slopeBisect_below_one m) as Hb.
  pose proof (half_atan_bound m) as [Hlo Hhi].
  pose proof (atan_bound m) as [Hlo' Hhi']. pose proof PI_RGT_0.
  unfold slopeBisect_of in *.
  rewrite <- tan_2a.
  - replace (2 * (0.5 * atan m)) with (atan m) by lra.
    symmetry. apply tan_atan.
  - apply Rgt_not_eq. apply cos_gt_0; lra.
  - replace (2 * (0.5 * atan m)) with (atan m) by lra.
    apply Rgt_not_eq. apply cos_gt_0; lra.
  - nra.
Qed.

Lemma slopeBisect_not_mean m : m <> 0 -> slopeBisect_of m <> m / 2.
Proof.
  intros Hm Heq.
  pose proof (slopeBisect_below_one m) as Hb.
  pose proof (slopeBisect_double m) as Hd.
  set (b := slopeBisect_of m) in *.
  assert (Hb0 : b <> 0).
  { destruct (Rtotal_order m 0) as [Hneg|[H0|Hpos]]; [|contradiction|].
    - pose proof (slopeBisect_negative m Hneg). fold b in H. lra.
    - pose proof (slopeBisect_positive m Hpos). fold b in H. lra. }
  assert (Hden : 1 - b * b <> 0) by nra.
  assert (Hm2 : m * (1 - b * b) = 2 * b).
  { rewrite Hd at 1. field. exact Hden. }
  assert (Hmb : m = 2 * b) by lra.
  rewrite Hmb in Hm2.
  assert (b * (b * b) = 0) by lra.
  apply Hb0. apply Rmult_integral in H. destruct H as [H|H]; [exact H|].
  apply Rmult_integral in H. destruct H; assumption.
Qed.

(** ** The stages of [getSigmaP] *)


Lemma keeps_data_bind {A B : Type} (c : M A) (k : A -> M B) :
  keeps_data c -> (forall a, keeps_data (k a)) -> keeps_data (bind c k).
Proof.
  intros Hc Hk self. unfold bind. specialize (Hc self).
  destruct (c self) as [[a|e] self1]; simpl in *.
  - rewrite Hk. exact Hc.
  - exact Hc.
Qed.

Lemma keeps_data_ret {A : Type} (a : A) : keeps_data (ret a).
Proof. intros self. reflexivity. Qed.

Lemma keeps_data_lift {A : Type} (r : PyResult A) : keeps_data (lift r).
Proof. intros self. reflexivity. Qed.

Lemma keeps_data_get : keeps_data get_data.
Proof. intros self. reflexivity. Qed.

Lemma keeps_data_attr f : keeps_data (attr f).
Proof. intros self. unfold attr. destruct (f self); reflexivity. Qed.

Lemma keeps_data_set_sigmaMC v : keeps_data (set_sigmaMC v).
Proof. intros self. reflexivity. Qed.

Lemma keeps_data_set_eMC v : keeps_data (set_eMC v).
Proof. intros self. reflexivity. Qed.

Lemma keeps_data_set_sigmaP v : keeps_data (set_sigmaP v).
Proof. intros self. reflexivity. Qed.

Lemma keeps_data_set_eSigmaP v : keeps_data (set_eSigmaP v).
Proof. intros self. reflexivity. Qed.

Lemma keeps_data_set_ocr v : keeps_data (set_ocr v).
Proof. intros self. reflexivity. Qed.

Create HintDb frame.
#[export] Hint Resolve keeps_data_ret keeps_data_lift keeps_data_get
  keeps_data_attr keeps_data_set_sigmaMC keeps_data_set_eMC
  keeps_data_set_sigmaP keeps_data_set_eSigmaP keeps_data_set_ocr : frame.

Ltac frame_step :=
  repeat (apply keeps_data_bind; [solve [auto with frame] | intros ?]);
  auto with frame.

Section ProgramFacts.
Variable interp : list R -> list R -> PPoly.
Variable lstsq : list R -> list R -> nat -> list R.

Lemma keeps_data_search_spline cs sigmaCS :
  keeps_data (search_spline cs sigmaCS).
Proof. unfold search_spline. frame_step. Qed.

Lemma keeps_data_search_FOP d r0 r1 loglog :
  keeps_data (search_FOP lstsq d r0 r1 loglog).
Proof. unfold search_FOP. frame_step. Qed.

Lemma keeps_data_override cs mcp : keeps_data (override cs mcp).
Proof. unfold override. destruct mcp; frame_step. Qed.

Lemma keeps_data_construct cs d mcp x4FOP curvature :
  keeps_data (construct cs d mcp x4FOP curvature).
Proof. unfold construct. frame_step. Qed.

Lemma keeps_data_locate mcp rng loglog :
  keeps_data (locate interp lstsq mcp rng loglog).
Proof.
  unfold locate. frame_step.
  apply keeps_data_bind.
  - destruct rng as [[r0 r1]|];
      [apply keeps_data_search_FOP | apply keeps_data_search_spline].
  - intros ?. apply keeps_data_bind; [apply keeps_data_override|].
    intros ?. auto with frame.
Qed.

Lemma keeps_data_getSigmaP mcp rng loglog :
  keeps_data (getSigmaP interp lstsq mcp rng loglog).
Proof.
  unfold getSigmaP.
  apply keeps_data_bind; [apply keeps_data_locate|]. intros r.
  apply keeps_data_bind; [auto with frame|]. intros d.
  apply keeps_data_construct.
Qed.

(** *** The spline and its knots *)

Lemma CubicSpline_valid x y :
  (2 <= length x)%nat -> length x = length y -> increasingb x = true ->
  CubicSpline interp x y = Ok (interp x y).
Proof.
  intros H2 Hlen Hinc. unfold CubicSpline.
  destruct (Nat.ltb_spec (length x) 2); [lia|].
  rewrite <- Hlen, Nat.eqb_refl, Hinc. reflexivity.
Qed.

Lemma CubicSpline_ok x y cs :
  CubicSpline interp x y = Ok cs ->
  (2 <= length x)%nat /\ length x = length y /\ increasingb x = true /\
  cs = interp x y.
Proof.
  unfold CubicSpline.
  destruct (Nat.ltb_spec (length x) 2); [discriminate|].
  destruct (Nat.eqb_spec (length x) (length y)); simpl; [|discriminate].
  destruct (increasingb x); simpl; [|discriminate].
  intros [= <-]. auto.
Qed.

Lemma CubicSpline_raise x y e :
  CubicSpline interp x y = Raise e -> e = ValueError.
Proof.
  unfold CubicSpline.
  destruct (length x <? 2)%nat; [intros [= <-]; reflexivity|].
  destruct (negb (length x =? length y)%nat);
    [intros [= <-]; reflexivity|].
  destruct (negb (increasingb x)); [intros [= <-]; reflexivity|].
  discriminate.
Qed.

(** *** The two searches *)

Lemma search_spline_run cs sigmaCS self :
  search_spline cs sigmaCS self =
  match Signal.find_peaks Rltb Reqb 0 (spline_curvature cs sigmaCS) 500 with
  | [] => (Raise IndexError, self)
  | i :: _ =>
      (Ok (map (Rpower 10) sigmaCS, spline_curvature cs sigmaCS),
       with_mcp self (Rpower 10 (nth i sigmaCS 0))
         (call cs (nth i sigmaCS 0) 0))
  end.
Proof.
  unfold search_spline, bind, lift, item0.
  destruct (Signal.find_peaks Rltb Reqb 0 (spline_curvature cs sigmaCS) 500);
    reflexivity.
Qed.

Lemma search_spline_raise cs sigmaCS self e self' :
  search_spline cs sigmaCS self = (Raise e, self') ->
  self' = self /\ e = IndexError /\
  Signal.find_peaks Rltb Reqb 0 (spline_curvature cs sigmaCS) 500 = [].
Proof.
  rewrite search_spline_run.
  destruct (Signal.find_peaks Rltb Reqb 0 (spline_curvature cs sigmaCS) 500);
    [|discriminate].
  intros [= <- <-]. auto.
Qed.

Lemma py_slice_length {B C : Type} (l : list B) (l' : list C) lo hi :
  length l = length l' ->
  length (py_slice l lo hi) = length (py_slice l' lo hi).
Proof.
  intros H. unfold py_slice.
  rewrite !length_firstn, !length_skipn, H. reflexivity.
Qed.

Lemma FOP_columns d r0 r1 :
  length (sigmaFOP_of d r0 r1) = length (eFOP_of d r0 r1).
Proof.
  unfold sigmaFOP_of, eFOP_of. apply py_slice_length.
  unfold col_stress, col_e. rewrite !length_map. reflexivity.
Qed.

Lemma iloc_first_ok {B : Type} (l : list B) (dflt : B) :
  l <> [] -> iloc_first l = Ok (hd dflt l).
Proof. destruct l; [congruence|reflexivity]. Qed.

Lemma iloc_last_ok {B : Type} (l : list B) (dflt : B) :
  l <> [] -> iloc_last l = Ok (last l dflt).
Proof.
  intros Hne. destruct (exists_last Hne) as (l' & a & ->).
  unfold iloc_last. rewrite rev_app_distr, last_last. reflexivity.
Qed.

Lemma iloc_first_raise {B : Type} (l : list B) e :
  iloc_first l = Raise e -> e = IndexError /\ l = [].
Proof. destruct l; [intros [= <-]; auto|discriminate]. Qed.

Lemma iloc_last_raise {B : Type} (l : list B) e :
  iloc_last l = Raise e -> e = IndexError /\ l = [].
Proof.
  unfold iloc_last. destruct (rev l) eqn:Hr; [|discriminate].
  intros [= <-]. split; [reflexivity|].
  rewrite <- (rev_involutive l), Hr. reflexivity.
Qed.

Lemma polyfit_ok x y deg :
  x <> [] -> length x = length y ->
  polyfit lstsq x y deg = Ok (lstsq x y deg).
Proof.
  intros Hne Hlen. unfold polyfit. destruct x; [congruence|].
  rewrite <- Hlen, Nat.eqb_refl. reflexivity.
Qed.

Lemma argmax_raise (x : list R) e :
  Signal.argmax Rltb x = Raise e -> e = ValueError /\ x = [].
Proof. destruct x; [intros [= <-]; auto|discriminate]. Qed.

(** The polynomial search succeeds as soon as some row falls between
    the two indices and the solver returns five coefficients. *)
Lemma search_FOP_ok d r0 r1 loglog self p0 p1 p2 p3 p4 :
  sigmaFOP_of d r0 r1 <> [] ->
  lstsq (map (fun x => transform loglog x false) (sigmaFOP_of d r0 r1))
        (eFOP_of d r0 r1) 4 = [p0; p1; p2; p3; p4] ->
  let p := (p0, p1, p2, p3, p4) in
  let x4FOP := linspace (hd 0 (sigmaFOP_of d r0 r1))
                        (last (sigmaFOP_of d r0 r1) 0) 1000 in
  let x4FOPlog := map (fun x => transform loglog x false) x4FOP in
  let curvature := map (FOP_curvature p) x4FOPlog in
  exists idx,
    Signal.argmax Rltb curvature = Ok idx /\
    (idx < 1000)%nat /\
    (forall j, (j < 1000)%nat -> nth j curvature 0 <= nth idx curvature 0) /\
    (forall j, (j < idx)%nat -> nth j curvature 0 < nth idx curvature 0) /\
    search_FOP lstsq d r0 r1 loglog self =
    (Ok (x4FOP, curvature),
     with_mcp self (transform loglog (nth idx x4FOPlog 0) true)
       (nth idx (map (FOP_value p) x4FOPlog) 0)).
Proof.
  intros Hne Hfit p x4FOP x4FOPlog curvature.
  assert (Hlen : length curvature = 1000%nat).
  { unfold curvature, x4FOPlog, x4FOP.
    rewrite !length_map. apply linspace_length. }
  assert (Hcne : curvature <> []).
  { intros E. rewrite E in Hlen. discriminate. }
  destruct (argmax_spec curvature Hcne) as (idx & Harg & Hidx & Hmax & Hfirst).
  rewrite Hlen in *.
  exists idx. repeat split; try assumption.
  unfold search_FOP, bind, lift.
  rewrite polyfit_ok;
    [|intros E; apply map_eq_nil in E; contradiction
     |rewrite length_map; apply FOP_columns].
  rewrite Hfit. cbn [unpack5].
  rewrite (iloc_first_ok _ 0 Hne), (iloc_last_ok _ 0 Hne).
  fold x4FOP. fold x4FOPlog. fold p. fold curvature.
  rewrite Harg. reflexivity.
Qed.

Lemma search_FOP_raise d r0 r1 loglog self e self' :
  search_FOP lstsq d r0 r1 loglog self = (Raise e, self') ->
  self' = self /\ (e = TypeError \/ e = ValueError \/ e = IndexError).
Proof.
  unfold search_FOP, bind, lift.
  destruct (polyfit lstsq _ _ 4) as [coeffs|e1] eqn:Hfit.
  - destruct (unpack5 coeffs) as [p|e2] eqn:Hun.
    + destruct (iloc_first (sigmaFOP_of d r0 r1)) as [f0|e3] eqn:Hf0.
      * destruct (iloc_last (sigmaFOP_of d r0 r1)) as [fN|e4] eqn:HfN.
        -- destruct (Signal.argmax Rltb _) as [idx|e5] eqn:Harg.
           ++ discriminate.
           ++ intros [= <- <-]. split; [reflexivity|].
              apply argmax_raise in Harg. destruct Harg as [-> _]. auto.
        -- intros [= <- <-]. split; [reflexivity|].
           apply iloc_last_raise in HfN. destruct HfN as [-> _]. auto.
      * intros [= <- <-]. split; [reflexivity|].
        apply iloc_first_raise in Hf0. destruct Hf0 as [-> _]. auto.
    + intros [= <- <-]. split; [reflexivity|].
      unfold unpack5 in Hun.
      repeat (destruct coeffs as [|? coeffs];
              try (injection Hun as Hun; subst; auto; fail)).
      discriminate.
  - intros [= <- <-]. split; [reflexivity|].
    unfold polyfit in Hfit.
    destruct (map _ (sigmaFOP_of d r0 r1));
      [injection Hfit as Hfit; subst; auto|].
    destruct (negb _); [injection Hfit as Hfit; subst; auto|discriminate].
Qed.

(** *** From the knots to the point of maximum curvature *)

Lemma valid_knots_spline d :
  valid_knots d ->
  CubicSpline interp (sigmaLog d) (skipn 1 (col_e (cleaned d)))
  = Ok (the_spline interp d).
Proof.
  intros [H2 Hinc]. apply CubicSpline_valid; try assumption.
  unfold sigmaLog, col_stress, col_e.
  rewrite length_map, !length_skipn, !length_map. reflexivity.
Qed.

Lemma valid_knots_nonempty d : valid_knots d -> sigmaLog d <> [].
Proof. intros [H2 _] E. rewrite E in H2. simpl in H2. lia. Qed.

Lemma valid_knots_cleaned d :
  valid_knots d -> col_stress (cleaned d) <> [].
Proof.
  intros [H2 _] E. unfold sigmaLog in H2. rewrite E in H2.
  simpl in H2. lia.
Qed.

Lemma locate_run mcp rng loglog self :
  valid_knots (data self) ->
  locate interp lstsq mcp rng loglog self =
  match search interp lstsq (data self) rng loglog self with
  | (Raise e, s) => (Raise e, s)
  | (Ok found, s1) =>
      (Ok (the_spline interp (data self), found),
       match mcp with
       | None => s1
       | Some p =>
           with_mcp s1 p (call (the_spline interp (data self)) (log10 p) 0)
       end)
  end.
Proof.
  intros Hv. unfold locate, bind, get_data, lift.
  rewrite (valid_knots_spline _ Hv).
  rewrite (iloc_first_ok _ 0 (valid_knots_nonempty _ Hv)).
  rewrite (iloc_last_ok _ 0 (valid_knots_nonempty _ Hv)).
  fold (sigmaCS (data self)). unfold search.
  destruct rng as [[r0 r1]|].
  - destruct (search_FOP lstsq (data self) r0 r1 loglog self)
      as [[found|e] s1]; [|reflexivity].
    destruct mcp; reflexivity.
  - destruct (search_spline (the_spline interp (data self))
                (sigmaCS (data self)) self) as [[found|e] s1];
      [|reflexivity].
    destruct mcp; reflexivity.
Qed.

Lemma locate_invalid mcp rng loglog self e self' :
  ~ valid_knots (data self) ->
  locate interp lstsq mcp rng loglog self = (Raise e, self') ->
  self' = self /\ e = ValueError.
Proof.
  intros Hnv. unfold locate, bind, get_data, lift.
  destruct (CubicSpline interp _ _) as [cs|e1] eqn:Hcs.
  - exfalso. apply Hnv. apply CubicSpline_ok in Hcs.
    destruct Hcs as (H2 & _ & Hinc & _). split; assumption.
  - intros [= <- <-]. split; [reflexivity|].
    apply (CubicSpline_raise _ _ _ Hcs).
Qed.

Lemma locate_ok_valid mcp rng loglog self r self' :
  locate interp lstsq mcp rng loglog self = (Ok r, self') ->
  valid_knots (data self).
Proof.
  unfold locate, bind, get_data, lift.
  destruct (CubicSpline interp _ _) as [cs|e1] eqn:Hcs; [|discriminate].
  intros _. apply CubicSpline_ok in Hcs.
  destruct Hcs as (H2 & _ & Hinc & _). split; assumption.
Qed.

Lemma search_ok_state d rng loglog self found s1 :
  search interp lstsq d rng loglog self = (Ok found, s1) ->
  exists sMC y, s1 = with_mcp self sMC y.
Proof.
  unfold search. destruct rng as [[r0 r1]|].
  - unfold search_FOP, bind, lift.
    destruct (polyfit lstsq _ _ 4) as [coeffs|]; [|discriminate].
    destruct (unpack5 coeffs) as [p|]; [|discriminate].
    destruct (iloc_first _) as [f0|]; [|discriminate].
    destruct (iloc_last _) as [fN|]; [|discriminate].
    destruct (Signal.argmax Rltb _) as [idx|]; [|discriminate].
    intros H. apply (f_equal snd) in H. cbn [snd] in H. subst s1.
    eexists _, _. reflexivity.
  - rewrite search_spline_run.
    destruct (Signal.find_peaks Rltb Reqb 0 _ 500) as [|i l];
      [discriminate|].
    intros H. apply (f_equal snd) in H. cbn [snd] in H. subst s1.
    eexists _, _. reflexivity.
Qed.

Lemma search_raise d rng loglog self e s1 :
  search interp lstsq d rng loglog self = (Raise e, s1) ->
  s1 = self /\ (e = TypeError \/ e = ValueError \/ e = IndexError).
Proof.
  unfold search. destruct rng as [[r0 r1]|]; intros H.
  - apply (search_FOP_raise _ _ _ _ _ _ _ H).
  - apply search_spline_raise in H. destruct H as (-> & -> & _). auto.
Qed.

(** A successful location leaves the object with both attributes of
    the point assigned and everything else as it was. *)
Lemma locate_ok mcp rng loglog self cs found s1 :
  locate interp lstsq mcp rng loglog self = (Ok (cs, found), s1) ->
  valid_knots (data self) /\ cs = the_spline interp (data self) /\
  exists sMC y, s1 = with_mcp self sMC y.
Proof.
  intros H. pose proof (locate_ok_valid _ _ _ _ _ _ H) as Hv.
  split; [exact Hv|]. rewrite (locate_run _ _ _ _ Hv) in H.
  destruct (search interp lstsq (data self) rng loglog self)
    as [[found'|e] s] eqn:Hs; [|discriminate].
  apply search_ok_state in Hs. destruct Hs as (a & b & ->).
  injection H as <- <- <-. split; [reflexivity|].
  destruct mcp as [p|]; eexists _, _; reflexivity.
Qed.

Lemma locate_raise mcp rng loglog self e s1 :
  locate interp lstsq mcp rng loglog self = (Raise e, s1) ->
  s1 = self /\ (e = TypeError \/ e = ValueError \/ e = IndexError).
Proof.
  intros H.
  destruct (CubicSpline interp (sigmaLog (data self))
              (skipn 1 (col_e (cleaned (data self))))) as [cs|e1] eqn:Hcs.
  - assert (Hv : valid_knots (data self)).
    { apply CubicSpline_ok in Hcs. destruct Hcs as (H2 & _ & Hinc & _).
      split; assumption. }
    rewrite (locate_run _ _ _ _ Hv) in H.
    destruct (search interp lstsq (data self) rng loglog self)
      as [[found'|e'] s] eqn:Hs; [discriminate|].
    injection H as <- <-. apply (search_raise _ _ _ _ _ _ Hs).
  - assert (Hnv : ~ valid_knots (data self)).
    { intros Hv. rewrite (valid_knots_spline _ Hv) in Hcs. discriminate. }
    destruct (locate_invalid _ _ _ _ _ _ Hnv H) as [-> ->]. auto.
Qed.

(** *** From the point of maximum curvature to the results *)

Lemma construct_run cs mcp found self sMC y1 :
  sigmaMC self = Some sMC -> eMC self = Some y1 ->
  col_stress (cleaned (data self)) <> [] ->
  construct cs (data self) mcp (fst found) (snd found) self =
  (Ok (fig_at cs (data self) mcp found sMC y1), finished cs self sMC y1).
Proof.
  destruct self as [d sm em sp esp o]. cbn [sigmaMC eMC data].
  intros -> -> Hne.
  unfold construct, bind, attr, lift. cbn [sigmaMC eMC].
  rewrite (iloc_last_ok _ 0 Hne). reflexivity.
Qed.

(** The body of the method after the point was located. *)
Lemma getSigmaP_located mcp rng loglog self cs found sMC y1 :
  locate interp lstsq mcp rng loglog self
  = (Ok (cs, found), with_mcp self sMC y1) ->
  getSigmaP interp lstsq mcp rng loglog self
  = (Ok (fig_at cs (data self) mcp found sMC y1),
     finished cs (with_mcp self sMC y1) sMC y1).
Proof.
  intros H. destruct (locate_ok _ _ _ _ _ _ _ H) as (Hv & _ & _).
  unfold getSigmaP, bind at 1. rewrite H.
  unfold bind, get_data. cbn [fst snd].
  apply (construct_run cs mcp found (with_mcp self sMC y1) sMC y1);
    try reflexivity.
  apply valid_knots_cleaned. exact Hv.
Qed.

Lemma getSigmaP_not_located mcp rng loglog self e s1 :
  locate interp lstsq mcp rng loglog self = (Raise e, s1) ->
  getSigmaP interp lstsq mcp rng loglog self = (Raise e, self).
Proof.
  intros H. destruct (locate_raise _ _ _ _ _ _ H) as [-> _].
  unfold getSigmaP, bind. rewrite H. reflexivity.
Qed.

(** Every run ends in one of two ways. *)
Lemma getSigmaP_outcome mcp rng loglog self :
  (exists e,
      getSigmaP interp lstsq mcp rng loglog self = (Raise e, self) /\
      locate interp lstsq mcp rng loglog self = (Raise e, self) /\
      (e = TypeError \/ e = ValueError \/ e = IndexError))
  \/
  (exists found sMC y1,
      locate interp lstsq mcp rng loglog self
      = (Ok (the_spline interp (data self), found), with_mcp self sMC y1) /\
      getSigmaP interp lstsq mcp rng loglog self
      = (Ok (fig_at (the_spline interp (data self)) (data self) mcp found
               sMC y1),
         finished (the_spline interp (data self)) (with_mcp self sMC y1)
           sMC y1)).
Proof.
  destruct (locate interp lstsq mcp rng loglog self) as [[[cs found]|e] s1]
    eqn:Hloc.
  - right. destruct (locate_ok _ _ _ _ _ _ _ Hloc) as (_ & -> & sMC & y & ->).
    exists found, sMC, y. split; [reflexivity|].
    apply getSigmaP_located. exact Hloc.
  - left. destruct (locate_raise _ _ _ _ _ _ Hloc) as [-> He].
    exists e. repeat split; try assumption.
    apply (getSigmaP_not_located _ _ _ _ _ _ Hloc).
Qed.

(** *** Runs on objects that hold the same data *)

(** The search reads the data only: on failure the object is left as
    it was, on success the same point is assigned whatever the object
    held before. *)
Lemma search_shape d rng loglog :
  (exists e, builtin e /\
     forall self, search interp lstsq d rng loglog self = (Raise e, self))
  \/
  (exists found sMC y,
     forall self, search interp lstsq d rng loglog self
                  = (Ok found, with_mcp self sMC y)).
Proof.
  unfold search. destruct rng as [[r0 r1]|].
  - unfold search_FOP, bind, lift.
    destruct (polyfit lstsq _ _ 4) as [coeffs|e1] eqn:Hfit.
    + destruct (unpack5 coeffs) as [p|e2] eqn:Hun.
      * destruct (iloc_first (sigmaFOP_of d r0 r1)) as [f0|e3] eqn:Hf0.
        -- destruct (iloc_last (sigmaFOP_of d r0 r1)) as [fN|e4] eqn:HfN.
           ++ destruct (Signal.argmax Rltb _) as [idx|e5] eqn:Harg.
              ** right. eexists _, _, _. intros self. reflexivity.
              ** left. exists e5. split; [|intros self; reflexivity].
                 apply argmax_raise in Harg. destruct Harg as [-> _].
                 right. left. reflexivity.
           ++ left. exists e4. split; [|intros self; reflexivity].
              apply iloc_last_raise in HfN. destruct HfN as [-> _].
              right. right. reflexivity.
        -- left. exists e3. split; [|intros self; reflexivity].
           apply iloc_first_raise in Hf0. destruct Hf0 as [-> _].
           right. right. reflexivity.
      * left. exists e2. split; [|intros self; reflexivity].
        unfold unpack5 in Hun.
        repeat (destruct coeffs as [|? coeffs];
                try (injection Hun as Hun; subst; right; left; reflexivity)).
        discriminate.
    + left. exists e1. split; [|intros self; reflexivity].
      unfold polyfit in Hfit.
      destruct (map _ (sigmaFOP_of d r0 r1));
        [injection Hfit as Hfit; subst; left; reflexivity|].
      destruct (negb _);
        [injection Hfit as Hfit; subst; left; reflexivity|discriminate].
  - destruct (Signal.find_peaks Rltb Reqb 0
                (spline_curvature (the_spline interp d) (sigmaCS d)) 500)
      as [|i l] eqn:Hp.
    + left. exists IndexError. split; [right; right; reflexivity|].
      intros self. rewrite search_spline_run, Hp. reflexivity.
    + right. eexists _, _, _. intros self.
      rewrite search_spline_run, Hp. reflexivity.
Qed.

(** The whole method, likewise: either every run on data [d] raises
    the same built-in exception and assigns nothing, or every run
    returns the same figure and assigns the same five values. *)
Lemma getSigmaP_shape d mcp rng loglog :
  (exists e, builtin e /\
     forall self, data self = d ->
       getSigmaP interp lstsq mcp rng loglog self = (Raise e, self))
  \/
  (exists fig sMC y1 sP eP o,
     forall self, data self = d ->
       getSigmaP interp lstsq mcp rng loglog self
       = (Ok fig, mkCasagrande d (Some sMC) (Some y1) (Some sP) (Some eP)
                    (Some o))).
Proof.
  destruct (CubicSpline interp (sigmaLog d) (skipn 1 (col_e (cleaned d))))
    as [cs|e1] eqn:Hcs.
  - assert (Hv : valid_knots d).
    { apply CubicSpline_ok in Hcs. destruct Hcs as (H2 & _ & Hinc & _).
      split; assumption. }
    destruct (search_shape d rng loglog)
      as [(e & He & Hs)|(found & sMC & y & Hs)].
    + left. exists e. split; [exact He|]. intros self <-.
      apply (getSigmaP_not_located _ _ _ _ _ self).
      rewrite (locate_run _ _ _ _ Hv), Hs. reflexivity.
    + right.
      set (sMC' := match mcp with Some p => p | None => sMC end).
      set (y' := match mcp with
                 | Some p => call (the_spline interp d) (log10 p) 0
                 | None => y
                 end).
      exists (fig_at (the_spline interp d) d mcp found sMC' y'), sMC', y',
        (sigmaP_at (the_spline interp d) d sMC' y'),
        (eSigmaP_at (the_spline interp d) d sMC' y'),
        (sigmaP_at (the_spline interp d) d sMC' y' / sigmaV d).
      intros self <-.
      rewrite (getSigmaP_located mcp rng loglog self
                 (the_spline interp (data self)) found sMC' y').
      * reflexivity.
      * rewrite (locate_run _ _ _ _ Hv), Hs.
        unfold sMC', y'. destruct mcp; reflexivity.
  - left. exists ValueError. split; [right; left; reflexivity|].
    intros self <-.
    assert (Hnv : ~ valid_knots (data self)).
    { intros Hv. rewrite (valid_knots_spline _ Hv) in Hcs. discriminate. }
    destruct (locate interp lstsq mcp rng loglog self) as [[r|e] s1]
      eqn:Hloc.
    + exfalso. apply Hnv. apply (locate_ok_valid _ _ _ _ _ _ Hloc).
    + pose proof (locate_invalid _ _ _ _ _ _ Hnv Hloc) as [-> ->].
      apply (getSigmaP_not_located _ _ _ _ _ _ Hloc).
Qed.

End ProgramFacts.

(** ** The two example curves *)

Lemma key_curv_pos K n : 0 < K -> 0 < key_curv K (Some n).
Proof.
  intros HK. unfold key_curv. apply Rdiv_lt_0_compat; [lra|].
  unfold Rpower. apply exp_pos.
Qed.

Lemma key_curv_decr K n m :
  0 < K -> (n < m)%nat -> key_curv K (Some m) < key_curv K (Some n).
Proof.
  intros HK Hnm. unfold key_curv, Rdiv.
  assert (Hn : 0 <= INR n / K)
    by (apply Rmult_le_pos; [apply pos_INR|left; apply Rinv_0_lt_compat; lra]).
  assert (Hlt : INR n / K < INR m / K).
  { apply Rmult_lt_compat_r; [apply Rinv_0_lt_compat; lra|].
    apply lt_INR. exact Hnm. }
  apply Rmult_lt_compat_l; [lra|].
  apply Rinv_lt_contravar.
  - apply Rmult_lt_0_compat; unfold Rpower; apply exp_pos.
  - apply Rlt_Rpower_l; lra.
Qed.

Lemma key_curv_inj K n m :
  0 < K -> key_curv K (Some n) = key_curv K (Some m) -> n = m.
Proof.
  intros HK Heq.
  destruct (Nat.lt_trichotomy n m) as [H|[H|H]]; [|exact H|].
  - pose proof (key_curv_decr K n m HK H). lra.
  - pose proof (key_curv_decr K m n HK H). lra.
Qed.

Lemma key_curv_ltb K a b :
  0 < K -> Rltb (key_curv K a) (key_curv K b) = key_ltb a b.
Proof.
  intros HK. destruct a as [n|], b as [m|]; cbn [key_ltb].
  - destruct (Nat.ltb_spec m n) as [H|H].
    + apply Rltb_true. apply key_curv_decr; assumption.
    + apply Rltb_false.
      destruct (Nat.eq_dec n m) as [->|Hne]; [lra|].
      left. apply key_curv_decr; [assumption|lia].
  - apply Rltb_false. left. apply key_curv_pos. exact HK.
  - apply Rltb_true. apply key_curv_pos. exact HK.
  - apply Rltb_irrefl.
Qed.

Lemma key_curv_eqb K a b :
  0 < K -> Reqb (key_curv K a) (key_curv K b) = key_eqb a b.
Proof.
  intros HK. destruct a as [n|], b as [m|]; cbn [key_eqb].
  - destruct (Nat.eqb_spec n m) as [->|Hne].
    + apply Reqb_true. reflexivity.
    + destruct (Reqb _ _) eqn:E; [|reflexivity].
      apply Reqb_true in E. apply key_curv_inj in E; [contradiction|exact HK].
  - destruct (Reqb _ _) eqn:E; [|reflexivity].
    apply Reqb_true in E. pose proof (key_curv_pos K n HK) as Hp.
    unfold key_curv in E, Hp. lra.
  - destruct (Reqb _ _) eqn:E; [|reflexivity].
    apply Reqb_true in E. pose proof (key_curv_pos K m HK) as Hp.
    unfold key_curv in E, Hp. lra.
  - apply Reqb_true. reflexivity.
Qed.

(** Peak detection on such samples, computed on their ranks. *)
Lemma find_peaks_by_rank K keys distance :
  0 < K ->
  Signal.find_peaks Rltb Reqb 0 (map (key_curv K) keys) distance
  = Signal.find_peaks key_ltb key_eqb None keys distance.
Proof.
  intros HK.
  apply (find_peaks_map key_ltb key_eqb Rltb Reqb None (key_curv K)).
  - intros a b. apply key_curv_ltb. exact HK.
  - intros a b. apply key_curv_eqb. exact HK.
Qed.

Lemma parabola_curvature c x0 x :
  curvature_of (call (parabola c (1 / 8) x0) x 1)
               (call (parabola c (1 / 8) x0) x 2)
  = (1 / 4) / Rpower (1 + ((x - x0) / 4) ^ 2) (3 / 2).
Proof.
  unfold curvature_of, parabola, call.
  replace (- 2 * (1 / 8)) with (- (1 / 4)) by lra.
  rewrite Rabs_Ropp, Rabs_pos_eq by lra.
  replace ((- (1 / 4) * (x - x0)) ^ 2) with (((x - x0) / 4) ^ 2) by field.
  reflexivity.
Qed.

Lemma INR_99 : INR (100 - 1) = 99.
Proof. rewrite INR_IZR_INZ. reflexivity. Qed.

Lemma hill_key_INR i :
  key_curv 39204 (hill_key i)
  = (1 / 4) / Rpower (1 + ((INR i * ((4 - 0) / 99) + 0 - 2) / 4) ^ 2) (3 / 2).
Proof.
  unfold hill_key, key_curv. do 2 f_equal. f_equal.
  rewrite INR_IZR_INZ, Z2Nat.id by (apply Z.pow_even_nonneg; exists 1%Z; lia).
  rewrite Z.pow_2_r, mult_IZR, minus_IZR, mult_IZR, <- INR_IZR_INZ.
  field.
Qed.

Lemma ramp_key_INR i :
  key_curv 9801 (ramp_key i)
  = (1 / 4) / Rpower (1 + ((INR i * ((4 - 0) / 99) + 0 - 0) / 4) ^ 2) (3 / 2).
Proof.
  unfold ramp_key, key_curv. do 2 f_equal. f_equal.
  rewrite mult_INR. field.
Qed.

Lemma log10_1 : log10 1 = 0.
Proof. unfold log10. rewrite ln_1. lra. Qed.

Lemma log10_10 : log10 10 = 1.
Proof. replace 10 with (10 ^ 1) at 1 by lra. rewrite log10_pow. simpl. lra. Qed.

Lemma log10_100 : log10 100 = 2.
Proof. replace 100 with (10 ^ 2) by lra. rewrite log10_pow. simpl. lra. Qed.

Lemma log10_1000 : log10 1000 = 3.
Proof. replace 1000 with (10 ^ 3) by lra. rewrite log10_pow. simpl. lra. Qed.

Lemma log10_10000 : log10 10000 = 4.
Proof. replace 10000 with (10 ^ 4) by lra. rewrite log10_pow. simpl. lra. Qed.

Lemma decades_increasing : increasingb [0; 1; 2; 3; 4] = true.
Proof.
  cbn [increasingb].
  repeat (rewrite (proj2 (Rltb_true _ _)) by lra). reflexivity.
Qed.

(** Facts shared by every test whose cleaned stresses are
    0.5, 1, 10, 100, 1000 and 10000 kPa. *)
Section Decades.
Variable d : Data.
Hypothesis stresses :
  col_stress (cleaned d) = [0.5; 1; 10; 100; 1000; 10000].

Lemma decades_sigmaLog : sigmaLog d = [0; 1; 2; 3; 4].
Proof.
  unfold sigmaLog. rewrite stresses. cbn [skipn map].
  rewrite log10_1, log10_10, log10_100, log10_1000, log10_10000.
  reflexivity.
Qed.

Lemma decades_valid : valid_knots d.
Proof.
  unfold valid_knots. rewrite decades_sigmaLog. split.
  - simpl. lia.
  - apply decades_increasing.
Qed.

Lemma decades_sigmaCS : sigmaCS d = linspace 0 4 100.
Proof. unfold sigmaCS. rewrite decades_sigmaLog. reflexivity. Qed.

Lemma decades_last : last_stress d = 10000.
Proof. unfold last_stress. rewrite stresses. reflexivity. Qed.

Lemma decades_second : second_stress d = 1.
Proof. unfold second_stress. rewrite stresses. reflexivity. Qed.
End Decades.

Lemma hill_stresses : col_stress hill_cleaned = [0.5; 1; 10; 100; 1000; 10000].
Proof. reflexivity. Qed.

Lemma ramp_stresses : col_stress ramp_cleaned = [0.5; 1; 10; 100; 1000; 10000].
Proof. reflexivity. Qed.

(** The example splines pass through their knots, and so does the
    example polynomial. *)
Lemma hill_interpolates :
  map (fun x => call (the_spline interp_hill hill_data) x 0)
      (sigmaLog hill_data)
  = skipn 1 (col_e (cleaned hill_data)).
Proof.
  rewrite (decades_sigmaLog hill_data hill_stresses).
  unfold the_spline, interp_hill, parabola, call.
  cbn [map skipn col_e cleaned hill_data hill_cleaned snd].
  repeat (f_equal; try lra).
Qed.

Lemma ramp_interpolates :
  map (fun x => call (the_spline interp_ramp ramp_data) x 0)
      (sigmaLog ramp_data)
  = skipn 1 (col_e (cleaned ramp_data)).
Proof.
  rewrite (decades_sigmaLog ramp_data ramp_stresses).
  unfold the_spline, interp_ramp, parabola, call.
  cbn [map skipn col_e cleaned ramp_data ramp_cleaned snd].
  repeat (f_equal; try lra).
Qed.

Lemma hill_polynomial_interpolates :
  map (fun x => polyval x (lstsq_hill [] [] 4)) [0; 1; 2; 3; 4]
  = skipn 1 (col_e (cleaned hill_data)).
Proof.
  unfold lstsq_hill.
  cbn [map skipn col_e cleaned hill_data hill_cleaned snd polyval].
  repeat (f_equal; try lra).
Qed.

Lemma hill_curvature :
  spline_curvature (parabola 1 (1 / 8) 2) (linspace 0 4 100)
  = map (key_curv 39204) (map hill_key (seq 0 100)).
Proof.
  unfold spline_curvature, linspace. rewrite !map_map.
  apply map_ext. intros i.
  rewrite parabola_curvature, hill_key_INR, INR_99. reflexivity.
Qed.

Lemma ramp_curvature :
  spline_curvature (parabola 3 (1 / 8) 0) (linspace 0 4 100)
  = map (key_curv 9801) (map ramp_key (seq 0 100)).
Proof.
  unfold spline_curvature, linspace. rewrite !map_map.
  apply map_ext. intros i.
  rewrite parabola_curvature, ramp_key_INR, INR_99. reflexivity.
Qed.

(** The hill has one peak of curvature, two samples wide. *)
Lemma hill_peaks :
  Signal.find_peaks Rltb Reqb 0
    (spline_curvature (parabola 1 (1 / 8) 2) (linspace 0 4 100)) 500
  = [49%nat].
Proof.
  rewrite hill_curvature, find_peaks_by_rank by lra.
  vm_compute. reflexivity.
Qed.


Lemma hill_plateau :
  let c := spline_curvature (parabola 1 (1 / 8) 2) (linspace 0 4 100) in
  nth 49 c 0 = nth 50 c 0.
Proof.
  cbv zeta. rewrite hill_curvature.
  change 0 with (key_curv 39204 None).
  rewrite !(map_nth (key_curv 39204)).
  f_equal.
Qed.

(** The search on the hill, with or without a point given by the
    caller; the search runs in both cases. *)
Lemma hill_locate lstsq mcp loglog self :
  col_stress (cleaned (data self)) = [0.5; 1; 10; 100; 1000; 10000] ->
  let cs := parabola 1 (1 / 8) 2 in
  let x := nth 49 (linspace 0 4 100) 0 in
  locate interp_hill lstsq mcp None loglog self
  = (Ok (cs, (map (Rpower 10) (linspace 0 4 100),
              spline_curvature cs (linspace 0 4 100))),
     match mcp with
     | None => with_mcp self (Rpower 10 x) (call cs x 0)
     | Some p => with_mcp self p (call cs (log10 p) 0)
     end).
Proof.
  intros Hs cs x.
  rewrite (locate_run _ _ _ _ _ _ (decades_valid _ Hs)).
  unfold search. change (the_spline interp_hill (data self)) with cs.
  rewrite (decades_sigmaCS _ Hs), search_spline_run.
  unfold cs at 1. rewrite hill_peaks. fold cs. fold x.
  destruct mcp; reflexivity.
Qed.


(** ** Samples compared through integers *)

Lemma curvature_of_nonneg d1 d2 : 0 <= curvature_of d1 d2.
Proof.
  unfold curvature_of. apply Rmult_le_pos; [apply Rabs_pos|].
  left. apply Rinv_0_lt_compat. unfold Rpower. apply exp_pos.
Qed.

Lemma curvature_of_sq d1 d2 :
  curvature_of d1 d2 ^ 2 = d2 ^ 2 / (1 + d1 ^ 2) ^ 3.
Proof.
  unfold curvature_of.
  assert (HP : 0 < 1 + d1 ^ 2) by (pose proof (pow2_ge_0 d1); lra).
  assert (Hq : Rpower (1 + d1 ^ 2) (3 / 2) ^ 2 = (1 + d1 ^ 2) ^ 3).
  { replace (Rpower (1 + d1 ^ 2) (3 / 2) ^ 2)
      with (Rpower (1 + d1 ^ 2) (3 / 2) * Rpower (1 + d1 ^ 2) (3 / 2)) by ring.
    rewrite <- Rpower_plus. replace (3 / 2 + 3 / 2) with (INR 3) by (simpl; lra).
    apply Rpower_pow. exact HP. }
  assert (Hq0 : Rpower (1 + d1 ^ 2) (3 / 2) <> 0)
    by (unfold Rpower; pose proof (exp_pos (3 / 2 * ln (1 + d1 ^ 2))); lra).
  replace ((Rabs d2 / Rpower (1 + d1 ^ 2) (3 / 2)) ^ 2)
    with (Rabs d2 ^ 2 / Rpower (1 + d1 ^ 2) (3 / 2) ^ 2) by (field; exact Hq0).
  rewrite Hq, <- Rsqr_pow2, <- Rsqr_abs, Rsqr_pow2. reflexivity.
Qed.

Lemma sq_lt_iff a b : 0 <= a -> 0 <= b -> (a < b <-> a ^ 2 < b ^ 2).
Proof. intros Ha Hb. split; intros H; nra. Qed.

Lemma sq_eq_iff a b : 0 <= a -> 0 <= b -> (a = b <-> a ^ 2 = b ^ 2).
Proof. intros Ha Hb. split; intros H; nra. Qed.

Lemma score_sq H D k :
  0 < H -> (0 < D)%Z ->
  score_val H D k ^ 2
  = IZR D ^ 6 / H ^ 2
    * (IZR (fst k ^ 2) / IZR ((D ^ 2 + snd k ^ 2) ^ 3)).
Proof.
  intros HH HD. unfold score_val. rewrite curvature_of_sq.
  assert (HDr : 0 < IZR D) by (apply IZR_lt; exact HD).
  change 2%Z with (Z.of_nat 2). change 3%Z with (Z.of_nat 3).
  rewrite <- !pow_IZR, plus_IZR, <- !pow_IZR.
  assert (0 < IZR D ^ 2 + IZR (snd k) ^ 2)
    by (pose proof (pow2_ge_0 (IZR (snd k))); nra).
  field. repeat split; lra.
Qed.

Lemma score_den_pos D (k : Z * Z) :
  (0 < D)%Z -> 0 < IZR ((D ^ 2 + snd k ^ 2) ^ 3).
Proof.
  intros HD. apply IZR_lt. apply Z.pow_pos_nonneg; [|lia]. nia.
Qed.

Lemma frac_lt_iff C n1 d1 n2 d2 :
  0 < C -> 0 < d1 -> 0 < d2 ->
  (C * (n1 / d1) < C * (n2 / d2) <-> n1 * d2 < n2 * d1).
Proof.
  intros HC H1 H2.
  assert (E1 : n1 = n1 / d1 * d1) by (field; lra).
  assert (E2 : n2 = n2 / d2 * d2) by (field; lra).
  set (r1 := n1 / d1) in *. set (r2 := n2 / d2) in *.
  rewrite E1, E2 at 1. clearbody r1 r2.
  assert (0 < d1 * d2) by nra.
  split; intros Hlt.
  - assert (r1 < r2) by nra. nra.
  - assert (r1 < r2) by nra. nra.
Qed.

Lemma frac_eq_iff C n1 d1 n2 d2 :
  0 < C -> 0 < d1 -> 0 < d2 ->
  (C * (n1 / d1) = C * (n2 / d2) <-> n1 * d2 = n2 * d1).
Proof.
  intros HC H1 H2.
  destruct (frac_lt_iff C n1 d1 n2 d2 HC H1 H2) as [A1 A2].
  destruct (frac_lt_iff C n2 d2 n1 d1 HC H2 H1) as [B1 B2].
  split; intros E.
  - destruct (Rtotal_order (n1 * d2) (n2 * d1)) as [L|[L|L]]; [|exact L|].
    + apply A2 in L. lra.
    + apply B2 in L. lra.
  - destruct (Rtotal_order (C * (n1 / d1)) (C * (n2 / d2))) as [L|[L|L]];
      [|exact L|].
    + apply A1 in L. lra.
    + apply B1 in L. lra.
Qed.

Lemma score_ltb_spec H D a b :
  0 < H -> (0 < D)%Z ->
  Rltb (score_val H D a) (score_val H D b) = score_ltb D a b.
Proof.
  intros HH HD.
  assert (HC : 0 < IZR D ^ 6 / H ^ 2).
  { apply Rdiv_lt_0_compat; apply pow_lt; [apply IZR_lt; exact HD|exact HH]. }
  pose proof (sq_lt_iff _ _ (curvature_of_nonneg (IZR (snd a) / IZR D)
                (IZR (fst a) / H)) (curvature_of_nonneg (IZR (snd b) / IZR D)
                (IZR (fst b) / H))) as Hsq.
  fold (score_val H D a) in Hsq. fold (score_val H D b) in Hsq.
  rewrite !score_sq in Hsq by assumption.
  rewrite (frac_lt_iff _ _ _ _ _ HC (score_den_pos D a HD)
             (score_den_pos D b HD)) in Hsq.
  rewrite <- !mult_IZR in Hsq.
  unfold score_ltb. destruct (Z.ltb_spec
    (fst a ^ 2 * (D ^ 2 + snd b ^ 2) ^ 3) (fst b ^ 2 * (D ^ 2 + snd a ^ 2) ^ 3))
    as [L|L].
  - apply Rltb_true. apply Hsq. apply IZR_lt. exact L.
  - apply Rltb_false. apply Rnot_lt_le. intros Hlt. apply Hsq in Hlt.
    apply lt_IZR in Hlt. lia.
Qed.

Lemma score_eqb_spec H D a b :
  0 < H -> (0 < D)%Z ->
  Reqb (score_val H D a) (score_val H D b) = score_eqb D a b.
Proof.
  intros HH HD.
  assert (HC : 0 < IZR D ^ 6 / H ^ 2).
  { apply Rdiv_lt_0_compat; apply pow_lt; [apply IZR_lt; exact HD|exact HH]. }
  pose proof (sq_eq_iff _ _ (curvature_of_nonneg (IZR (snd a) / IZR D)
                (IZR (fst a) / H)) (curvature_of_nonneg (IZR (snd b) / IZR D)
                (IZR (fst b) / H))) as Hsq.
  fold (score_val H D a) in Hsq. fold (score_val H D b) in Hsq.
  rewrite !score_sq in Hsq by assumption.
  rewrite (frac_eq_iff _ _ _ _ _ HC (score_den_pos D a HD)
             (score_den_pos D b HD)) in Hsq.
  rewrite <- !mult_IZR in Hsq.
  unfold score_eqb. destruct (Z.eqb_spec
    (fst a ^ 2 * (D ^ 2 + snd b ^ 2) ^ 3) (fst b ^ 2 * (D ^ 2 + snd a ^ 2) ^ 3))
    as [L|L].
  - apply Reqb_true. apply Hsq. rewrite L. reflexivity.
  - destruct (Reqb _ _) eqn:E; [|reflexivity].
    apply Reqb_true in E. apply Hsq in E. apply eq_IZR in E. contradiction.
Qed.

Lemma score_val_zero H D : score_val H D (0, 0)%Z = 0.
Proof.
  unfold score_val, curvature_of. cbn [fst snd].
  replace (0 / H) with 0 by (unfold Rdiv; ring).
  rewrite Rabs_R0. unfold Rdiv. ring.
Qed.

Section ScoreTransfer.
Variable H : R.
Variable D : Z.
Hypothesis H_pos : 0 < H.
Hypothesis D_pos : (0 < D)%Z.

Lemma find_peaks_by_score keys distance :
  Signal.find_peaks Rltb Reqb 0 (map (score_val H D) keys) distance
  = Signal.find_peaks (score_ltb D) (score_eqb D) (0, 0)%Z keys distance.
Proof.
  rewrite <- (score_val_zero H D).
  apply (find_peaks_map (score_ltb D) (score_eqb D) Rltb Reqb (0, 0)%Z
           (score_val H D)).
  - intros a b. apply score_ltb_spec; assumption.
  - intros a b. apply score_eqb_spec; assumption.
Qed.

Lemma local_maxima_by_score keys :
  Signal.local_maxima_1d Rltb Reqb 0 (map (score_val H D) keys)
  = Signal.local_maxima_1d (score_ltb D) (score_eqb D) (0, 0)%Z keys.
Proof.
  rewrite <- (score_val_zero H D).
  apply (local_maxima_1d_map (score_ltb D) (score_eqb D) Rltb Reqb (0, 0)%Z
           (score_val H D)).
  - intros a b. apply score_ltb_spec; assumption.
  - intros a b. apply score_eqb_spec; assumption.
Qed.

Lemma argmax_from_by_score keys : forall i best vbest,
  Signal.argmax_from Rltb (map (score_val H D) keys) i best
    (score_val H D vbest)
  = Signal.argmax_from (score_ltb D) keys i best vbest.
Proof.
  induction keys as [|k keys IH]; intros i best vbest; simpl;
    [reflexivity|].
  rewrite score_ltb_spec by assumption.
  destruct (score_ltb D vbest k); apply IH.
Qed.

Lemma argmax_by_score keys :
  Signal.argmax Rltb (map (score_val H D) keys)
  = Signal.argmax (score_ltb D) keys.
Proof.
  destruct keys as [|k keys]; [reflexivity|].
  unfold Signal.argmax. cbn [map]. f_equal. apply argmax_from_by_score.
Qed.

Lemma nth_score keys i :
  nth i (map (score_val H D) keys) 0
  = score_val H D (nth i keys (0, 0)%Z).
Proof.
  rewrite <- (score_val_zero H D) at 1. apply map_nth.
Qed.
End ScoreTransfer.

Lemma log10_100000 : log10 100000 = 5.
Proof. replace 100000 with (10 ^ 5) by lra. rewrite log10_pow. simpl. lra. Qed.

Lemma bend_sigmaLog : sigmaLog bend_data = [0; 1; 2; 3; 4; 5].
Proof.
  unfold sigmaLog. cbn [bend_data cleaned bend_cleaned col_stress map fst skipn].
  rewrite log10_1, log10_10, log10_100, log10_1000, log10_10000, log10_100000.
  reflexivity.
Qed.

Lemma bend_valid : valid_knots bend_data.
Proof.
  unfold valid_knots. rewrite bend_sigmaLog. split; [simpl; lia|].
  cbn [increasingb].
  repeat (rewrite (proj2 (Rltb_true _ _)) by lra). reflexivity.
Qed.

Lemma bend_sigmaCS : sigmaCS bend_data = linspace 0 5 100.
Proof. unfold sigmaCS. rewrite bend_sigmaLog. reflexivity. Qed.

Lemma bend_left x nu :
  x < 2 ->
  call bend x nu
  = match nu with
    | 0%nat => 7 / 2 - 3 / 5 * x - 1 / 40 * x ^ 3
    | 1%nat => - (3 / 5) - 3 / 40 * x ^ 2
    | 2%nat => - (3 / 20) * x
    | _ => 0
    end.
Proof.
  intros Hx. unfold bend, call.
  rewrite (proj2 (Rltb_true x 2) Hx). reflexivity.
Qed.

Lemma bend_middle x nu :
  2 <= x -> x < 3 ->
  call bend x nu
  = match nu with
    | 0%nat => 21 / 10 - 9 / 10 * (x - 2) - 3 / 20 * (x - 2) ^ 2
               + 3 / 20 * (x - 2) ^ 3
    | 1%nat => - (9 / 10) - 3 / 10 * (x - 2) + 9 / 20 * (x - 2) ^ 2
    | 2%nat => - (3 / 10) + 9 / 10 * (x - 2)
    | _ => 0
    end.
Proof.
  intros H2 H3. unfold bend, call.
  rewrite (proj2 (Rltb_false x 2) H2), (proj2 (Rltb_true x 3) H3).
  reflexivity.
Qed.

Lemma bend_right x nu :
  3 <= x ->
  call bend x nu
  = match nu with
    | 0%nat => 6 / 5 - 3 / 4 * (x - 3) + 3 / 10 * (x - 3) ^ 2
               - 1 / 20 * (x - 3) ^ 3
    | 1%nat => - (3 / 4) + 3 / 5 * (x - 3) - 3 / 20 * (x - 3) ^ 2
    | 2%nat => 3 / 5 - 3 / 10 * (x - 3)
    | _ => 0
    end.
Proof.
  intros H3. unfold bend, call.
  rewrite (proj2 (Rltb_false x 2)) by lra.
  rewrite (proj2 (Rltb_false x 3) H3). reflexivity.
Qed.

(** The pieces join with equal value, slope and second derivative: at
    2 the middle piece gives what the left one does, and at 3 the right
    piece what the middle one does. *)
Lemma bend_joins nu :
  (nu <= 2)%nat ->
  call bend 2 nu
  = match nu with
    | 0%nat => 7 / 2 - 3 / 5 * 2 - 1 / 40 * 2 ^ 3
    | 1%nat => - (3 / 5) - 3 / 40 * 2 ^ 2
    | _ => - (3 / 20) * 2
    end /\
  call bend 3 nu
  = match nu with
    | 0%nat => 21 / 10 - 9 / 10 * (3 - 2) - 3 / 20 * (3 - 2) ^ 2
               + 3 / 20 * (3 - 2) ^ 3
    | 1%nat => - (9 / 10) - 3 / 10 * (3 - 2) + 9 / 20 * (3 - 2) ^ 2
    | _ => - (3 / 10) + 9 / 10 * (3 - 2)
    end.
Proof.
  intros Hnu. rewrite (bend_middle 2), (bend_right 3) by lra.
  destruct nu as [|[|[|nu]]]; [| | |lia]; split; lra.
Qed.

(** The curve passes through its readings. *)
Lemma bend_interpolates :
  map (fun x => call (the_spline interp_bend bend_data) x 0)
      (sigmaLog bend_data)
  = skipn 1 (col_e (cleaned bend_data)).
Proof.
  rewrite bend_sigmaLog.
  change (the_spline interp_bend bend_data) with bend.
  cbn [map skipn col_e cleaned bend_data bend_cleaned snd].
  rewrite !bend_left by lra.
  rewrite (bend_middle 2) by lra.
  rewrite !bend_right by lra.
  repeat (f_equal; try lra).
Qed.

Lemma bend_sample i :
  (i < 100)%nat ->
  let x := INR i * ((5 - 0) / 99) + 0 in
  curvature_of (call bend x 1) (call bend x 2)
  = score_val 1980 392040 (bend_key i).
Proof.
  intros Hi x. unfold score_val.
  assert (Hx : x = IZR (Z.of_nat i) * 5 / 99)
    by (unfold x; rewrite INR_IZR_INZ; field).
  assert (Hz : (0 <= Z.of_nat i < 100)%Z) by lia.
  unfold bend_key. cbv zeta.
  set (z := Z.of_nat i) in *. clearbody z.
  destruct (Z.ltb_spec z 40) as [L|L]; [|destruct (Z.ltb_spec z 60) as [M|M]];
    cbn [fst snd].
  - assert (IZR z <= 39) by (apply IZR_le; lia).
    rewrite !bend_left by lra.
    rewrite Z.pow_2_r, minus_IZR, !mult_IZR, Hx. f_equal; field.
  - assert (40 <= IZR z) by (apply IZR_le; lia).
    assert (IZR z <= 59) by (apply IZR_le; lia).
    rewrite !bend_middle by lra.
    rewrite Z.pow_2_r, !plus_IZR, !minus_IZR, !mult_IZR, !minus_IZR,
      !mult_IZR, Hx.
    f_equal; field.
  - assert (60 <= IZR z) by (apply IZR_le; lia).
    rewrite !bend_right by lra.
    rewrite Z.pow_2_r, !minus_IZR, !plus_IZR, !mult_IZR, !minus_IZR,
      !mult_IZR, Hx.
    f_equal; field.
Qed.

Lemma bend_curvature :
  spline_curvature bend (linspace 0 5 100)
  = map (score_val 1980 392040) (map bend_key (seq 0 100)).
Proof.
  unfold spline_curvature, linspace. rewrite !map_map.
  apply map_ext_in. intros i Hi. apply in_seq in Hi.
  rewrite INR_99. apply bend_sample. lia.
Qed.

Lemma bend_local_maxima :
  Signal.local_maxima_1d Rltb Reqb 0
    (spline_curvature bend (linspace 0 5 100))
  = [39%nat; 67%nat].
Proof.
  rewrite bend_curvature, local_maxima_by_score by (lra || lia).
  vm_compute. reflexivity.
Qed.

Lemma bend_peaks :
  Signal.find_peaks Rltb Reqb 0
    (spline_curvature bend (linspace 0 5 100)) 500
  = [67%nat].
Proof.
  rewrite bend_curvature, find_peaks_by_score by (lra || lia).
  vm_compute. reflexivity.
Qed.

Lemma bend_argmax :
  Signal.argmax Rltb (spline_curvature bend (linspace 0 5 100)) = Ok 67%nat.
Proof.
  rewrite bend_curvature, argmax_by_score by (lra || lia).
  vm_compute. reflexivity.
Qed.

Lemma bend_first_peak :
  let c := spline_curvature bend (linspace 0 5 100) in
  nth 38 c 0 < nth 39 c 0 /\ nth 40 c 0 < nth 39 c 0 /\
  nth 39 c 0 < nth 67 c 0.
Proof.
  cbv zeta. rewrite bend_curvature, !nth_score.
  repeat split; apply Rltb_true;
    rewrite score_ltb_spec by (lra || lia); vm_compute; reflexivity.
Qed.

(** ** Exponents in the range of a double *)

Lemma double_exponent_ratio n dv :
  dv < 0 -> 307 * dv <= n <= - 307 * dv -> double_exponent (n / dv).
Proof.
  intros Hd Hn. unfold double_exponent. apply Rabs_le.
  assert (E : n = n / dv * dv) by (field; lra).
  set (r := n / dv) in *. clearbody r. rewrite E in Hn.
  split; nra.
Qed.

Lemma hill_point_1000 :
  let cs := parabola 1 (1 / 8) 2 in
  call cs (log10 1000) 0 = 7 / 8 /\
  - (1 / 4) < slopeBisect_of (call cs (log10 1000) 1) < 0.
Proof.
  cbv zeta. rewrite log10_1000. unfold parabola, call. split; [lra|].
  replace (- 2 * (1 / 8) * (3 - 2)) with (- (1 / 4)) by lra.
  apply slopeBisect_negative. lra.
Qed.

(** At 1000 kPa on the hill the bisector is not horizontal nor parallel
    to the virgin line, and the exponent of the intersection is small. *)
Lemma hill_exponent_1000 :
  let cs := parabola 1 (1 / 8) 2 in
  let y1 := call cs (log10 1000) 0 in
  let b := slopeBisect_of (call cs (log10 1000) 1) in
  b <> 0 /\
  - idxCc hill_data - b <> 0 /\
  double_exponent
    ((y1 - b * log10 1000 - idxCcInt hill_data) / (- idxCc hill_data - b)).
Proof.
  cbv zeta. destruct hill_point_1000 as [Hy Hb]. cbv zeta in Hy, Hb.
  rewrite Hy. set (b := slopeBisect_of _) in *. clearbody b.
  rewrite log10_1000.
  change (idxCc hill_data) with 0.3. change (idxCcInt hill_data) with 2.
  split; [lra|]. split; [lra|].
  apply double_exponent_ratio; lra.
Qed.

Lemma Some_eq {B : Type} (a b : B) : Some a = Some b -> a = b.
Proof. intros H. injection H as H. exact H. Qed.

(** * The specification, property by property *)

(** C8.  For a tangent slope [m < 0] the bisector slope
    [b = tan(0.5 * atan m)] lies strictly between [m] and [0]: it is
    negative, and [0 < |b| < |m|]. *)
Theorem C8_bisector_between (m : R) :
  m < 0 ->
  m < slopeBisect_of m < 0 /\
  0 < Rabs (slopeBisect_of m) < Rabs m.
Proof.
  intros Hm. pose proof (slopeBisect_negative m Hm) as [H1 H2].
  split; [split; assumption|].
  rewrite (Rabs_left _ H2), (Rabs_left _ Hm). lra.
Qed.

Lemma C8_bisector_between_witness :
  -1 < 0 /\
  (-1 < slopeBisect_of (-1) < 0 /\
   0 < Rabs (slopeBisect_of (-1)) < Rabs (-1)).
Proof.
  split; [lra|]. apply (C8_bisector_between (-1)). lra.
Defined.

(** C1.  Once the point of maximum curvature [(sMC, y1)] is located at
    a positive stress, in whichever mode, and the bisector slope [b]
    differs from the negated slope of the virgin line, the call returns
    with [sigmaP = 10^q] for the quotient
    [q = (y1 - b*x1 - intercept) / (-slope_vcl - b)] and
    [x1 = log10 sMC], with [eSigmaP = b*(log10 sigmaP - x1) + y1] and
    [ocr = sigmaP / sigmaV].  While [q] is an exponent that a double
    carries, the logarithm of [sigmaP] is [q] itself, and the point
    [(log10 sigmaP, eSigmaP)] lies on the virgin line as well as on the
    bisector. *)
Theorem C1_intersection
    (interp : list R -> list R -> PPoly)
    (lstsq : list R -> list R -> nat -> list R)
    (mcp : option R) (rng : option (R * R)) (loglog : bool)
    (self : Casagrande) (cs : PPoly) (found : list R * list R)
    (sMC y1 : R) :
  locate interp lstsq mcp rng loglog self
  = (Ok (cs, found), with_mcp self sMC y1) ->
  0 < sMC ->
  let x1 := log10 sMC in
  let b := slopeBisect_of (call cs x1 1) in
  let intercept := idxCcInt (data self) in
  let slope_vcl := idxCc (data self) in
  let q := (y1 - b * x1 - intercept) / (- slope_vcl - b) in
  - slope_vcl - b <> 0 ->
  exists fig self' sP eP,
    getSigmaP interp lstsq mcp rng loglog self = (Ok fig, self') /\
    sigmaMC self' = Some sMC /\ eMC self' = Some y1 /\
    sigmaP self' = Some sP /\ eSigmaP self' = Some eP /\
    ocr self' = Some (sP / sigmaV (data self)) /\
    sP = Rpower 10 q /\
    eP = b * (log10 sP - x1) + y1 /\
    (double_exponent q ->
     log10 sP = q /\ eP = intercept - slope_vcl * log10 sP).
Proof.
  intros Hloc Hpos x1 b intercept slope_vcl q Hden.
  exists (fig_at cs (data self) mcp found sMC y1),
    (finished cs (with_mcp self sMC y1) sMC y1),
    (sigmaP_at cs (data self) sMC y1), (eSigmaP_at cs (data self) sMC y1).
  split; [apply getSigmaP_located; exact Hloc|].
  repeat (split; [reflexivity|]).
  intros _.
  assert (Hlog : log10 (sigmaP_at cs (data self) sMC y1) = q).
  { unfold sigmaP_at. rewrite log10_pow10. reflexivity. }
  split; [exact Hlog|].
  unfold eSigmaP_at. fold x1. unfold slopeMP_at. fold x1. fold b.
  rewrite Hlog. unfold q. field. exact Hden.
Qed.

Lemma hill_manual_slope :
  slopeBisect_of (call (parabola 1 (1 / 8) 2) (log10 100) 1) = 0.
Proof.
  rewrite log10_100. unfold parabola, call.
  replace (- 2 * (1 / 8) * (2 - 2)) with 0 by lra.
  apply slopeBisect_zero.
Qed.

Lemma C1_intersection_witness :
  let cs := parabola 1 (1 / 8) 2 in
  let found := (map (Rpower 10) (linspace 0 4 100),
                spline_curvature cs (linspace 0 4 100)) in
  let self := fresh hill_data in
  let y1 := call cs (log10 1000) 0 in
  let b := slopeBisect_of (call cs (log10 1000) 1) in
  let q := (y1 - b * log10 1000 - idxCcInt hill_data)
           / (- idxCc hill_data - b) in
  locate interp_hill lstsq_hill (Some 1000) None true self
  = (Ok (cs, found), with_mcp self 1000 y1) /\
  0 < 1000 /\
  b <> 0 /\
  - idxCc hill_data - b <> 0 /\
  double_exponent q /\
  exists fig self' sP eP,
    getSigmaP interp_hill lstsq_hill (Some 1000) None true self
    = (Ok fig, self') /\
    sigmaMC self' = Some 1000 /\ eMC self' = Some y1 /\
    sigmaP self' = Some sP /\ eSigmaP self' = Some eP /\
    ocr self' = Some (sP / sigmaV hill_data) /\
    sP = Rpower 10 q /\
    eP = b * (log10 sP - log10 1000) + y1 /\
    log10 sP = q /\
    eP = idxCcInt hill_data - idxCc hill_data * log10 sP.
Proof.
  intros cs found self y1 b q.
  assert (Hloc : locate interp_hill lstsq_hill (Some 1000) None true self
                 = (Ok (cs, found), with_mcp self 1000 y1))
    by (apply (hill_locate lstsq_hill (Some 1000) true self); reflexivity).
  assert (Hpos : 0 < 1000) by lra.
  destruct hill_exponent_1000 as (Hb & Hden & Hq).
  split; [exact Hloc|]. split; [exact Hpos|]. split; [exact Hb|].
  split; [exact Hden|]. split; [exact Hq|].
  destruct (C1_intersection interp_hill lstsq_hill (Some 1000) None true self
              cs found 1000 y1 Hloc Hpos Hden)
    as (fig & self' & sP & eP & H1 & H2 & H3 & H4 & H5 & H6 & H7 & H8 & H9).
  destruct (H9 Hq) as [H10 H11].
  exists fig, self', sP, eP. repeat split; assumption.
Defined.

(** C3.  In every mode (spline search, polynomial search, point given
    by the caller) the tangent slope at the located point is the first
    derivative of the interpolating cubic spline at [log10 sMC], and
    the bisector has slope [b = tan(0.5 * atan m)]: the figure draws the
    two lines through the point with these slopes and [sigmaP],
    [eSigmaP] are computed with [b]; [b] is not the mean [(m + 0)/2] of
    the slopes of the tangent and of the horizontal unless [m = 0], and
    no coefficient of the fitted polynomial enters [m]. *)
Theorem C3_bisector_from_spline
    (interp : list R -> list R -> PPoly)
    (lstsq : list R -> list R -> nat -> list R)
    (mcp : option R) (rng : option (R * R)) (loglog : bool)
    (self : Casagrande) (cs : PPoly) (found : list R * list R)
    (sMC y1 : R) :
  locate interp lstsq mcp rng loglog self
  = (Ok (cs, found), with_mcp self sMC y1) ->
  let d := data self in
  let m := call (interp (sigmaLog d) (skipn 1 (col_e (cleaned d))))
             (log10 sMC) 1 in
  let b := tan (0.5 * atan m) in
  exists fig self' sP,
    getSigmaP interp lstsq mcp rng loglog self = (Ok fig, self') /\
    tangent fig = line_through d sMC y1 m /\
    bisector fig = line_through d sMC y1 b /\
    sigmaP self' = Some sP /\
    sP = Rpower 10 ((y1 - b * log10 sMC - idxCcInt d) / (- idxCc d - b)) /\
    eSigmaP self' = Some (b * (log10 sP - log10 sMC) + y1) /\
    (m <> 0 -> b <> (m + 0) / 2).
Proof.
  intros Hloc d m b.
  destruct (locate_ok _ _ _ _ _ _ _ _ _ Hloc) as (_ & -> & _).
  exists (fig_at (the_spline interp d) d mcp found sMC y1),
    (finished (the_spline interp d) (with_mcp self sMC y1) sMC y1),
    (sigmaP_at (the_spline interp d) d sMC y1).
  split; [apply getSigmaP_located; exact Hloc|].
  repeat (split; [reflexivity|]).
  intros Hm. replace ((m + 0) / 2) with (m / 2) by lra.
  apply (slopeBisect_not_mean m Hm).
Qed.

Lemma C3_bisector_from_spline_witness :
  let cs := parabola 1 (1 / 8) 2 in
  let found := (map (Rpower 10) (linspace 0 4 100),
                spline_curvature cs (linspace 0 4 100)) in
  let self := fresh hill_data in
  let y1 := call cs (log10 100) 0 in
  let m := call cs (log10 100) 1 in
  let b := tan (0.5 * atan m) in
  locate interp_hill lstsq_hill (Some 100) None true self
  = (Ok (cs, found), with_mcp self 100 y1) /\
  exists fig self' sP,
    getSigmaP interp_hill lstsq_hill (Some 100) None true self
    = (Ok fig, self') /\
    tangent fig = line_through hill_data 100 y1 m /\
    bisector fig = line_through hill_data 100 y1 b /\
    sigmaP self' = Some sP /\
    sP = Rpower 10 ((y1 - b * log10 100 - idxCcInt hill_data)
                    / (- idxCc hill_data - b)) /\
    eSigmaP self' = Some (b * (log10 sP - log10 100) + y1) /\
    (m <> 0 -> b <> (m + 0) / 2).
Proof.
  intros cs found self y1 m b.
  assert (Hloc : locate interp_hill lstsq_hill (Some 100) None true self
                 = (Ok (cs, found), with_mcp self 100 y1))
    by (apply (hill_locate lstsq_hill (Some 100) true self); reflexivity).
  split; [exact Hloc|].
  exact (C3_bisector_from_spline interp_hill lstsq_hill (Some 100) None true
           self cs found 100 y1 Hloc).
Defined.

(** ** Peaks of real samples, and where the knots begin and end *)

Lemma plateau_peak_real c p :
  Signal.plateau_peak Rltb Reqb 0 c p ->
  exists l r,
    (1 <= l <= p)%nat /\ (p <= r)%nat /\ (r + 1 < length c)%nat /\
    p = ((l + r) / 2)%nat /\
    nth (l - 1) c 0 < nth l c 0 /\
    (forall k, (l <= k <= r)%nat -> nth k c 0 = nth p c 0) /\
    nth (r + 1) c 0 < nth r c 0.
Proof.
  intros (l & r & Hlr & Hr & Hp & Hrise & Hflat & Hfall).
  assert (Hlp : (l <= p)%nat)
    by (subst p; apply Nat.div_le_lower_bound; lia).
  assert (Hpr : (p <= r)%nat)
    by (subst p; apply Nat.Div0.div_le_upper_bound; lia).
  assert (Hall : forall k, (l <= k <= r)%nat -> nth k c 0 = nth l c 0).
  { intros k Hk. destruct (Nat.eq_dec k l) as [->|Hne]; [reflexivity|].
    apply Reqb_true. apply Hflat. lia. }
  exists l, r. repeat split; try lia; try assumption.
  - apply Rltb_true. exact Hrise.
  - intros k Hk. rewrite (Hall k Hk), (Hall p); [reflexivity|lia].
  - rewrite (Hall r) by lia. apply Rltb_true. exact Hfall.
Qed.

(** What [find_peaks(c, distance=500)] reports on at most 500 samples. *)
Lemma find_peaks_real c :
  (length c <= 500)%nat ->
  Signal.find_peaks Rltb Reqb 0 c 500 = []
  \/
  exists i,
    Signal.find_peaks Rltb Reqb 0 c 500 = [i] /\
    (1 <= i)%nat /\ (i + 1 < length c)%nat /\
    (exists l r,
        (1 <= l <= i)%nat /\ (i <= r)%nat /\ (r + 1 < length c)%nat /\
        i = ((l + r) / 2)%nat /\
        nth (l - 1) c 0 < nth l c 0 /\
        (forall k, (l <= k <= r)%nat -> nth k c 0 = nth i c 0) /\
        nth (r + 1) c 0 < nth r c 0) /\
    nth (i - 1) c 0 <= nth i c 0 /\
    nth (i + 1) c 0 <= nth i c 0 /\
    (forall j, (1 <= j)%nat -> (j + 1 < length c)%nat ->
       nth (j - 1) c 0 < nth j c 0 -> nth (j + 1) c 0 < nth j c 0 ->
       nth j c 0 <= nth i c 0).
Proof.
  intros Hlen.
  destruct (find_peaks_far Rltb Reqb 0 Rltb_irrefl Rltb_trans c 500
              ltac:(lia)) as [[_ H]|(p & Hfp & Hin & Htop)];
    [left; exact H|right].
  pose proof (local_maxima_1d_sound _ _ _ _ _ Hin) as Hpk.
  destruct (plateau_peak_real c p Hpk)
    as (l & r & Hl & Hr & Hr' & Hp & Hrise & Hflat & Hfall).
  exists p. split; [exact Hfp|]. split; [lia|]. split; [lia|].
  split; [exists l, r; repeat split; try lia; assumption|].
  split; [|split].
  - destruct (Nat.eq_dec p l) as [E|E].
    + rewrite E. lra.
    + right. apply Hflat. lia.
  - destruct (Nat.eq_dec p r) as [E|E].
    + rewrite E. lra.
    + right. apply Hflat. lia.
  - intros j Hj1 Hj2 Hjr Hjf.
    apply Rltb_false. apply Htop.
    apply (local_maxima_1d_complete Rltb Reqb 0 Reqb_eq Rltb_irrefl Rltb_trans);
      try assumption; apply Rltb_true; assumption.
Qed.

Lemma increasingb_hd_last : forall l,
  increasingb l = true -> (2 <= length l)%nat -> hd 0 l < last l 0.
Proof.
  intros [|a l]; [simpl; lia|]. revert a.
  induction l as [|b l IH]; intros a Hinc Hlen; [simpl in Hlen; lia|].
  cbn [increasingb] in Hinc. apply andb_true_iff in Hinc.
  destruct Hinc as [Hab Hinc]. apply Rltb_true in Hab.
  destruct l as [|c l]; [exact Hab|].
  specialize (IH b Hinc ltac:(simpl; lia)).
  change (last (a :: b :: c :: l) 0) with (last (b :: c :: l) 0).
  simpl hd in *. lra.
Qed.

Lemma last_map_nonempty (f : R -> R) : forall l,
  l <> [] -> last (map f l) 0 = f (last l 0).
Proof.
  induction l as [|a l IH]; intros Hne; [congruence|].
  destruct l as [|b l]; [reflexivity|].
  change (last (map f (a :: b :: l)) 0) with (last (map f (b :: l)) 0).
  change (last (a :: b :: l) 0) with (last (b :: l) 0).
  apply IH. discriminate.
Qed.

Lemma sigmaLog_ends d :
  (2 <= length (sigmaLog d))%nat ->
  hd 0 (sigmaLog d) = log10 (second_stress d) /\
  last (sigmaLog d) 0 = log10 (last_stress d).
Proof.
  unfold sigmaLog, second_stress, last_stress.
  destruct (col_stress (cleaned d)) as [|a [|b t]];
    [simpl; lia|simpl; lia|].
  intros _. cbn [skipn]. split; [reflexivity|].
  rewrite (last_map_nonempty log10 (b :: t)) by discriminate. reflexivity.
Qed.

(** What [find_peaks(c, distance=500)] reports on at most 500 samples:
    nothing, and then no sample is strictly above both its neighbours,
    or one index, whose sample no such sample exceeds. *)
Lemma find_peaks_highest c :
  (length c <= 500)%nat ->
  (Signal.find_peaks Rltb Reqb 0 c 500 = [] /\
   forall j, (1 <= j)%nat -> (j + 1 < length c)%nat ->
     ~ (nth (j - 1) c 0 < nth j c 0 /\ nth (j + 1) c 0 < nth j c 0))
  \/
  exists i,
    Signal.find_peaks Rltb Reqb 0 c 500 = [i] /\
    (1 <= i)%nat /\ (i + 1 < length c)%nat /\
    nth (i - 1) c 0 <= nth i c 0 /\
    nth (i + 1) c 0 <= nth i c 0 /\
    (forall j, (1 <= j)%nat -> (j + 1 < length c)%nat ->
       nth (j - 1) c 0 < nth j c 0 -> nth (j + 1) c 0 < nth j c 0 ->
       nth j c 0 <= nth i c 0).
Proof.
  intros Hlen.
  destruct (find_peaks_real c Hlen)
    as [Hnone|(i & Hfp & Hi1 & Hi2 & _ & Hl & Hr & Htop)]; [left|right].
  - split; [exact Hnone|]. intros j Hj1 Hj2 [Hrise Hfall].
    destruct (find_peaks_far Rltb Reqb 0 Rltb_irrefl Rltb_trans c 500
                ltac:(lia)) as [[Hlm _]|(p & Hp & _)].
    + assert (Hin : In j (Signal.local_maxima_1d Rltb Reqb 0 c)).
      { apply (local_maxima_1d_complete Rltb Reqb 0 Reqb_eq Rltb_irrefl
                 Rltb_trans); try assumption; apply Rltb_true; assumption. }
      rewrite Hlm in Hin. destruct Hin.
    + rewrite Hnone in Hp. discriminate Hp.
  - exists i. repeat split; assumption.
Qed.

(** C2, as the code has it.  In spline mode (no point given, no range
    for the polynomial) the spline is sampled at exactly 100 evenly
    spaced abscissae from the first to the last knot of the
    log10-stress axis and the curvature
    [k(x) = |f''(x)| / (1 + f'(x)^2)^(3/2)] is taken at each.  The
    minimum distance of 500 exceeds the number of samples, so
    [find_peaks] reports no index or exactly one.  When it reports
    none, no sample is strictly above both its neighbours and the call
    raises [IndexError].  The index it reports is interior, its sample
    is at least that of both neighbours, and no sample strictly above
    both its neighbours exceeds it: the point selected is a highest
    local maximum of the curvature samples, wherever along the curve it
    comes, and not the first one, for no index is selected whose sample
    is below some sample strictly above both its neighbours.  Its
    stress is ten to the abscissa of that index and its void ratio the
    spline there. *)
Theorem C2_spline_search
    (interp : list R -> list R -> PPoly)
    (lstsq : list R -> list R -> nat -> list R)
    (loglog : bool) (self : Casagrande) :
  valid_knots (data self) ->
  let d := data self in
  let cs := interp (sigmaLog d) (skipn 1 (col_e (cleaned d))) in
  let first := hd 0 (sigmaLog d) in
  let last := last (sigmaLog d) 0 in
  let xs := linspace first last 100 in
  let k x := Rabs (call cs x 2) / Rpower (1 + call cs x 1 ^ 2) (3 / 2) in
  let curvature := map k xs in
  length xs = 100%nat /\
  nth 0 xs 0 = first /\ nth 99 xs 0 = last /\
  (forall i, (i < 99)%nat ->
     nth (S i) xs 0 - nth i xs 0 = (last - first) / 99) /\
  ((Signal.find_peaks Rltb Reqb 0 curvature 500 = [] /\
    (forall j, (1 <= j <= 98)%nat ->
       ~ (nth (j - 1) curvature 0 < nth j curvature 0 /\
          nth (j + 1) curvature 0 < nth j curvature 0)) /\
    getSigmaP interp lstsq None None loglog self = (Raise IndexError, self))
   \/
   (exists i,
       Signal.find_peaks Rltb Reqb 0 curvature 500 = [i] /\
       (1 <= i <= 98)%nat /\
       nth (i - 1) curvature 0 <= nth i curvature 0 /\
       nth (i + 1) curvature 0 <= nth i curvature 0 /\
       (forall j, (1 <= j <= 98)%nat ->
          nth (j - 1) curvature 0 < nth j curvature 0 ->
          nth (j + 1) curvature 0 < nth j curvature 0 ->
          nth j curvature 0 <= nth i curvature 0) /\
       (forall j j', (1 <= j' <= 98)%nat ->
          nth (j' - 1) curvature 0 < nth j' curvature 0 ->
          nth (j' + 1) curvature 0 < nth j' curvature 0 ->
          nth j curvature 0 < nth j' curvature 0 ->
          i <> j) /\
       exists fig self',
         getSigmaP interp lstsq None None loglog self = (Ok fig, self') /\
         sigmaMC self' = Some (Rpower 10 (nth i xs 0)) /\
         eMC self' = Some (call cs (nth i xs 0) 0) /\
         curvature_plot fig
         = Some (combine (map (Rpower 10) xs) curvature))).
Proof.
  intros Hv d cs first last xs k curvature.
  split; [apply linspace_length|].
  split; [apply linspace_first; lia|].
  split; [apply (linspace_last first last 100); lia|].
  split.
  { intros i Hi. unfold xs. rewrite linspace_step by lia.
    rewrite INR_99. reflexivity. }
  assert (Hlen : length curvature = 100%nat)
    by (unfold curvature; rewrite length_map; apply linspace_length).
  assert (Hsearch : search interp lstsq d None loglog self
                    = search_spline cs xs self) by reflexivity.
  rewrite search_spline_run in Hsearch.
  change (spline_curvature cs xs) with curvature in Hsearch.
  destruct (find_peaks_highest curvature ltac:(lia))
    as [[Hnone Hflat]|(i & Hfp & Hi1 & Hi2 & Hl & Hr & Htop)];
    [left|right].
  - split; [exact Hnone|]. split.
    + intros j Hj. apply Hflat; lia.
    + apply (getSigmaP_not_located _ _ _ _ _ _ _ self).
      rewrite (locate_run _ _ _ _ _ _ Hv). fold d.
      rewrite Hsearch, Hnone. reflexivity.
  - exists i. split; [exact Hfp|]. split; [lia|].
    split; [exact Hl|]. split; [exact Hr|].
    split; [intros j Hj; apply Htop; lia|].
    split.
    { intros j j' Hj' Hrise Hfall Hlow E. subst j.
      pose proof (Htop j' ltac:(lia) ltac:(lia) Hrise Hfall). lra. }
    eexists _, _. split.
    + apply getSigmaP_located.
      rewrite (locate_run _ _ _ _ _ _ Hv). fold d.
      rewrite Hsearch, Hfp. reflexivity.
    + repeat split; reflexivity.
Qed.

Lemma C2_spline_search_witness :
  valid_knots hill_data /\
  exists fig self',
    getSigmaP interp_hill lstsq_hill None None true (fresh hill_data)
    = (Ok fig, self') /\
    sigmaMC self' = Some (Rpower 10 (nth 49 (linspace 0 4 100) 0)) /\
    eMC self'
    = Some (call (parabola 1 (1 / 8) 2) (nth 49 (linspace 0 4 100) 0) 0).
Proof.
  assert (Hv : valid_knots hill_data)
    by (apply decades_valid; reflexivity).
  split; [exact Hv|].
  pose proof (C2_spline_search interp_hill lstsq_hill true (fresh hill_data) Hv)
    as (_ & _ & _ & _ & Hsel).
  cbv zeta in Hsel.
  change (data (fresh hill_data)) with hill_data in Hsel.
  rewrite (decades_sigmaLog hill_data hill_stresses) in Hsel.
  destruct Hsel as [(Hnone & _)|(i & Hfp & _ & _ & _ & _ & _ & Hrun)].
  - exfalso.
    match type of Hnone with
    | ?fp = _ => assert (E : fp = [49%nat]) by exact hill_peaks
    end.
    rewrite E in Hnone. discriminate Hnone.
  - match type of Hfp with
    | ?fp = _ => assert (E : fp = [49%nat]) by exact hill_peaks
    end.
    rewrite E in Hfp. injection Hfp as <-.
    destruct Hrun as (fig & self' & Hrun & HsMC & HeMC & _).
    exists fig, self'. repeat split; assumption.
Defined.

(** The search on the curve with two bends. *)
Lemma bend_locate lstsq loglog self :
  data self = bend_data ->
  locate interp_bend lstsq None None loglog self
  = (Ok (bend, (map (Rpower 10) (linspace 0 5 100),
                spline_curvature bend (linspace 0 5 100))),
     with_mcp self (Rpower 10 (nth 67 (linspace 0 5 100) 0))
       (call bend (nth 67 (linspace 0 5 100) 0) 0)).
Proof.
  intros Hd.
  assert (Hv : valid_knots (data self)) by (rewrite Hd; exact bend_valid).
  rewrite (locate_run _ _ _ _ _ _ Hv). rewrite Hd.
  unfold search. change (the_spline interp_bend bend_data) with bend.
  rewrite bend_sigmaCS, search_spline_run, bend_peaks. reflexivity.
Qed.

(** C2 as stated fails on the curve with two bends.  Its curvature
    samples have two local maxima, at the indices 39 and 67; the first
    along the curve is 39, and the call selects 67, where the sample is
    larger: the largest of all 100 samples, the one [np.argmax] gives. *)
Lemma C2_counterexample :
  let c := spline_curvature (the_spline interp_bend bend_data)
             (sigmaCS bend_data) in
  Signal.local_maxima_1d Rltb Reqb 0 c = [39%nat; 67%nat] /\
  (nth 38 c 0 < nth 39 c 0 /\ nth 40 c 0 < nth 39 c 0) /\
  nth 39 c 0 < nth 67 c 0 /\
  Signal.find_peaks Rltb Reqb 0 c 500 = [67%nat] /\
  Signal.argmax Rltb c = Ok 67%nat /\
  exists fig self',
    getSigmaP interp_bend lstsq_hill None None true (fresh bend_data)
    = (Ok fig, self') /\
    sigmaMC self' = Some (Rpower 10 (nth 67 (sigmaCS bend_data) 0)) /\
    sigmaMC self' <> Some (Rpower 10 (nth 39 (sigmaCS bend_data) 0)).
Proof.
  cbv zeta. change (the_spline interp_bend bend_data) with bend.
  rewrite bend_sigmaCS.
  destruct bend_first_peak as (H38 & H40 & H67). cbv zeta in H38, H40, H67.
  split; [exact bend_local_maxima|].
  split; [split; assumption|]. split; [exact H67|].
  split; [exact bend_peaks|]. split; [exact bend_argmax|].
  eexists _, _. split.
  - apply getSigmaP_located.
    apply (bend_locate lstsq_hill true (fresh bend_data)). reflexivity.
  - split; [reflexivity|].
    cbn [sigmaMC finished with_result with_mcp].
    intros E. apply Some_eq in E.
    assert (Hlt : nth 39 (linspace 0 5 100) 0 < nth 67 (linspace 0 5 100) 0).
    { rewrite !linspace_nth by lia. rewrite INR_99.
      assert (INR 39 < INR 67) by (apply lt_INR; lia). lra. }
    apply pow10_lt in Hlt. lra.
Qed.

(** C10, as the code has it.  In spline mode on positive stresses the
    peak detector reports at most one index, since no two of the 100
    samples are 500 apart.  When it reports none the call raises
    [IndexError].  Otherwise the index [i] is interior
    ([1 <= i <= 98]); it is the middle, rounded down, of a run of equal
    samples with a strictly lower sample on each side, so its sample is
    at least that of both neighbours; every sample strictly above both
    its neighbours is at most the sample at [i]; and the stress
    selected lies strictly between the second and the last stress of
    the cleaned curve. *)
Theorem C10_single_interior_peak
    (interp : list R -> list R -> PPoly)
    (lstsq : list R -> list R -> nat -> list R)
    (loglog : bool) (self : Casagrande) :
  valid_knots (data self) ->
  0 < second_stress (data self) -> 0 < last_stress (data self) ->
  let d := data self in
  let c := spline_curvature (the_spline interp d) (sigmaCS d) in
  (Signal.find_peaks Rltb Reqb 0 c 500 = [] /\
   getSigmaP interp lstsq None None loglog self = (Raise IndexError, self))
  \/
  (exists i,
      Signal.find_peaks Rltb Reqb 0 c 500 = [i] /\
      (1 <= i <= 98)%nat /\
      (exists l r,
          (1 <= l <= i)%nat /\ (i <= r <= 98)%nat /\
          i = ((l + r) / 2)%nat /\
          nth (l - 1) c 0 < nth l c 0 /\
          (forall k, (l <= k <= r)%nat -> nth k c 0 = nth i c 0) /\
          nth (r + 1) c 0 < nth r c 0) /\
      nth (i - 1) c 0 <= nth i c 0 /\
      nth (i + 1) c 0 <= nth i c 0 /\
      (forall j, (1 <= j <= 98)%nat ->
         nth (j - 1) c 0 < nth j c 0 -> nth (j + 1) c 0 < nth j c 0 ->
         nth j c 0 <= nth i c 0) /\
      exists fig self' s,
        getSigmaP interp lstsq None None loglog self = (Ok fig, self') /\
        sigmaMC self' = Some s /\
        s = Rpower 10 (nth i (sigmaCS d) 0) /\
        second_stress d < s < last_stress d).
Proof.
  intros Hv Hpos2 HposN d c.
  assert (Hlen : length c = 100%nat).
  { unfold c, spline_curvature, sigmaCS, sigmaCS_of.
    rewrite length_map. apply linspace_length. }
  assert (Hsearch : search interp lstsq d None loglog self
                    = search_spline (the_spline interp d) (sigmaCS d) self)
    by reflexivity.
  rewrite search_spline_run in Hsearch. fold c in Hsearch.
  destruct (find_peaks_real c ltac:(lia))
    as [Hnone|(i & Hfp & Hi1 & Hi2 & Hrun & Hleft & Hright & Htop)].
  - left. split; [exact Hnone|].
    apply (getSigmaP_not_located _ _ _ _ _ _ _ self).
    rewrite (locate_run _ _ _ _ _ _ Hv). fold d.
    rewrite Hsearch, Hnone. reflexivity.
  - right. exists i. rewrite Hlen in *.
    split; [exact Hfp|]. split; [lia|].
    split.
    { destruct Hrun as (l & r & H1 & H2 & H3 & H4 & H5 & H6 & H7).
      exists l, r. repeat split; try lia; assumption. }
    split; [exact Hleft|]. split; [exact Hright|].
    split; [intros j Hj; apply Htop; lia|].
    eexists _, _, _. split.
    + apply getSigmaP_located.
      rewrite (locate_run _ _ _ _ _ _ Hv). fold d.
      rewrite Hsearch, Hfp. reflexivity.
    + split; [reflexivity|]. split; [reflexivity|].
      destruct Hv as [H2 Hinc].
      destruct (sigmaLog_ends d H2) as [Hhd Hlast].
      pose proof (increasingb_hd_last _ Hinc H2) as Hlt.
      pose proof (linspace_inside (hd 0 (sigmaLog d)) (last (sigmaLog d) 0)
                    100 i Hlt ltac:(lia) ltac:(lia)) as [Hlo Hhi].
      fold (sigmaCS_of (hd 0 (sigmaLog d)) (last (sigmaLog d) 0)) in Hlo, Hhi.
      fold (sigmaCS d) in Hlo, Hhi.
      rewrite <- (pow10_log10 (second_stress d) Hpos2) at 1.
      rewrite <- (pow10_log10 (last_stress d) HposN) at 1.
      rewrite <- Hhd, <- Hlast.
      split; apply pow10_lt; assumption.
Qed.

Lemma C10_single_interior_peak_witness :
  valid_knots hill_data /\
  0 < second_stress hill_data /\ 0 < last_stress hill_data /\
  exists fig self' s,
    getSigmaP interp_hill lstsq_hill None None true (fresh hill_data)
    = (Ok fig, self') /\
    sigmaMC self' = Some s /\
    s = Rpower 10 (nth 49 (sigmaCS hill_data) 0) /\
    second_stress hill_data < s < last_stress hill_data.
Proof.
  assert (Hv : valid_knots hill_data)
    by (apply decades_valid; reflexivity).
  assert (H2 : 0 < second_stress hill_data)
    by (rewrite (decades_second hill_data hill_stresses); lra).
  assert (HN : 0 < last_stress hill_data)
    by (rewrite (decades_last hill_data hill_stresses); lra).
  split; [exact Hv|]. split; [exact H2|]. split; [exact HN|].
  destruct (C10_single_interior_peak interp_hill lstsq_hill true
              (fresh hill_data) Hv H2 HN)
    as [[Hnone _]|(i & Hfp & _ & _ & _ & _ & _ & Hrun)].
  - exfalso.
    change (data (fresh hill_data)) with hill_data in Hnone.
    change (the_spline interp_hill hill_data)
      with (parabola 1 (1 / 8) 2) in Hnone.
    rewrite (decades_sigmaCS hill_data hill_stresses), hill_peaks in Hnone.
    discriminate Hnone.
  - change (data (fresh hill_data)) with hill_data in Hfp, Hrun.
    change (the_spline interp_hill hill_data)
      with (parabola 1 (1 / 8) 2) in Hfp.
    rewrite (decades_sigmaCS hill_data hill_stresses), hill_peaks in Hfp.
    injection Hfp as <-. exact Hrun.
Defined.

(** C10 as stated fails on the hill: the index reported, 49, carries
    the same curvature as index 50, so it is not strictly above both its
    neighbours; the call selects it all the same. *)
Lemma C10_counterexample :
  let c := spline_curvature (the_spline interp_hill hill_data)
             (sigmaCS hill_data) in
  Signal.find_peaks Rltb Reqb 0 c 500 = [49%nat] /\
  ~ (nth 48 c 0 < nth 49 c 0 /\ nth 50 c 0 < nth 49 c 0) /\
  exists fig self',
    getSigmaP interp_hill lstsq_hill None None true (fresh hill_data)
    = (Ok fig, self') /\
    sigmaMC self' = Some (Rpower 10 (nth 49 (sigmaCS hill_data) 0)).
Proof.
  cbv zeta.
  change (the_spline interp_hill hill_data) with (parabola 1 (1 / 8) 2).
  rewrite (decades_sigmaCS hill_data hill_stresses).
  split; [exact hill_peaks|]. split.
  - intros [_ H]. pose proof hill_plateau as E. cbv zeta in E. lra.
  - eexists _, _. split.
    + apply getSigmaP_located.
      apply (hill_locate lstsq_hill None true (fresh hill_data)).
      reflexivity.
    + reflexivity.
Qed.

(** C9.  A call never assigns [self.data]: the frames, the compression
    index with its intercept and the in-situ stress are after the call
    what they were before.  A call that returns has assigned the five
    attributes [sigmaMC], [eMC], [sigmaP], [eSigmaP] and [ocr]; a call
    that raises has assigned nothing.  What is returned and assigned
    depends on the data and the arguments only, not on what the
    attributes held before. *)
Theorem C9_frame
    (interp : list R -> list R -> PPoly)
    (lstsq : list R -> list R -> nat -> list R)
    (mcp : option R) (rng : option (R * R)) (loglog : bool)
    (self : Casagrande) :
  let run := getSigmaP interp lstsq mcp rng loglog in
  data (snd (run self)) = data self /\
  ((exists e, run self = (Raise e, self))
   \/
   (exists fig sMC y1 sP eP o,
       run self
       = (Ok fig, mkCasagrande (data self) (Some sMC) (Some y1) (Some sP)
                    (Some eP) (Some o)))) /\
  (forall other, data other = data self ->
     fst (run other) = fst (run self) /\
     (forall fig s, run self = (Ok fig, s) -> run other = (Ok fig, s))).
Proof.
  intros run. split; [apply keeps_data_getSigmaP|].
  destruct (getSigmaP_shape interp lstsq (data self) mcp rng loglog)
    as [(e & _ & H)|(fig & sMC & y1 & sP & eP & o & H)].
  - split; [left; exists e; apply H; reflexivity|].
    intros other Ho. unfold run.
    rewrite (H other Ho), (H self eq_refl).
    split; [reflexivity|]. intros fig s Hs. discriminate Hs.
  - split; [right; exists fig, sMC, y1, sP, eP, o; apply H; reflexivity|].
    intros other Ho. unfold run.
    rewrite (H other Ho), (H self eq_refl).
    split; [reflexivity|]. intros fig' s Hs. exact Hs.
Qed.



(** C5, as the code has it.  There is no tolerance on
    [-slope_vcl - b]: the method never raises
    [DegenerateGeometryError], and once the point of maximum curvature
    is located the call returns, whatever the divisor.  For a point at
    a positive stress, a divisor other than zero, however small, and a
    quotient [q] that a double carries as an exponent, [sigmaP] is
    [10^q]. *)
Theorem C5_no_tolerance_guard
    (interp : list R -> list R -> PPoly)
    (lstsq : list R -> list R -> nat -> list R)
    (mcp : option R) (rng : option (R * R)) (loglog : bool)
    (self : Casagrande) :
  let d := data self in
  let run := getSigmaP interp lstsq mcp rng loglog in
  (forall s, run self <> (Raise DegenerateGeometryError, s)) /\
  (forall cs found sMC y1,
     locate interp lstsq mcp rng loglog self
     = (Ok (cs, found), with_mcp self sMC y1) ->
     let b := slopeBisect_of (call cs (log10 sMC) 1) in
     let q := (y1 - b * log10 sMC - idxCcInt d) / (- idxCc d - b) in
     exists fig self' sP,
       run self = (Ok fig, self') /\
       sigmaP self' = Some sP /\
       (0 < sMC -> - idxCc d - b <> 0 -> double_exponent q ->
        sP = Rpower 10 q /\
        log10 sP * (- idxCc d - b) = y1 - b * log10 sMC - idxCcInt d)).
Proof.
  intros d run. split.
  - intros s Hs.
    destruct (getSigmaP_shape interp lstsq d mcp rng loglog)
      as [(e & He & H)|(fig & sMC & y1 & sP & eP & o & H)];
      unfold run in Hs; rewrite (H self eq_refl) in Hs.
    + apply (f_equal fst) in Hs. cbn [fst] in Hs. injection Hs as ->.
      destruct He as [He|[He|He]]; discriminate He.
    + discriminate Hs.
  - intros cs found sMC y1 Hloc b q.
    eexists _, _, _. split; [apply getSigmaP_located; exact Hloc|].
    split; [reflexivity|].
    intros _ Hden _. split; [reflexivity|].
    unfold sigmaP_at, slopeMP_at. rewrite log10_pow10.
    change (data (with_mcp self sMC y1)) with d. fold b.
    field. exact Hden.
Qed.

(** C5 as stated fails on the hill with a virgin line of slope 1e-10
    through the top of the hill and the point supplied at 100 kPa,
    where the tangent is horizontal: the divisor is 1e-10 in magnitude,
    below the tolerance, and the call returns, with [sigmaP] at 1 kPa. *)
Lemma C5_counterexample :
  let cs := the_spline interp_hill hill_level_data in
  let y1 := call cs (log10 100) 0 in
  let b := slopeBisect_of (call cs (log10 100) 1) in
  let q := (y1 - b * log10 100 - idxCcInt hill_level_data)
           / (- idxCc hill_level_data - b) in
  Rabs (- idxCc hill_level_data - b) < 1e-9 /\
  - idxCc hill_level_data - b <> 0 /\
  double_exponent q /\
  exists fig self',
    getSigmaP interp_hill lstsq_hill (Some 100) None true
      (fresh hill_level_data) = (Ok fig, self') /\
    sigmaMC self' = Some 100 /\
    sigmaP self' = Some 1 /\
    eSigmaP self' = Some 1 /\
    ocr self' = Some (1 / 75).
Proof.
  cbv zeta.
  change (the_spline interp_hill hill_level_data) with (parabola 1 (1 / 8) 2).
  rewrite hill_manual_slope.
  assert (Hy : call (parabola 1 (1 / 8) 2) (log10 100) 0 = 1)
    by (rewrite log10_100; unfold parabola, call; lra).
  rewrite Hy.
  change (idxCc hill_level_data) with 1e-10.
  change (idxCcInt hill_level_data) with 1.
  assert (Hq : forall dv, (1 - 0 * log10 100 - 1) / dv = 0)
    by (intros dv; unfold Rdiv; ring).
  split; [rewrite Rabs_left; lra|]. split; [lra|].
  split; [rewrite Hq; unfold double_exponent; rewrite Rabs_R0; lra|].
  assert (HsP : sigmaP_at (parabola 1 (1 / 8) 2) hill_level_data 100 1 = 1).
  { unfold sigmaP_at, slopeMP_at. rewrite hill_manual_slope.
    change (idxCc hill_level_data) with 1e-10.
    change (idxCcInt hill_level_data) with 1.
    rewrite Hq. apply Rpower_O. lra. }
  assert (HeP : eSigmaP_at (parabola 1 (1 / 8) 2) hill_level_data 100 1 = 1).
  { unfold eSigmaP_at, slopeMP_at. rewrite hill_manual_slope. ring. }
  eexists _, _. split.
  - apply getSigmaP_located.
    apply (hill_locate lstsq_hill (Some 100) true (fresh hill_level_data)).
    reflexivity.
  - cbn [sigmaMC sigmaP eSigmaP ocr finished with_result with_mcp data fresh].
    rewrite Hy, HsP, HeP. repeat split; reflexivity.
Qed.

(** A located run with a point given by the caller ends with that
    point, whichever search ran before. *)
Lemma locate_manual interp lstsq p rng loglog self r s :
  locate interp lstsq (Some p) rng loglog self = (Ok r, s) ->
  exists found,
    r = (the_spline interp (data self), found) /\
    s = with_mcp self p (call (the_spline interp (data self)) (log10 p) 0).
Proof.
  intros H. pose proof (locate_ok_valid _ _ _ _ _ _ _ _ H) as Hv.
  rewrite (locate_run _ _ _ _ _ _ Hv) in H.
  destruct (search interp lstsq (data self) rng loglog self)
    as [[found|e] s1] eqn:Hs; [|discriminate H].
  apply search_ok_state in Hs. destruct Hs as (a & b & ->).
  exists found. split.
  - apply (f_equal fst) in H. cbn [fst] in H. injection H as <-. reflexivity.
  - apply (f_equal snd) in H. cbn [snd] in H. rewrite <- H. reflexivity.
Qed.

(** C4, as the code has it.  When the caller supplies the pressure [p]
    of the point of maximum curvature and the call returns, [sigmaMC]
    is [p], [eMC] is the cubic spline at [log10 p], and [eSigmaP] is the
    ordinate of the bisector at [sigmaP],
    [b * (log10 sigmaP - log10 p) + eMC]; the curvature is not drawn;
    and the figure and the attributes are the same for every range and
    every [loglog] with which the call returns. *)
Theorem C4_manual_override
    (interp : list R -> list R -> PPoly)
    (lstsq : list R -> list R -> nat -> list R)
    (p : R) (rng : option (R * R)) (loglog : bool)
    (self : Casagrande) (r : PPoly * (list R * list R)) (s : Casagrande) :
  locate interp lstsq (Some p) rng loglog self = (Ok r, s) ->
  let d := data self in
  let spline := interp (sigmaLog d) (skipn 1 (col_e (cleaned d))) in
  let b := slopeBisect_of (call spline (log10 p) 1) in
  exists fig self' sP,
    getSigmaP interp lstsq (Some p) rng loglog self = (Ok fig, self') /\
    sigmaMC self' = Some p /\
    eMC self' = Some (call spline (log10 p) 0) /\
    sigmaP self' = Some sP /\
    eSigmaP self'
    = Some (b * (log10 sP - log10 p) + call spline (log10 p) 0) /\
    curvature_plot fig = None /\
    (forall rng' loglog' r' s',
       locate interp lstsq (Some p) rng' loglog' self = (Ok r', s') ->
       getSigmaP interp lstsq (Some p) rng' loglog' self = (Ok fig, self')).
Proof.
  intros Hloc d spline b.
  destruct (locate_manual _ _ _ _ _ _ _ _ Hloc) as (found & -> & ->).
  exists (fig_at spline d (Some p) found p (call spline (log10 p) 0)),
    (finished spline (with_mcp self p (call spline (log10 p) 0)) p
       (call spline (log10 p) 0)),
    (sigmaP_at spline d p (call spline (log10 p) 0)).
  split; [apply getSigmaP_located; exact Hloc|].
  repeat (split; [reflexivity|]).
  intros rng' loglog' r' s' Hloc'.
  destruct (locate_manual _ _ _ _ _ _ _ _ Hloc') as (found' & -> & ->).
  rewrite (getSigmaP_located _ _ _ _ _ _ _ _ _ _ Hloc'). reflexivity.
Qed.

Lemma C4_manual_override_witness :
  let self := fresh hill_data in
  let spline := parabola 1 (1 / 8) 2 in
  let b := slopeBisect_of (call spline (log10 1000) 1) in
  (exists r s,
      locate interp_hill lstsq_hill (Some 1000) None true self = (Ok r, s)) /\
  exists fig self' sP,
    getSigmaP interp_hill lstsq_hill (Some 1000) None true self
    = (Ok fig, self') /\
    sigmaMC self' = Some 1000 /\
    eMC self' = Some (call spline (log10 1000) 0) /\
    sigmaP self' = Some sP /\
    eSigmaP self'
    = Some (b * (log10 sP - log10 1000) + call spline (log10 1000) 0) /\
    curvature_plot fig = None.
Proof.
  intros self spline b.
  pose proof (hill_locate lstsq_hill (Some 1000) true self eq_refl) as Hloc.
  cbv zeta in Hloc.
  split; [eexists _, _; exact Hloc|].
  destruct (C4_manual_override interp_hill lstsq_hill 1000 None true self
              _ _ Hloc)
    as (fig & self' & sP & H1 & H2 & H3 & H4 & H5 & H6 & _).
  exists fig, self', sP. repeat split; assumption.
Defined.

(** C4 as stated fails on the hill with the point supplied at 1000 kPa:
    the call returns and [eSigmaP] is not the spline at [log10 1000],
    which is [eMC]; the bisector has fallen below it where it meets the
    virgin line. *)
Lemma C4_counterexample :
  exists fig self' eP,
    getSigmaP interp_hill lstsq_hill (Some 1000) None true (fresh hill_data)
    = (Ok fig, self') /\
    eMC self'
    = Some (call (the_spline interp_hill hill_data) (log10 1000) 0) /\
    eSigmaP self' = Some eP /\
    eP <> call (the_spline interp_hill hill_data) (log10 1000) 0.
Proof.
  pose proof (hill_locate lstsq_hill (Some 1000) true (fresh hill_data) eq_refl)
    as Hloc.
  cbv zeta in Hloc.
  eexists _, _, _. split; [apply getSigmaP_located; exact Hloc|].
  split; [reflexivity|]. split; [reflexivity|].
  change (the_spline interp_hill hill_data) with (parabola 1 (1 / 8) 2).
  unfold eSigmaP_at, sigmaP_at, slopeMP_at.
  rewrite log10_pow10, log10_1000.
  cbn [data with_mcp fresh idxCcInt idxCc hill_data].
  unfold parabola, call.
  replace (- 2 * (1 / 8) * (3 - 2)) with (- (1 / 4)) by lra.
  replace (1 - 1 / 8 * (3 - 2) ^ 2) with (7 / 8) by lra.
  pose proof (slopeBisect_negative (- (1 / 4)) ltac:(lra)) as [Hlo Hhi].
  set (b := slopeBisect_of (- (1 / 4))) in *.
  replace 0.3 with (3 / 10) by lra.
  intros Heq.
  assert (Hq : (7 / 8 - b * 3 - 2) / (- (3 / 10) - b) - 3
               = (9 / 40) / (3 / 10 + b)) by (field; lra).
  assert (Hpos : 0 < (9 / 40) / (3 / 10 + b))
    by (apply Rdiv_lt_0_compat; lra).
  assert (Hz : b * ((7 / 8 - b * 3 - 2) / (- (3 / 10) - b) - 3) = 0) by lra.
  rewrite Hq in Hz. nra.
Qed.

(** ** The polynomial search *)

Lemma transform_inverse (loglog : bool) (x : R) :
  (if loglog then 1 < x else 0 < x) ->
  transform loglog (transform loglog x false) true = x.
Proof.
  unfold transform. destruct loglog; intros Hx.
  - assert (H0 : 0 < log10 x).
    { rewrite <- log10_1. apply log10_lt; lra. }
    rewrite (pow10_log10 _ H0). apply pow10_log10. lra.
  - apply pow10_log10. exact Hx.
Qed.

Lemma polyval_quartic x p0 p1 p2 p3 p4 :
  polyval x [p0; p1; p2; p3; p4]
  = p0 + p1 * x + p2 * x ^ 2 + p3 * x ^ 3 + p4 * x ^ 4.
Proof. simpl. ring. Qed.


Lemma hill_lookup_low : findStressIdx hill_data 1 true = Some 1%Z.
Proof.
  cbn [findStressIdx hill_data]. unfold lookup.
  rewrite hill_stresses. cbn [first_at_least].
  destruct (Rle_dec 1 0.5) as [H|_]; [lra|].
  destruct (Rle_dec 1 1) as [_|H]; [reflexivity|lra].
Qed.

Lemma hill_lookup_high : findStressIdx hill_data 20000 true = None.
Proof.
  cbn [findStressIdx hill_data]. unfold lookup.
  rewrite hill_stresses. cbn [first_at_least].
  repeat (destruct (Rle_dec _ _) as [H|_]; [lra|]). reflexivity.
Qed.

Lemma hill_sigmaFOP :
  sigmaFOP_of hill_data 1 20000 = [1; 10; 100; 1000; 10000].
Proof.
  unfold sigmaFOP_of. rewrite hill_lookup_low, hill_lookup_high.
  reflexivity.
Qed.


(** * Further properties of the method *)

(** ** The transform of the stress axis *)

Lemma transform_forward_of_reverse (loglog : bool) (y : R) :
  transform loglog (transform loglog y true) false = y.
Proof.
  unfold transform. destruct loglog; rewrite !log10_pow10; reflexivity.
Qed.

Lemma transform_increasing (loglog : bool) (x x' : R) :
  (if loglog then 1 < x else 0 < x) -> x < x' ->
  transform loglog x false < transform loglog x' false.
Proof.
  unfold transform. destruct loglog; intros Hx Hlt.
  - apply log10_lt.
    + rewrite <- log10_1. apply log10_lt; lra.
    + apply log10_lt; lra.
  - apply log10_lt; assumption.
Qed.

(** X1.  The local function [transform] and its reverse undo each
    other: on every stress where the logarithms are defined (above 1
    with [loglog], above 0 without) the reverse of the transform gives
    the stress back, the transform of the reverse gives every abscissa
    back, and the transform keeps the order of stresses. *)
Theorem transform_round_trip (loglog : bool) (x : R) :
  (if loglog then 1 < x else 0 < x) ->
  transform loglog (transform loglog x false) true = x /\
  (forall y, transform loglog (transform loglog y true) false = y) /\
  (forall x', x < x' ->
     transform loglog x false < transform loglog x' false).
Proof.
  intros Hx. split; [apply transform_inverse; exact Hx|].
  split; [apply transform_forward_of_reverse|].
  intros x' Hlt. apply transform_increasing; assumption.
Qed.

Lemma transform_round_trip_witness :
  1 < 100 /\
  (transform true (transform true 100 false) true = 100 /\
   (forall y, transform true (transform true y true) false = y) /\
   (forall x', 100 < x' ->
      transform true 100 false < transform true x' false)).
Proof.
  split; [lra|]. apply (transform_round_trip true 100). lra.
Defined.

(** ** The rows of the polynomial fit *)

Lemma combine_columns (df : DataFrame) :
  combine (col_stress df) (col_e df) = df.
Proof.
  unfold col_stress, col_e. induction df as [|[s e] df IH]; simpl;
    [reflexivity|]. rewrite IH. reflexivity.
Qed.

Lemma py_slice_map {B C : Type} (f : B -> C) (l : list B) lo hi :
  py_slice (map f l) lo hi = map f (py_slice l lo hi).
Proof.
  unfold py_slice. rewrite length_map, skipn_map, firstn_map. reflexivity.
Qed.

Lemma py_slice_segment {B : Type} (l : list B) lo hi :
  exists pre post, l = pre ++ py_slice l lo hi ++ post.
Proof.
  unfold py_slice.
  set (a := slice_bound (length l) lo 0).
  set (b := slice_bound (length l) hi (length l)).
  exists (firstn a l), (skipn (b - a) (skipn a l)).
  rewrite firstn_skipn, firstn_skipn. reflexivity.
Qed.

(** X5.  The stresses and the void ratios handed to the polynomial fit
    are the two columns of the same rows of the cleaned frame, in their
    order and without gaps: a contiguous segment of the frame. *)
Theorem fitted_points_are_rows (d : Data) (r0 r1 : R) :
  let rows := py_slice (cleaned d) (findStressIdx d r0 true)
                (findStressIdx d r1 true) in
  combine (sigmaFOP_of d r0 r1) (eFOP_of d r0 r1) = rows /\
  length (sigmaFOP_of d r0 r1) = length rows /\
  length (eFOP_of d r0 r1) = length rows /\
  (exists pre post, cleaned d = pre ++ rows ++ post) /\
  (forall pt, In pt (combine (sigmaFOP_of d r0 r1) (eFOP_of d r0 r1)) ->
              In pt (cleaned d)).
Proof.
  intros rows.
  assert (Hs : sigmaFOP_of d r0 r1 = col_stress rows)
    by (unfold sigmaFOP_of, col_stress; apply py_slice_map).
  assert (He : eFOP_of d r0 r1 = col_e rows)
    by (unfold eFOP_of, col_e; apply py_slice_map).
  assert (Hc : combine (sigmaFOP_of d r0 r1) (eFOP_of d r0 r1) = rows)
    by (rewrite Hs, He; apply combine_columns).
  split; [exact Hc|].
  split; [rewrite Hs; apply length_map|].
  split; [rewrite He; apply length_map|].
  pose proof (py_slice_segment (cleaned d) (findStressIdx d r0 true)
                (findStressIdx d r1 true)) as (pre & post & Hseg).
  split; [exists pre, post; exact Hseg|].
  intros pt Hin. rewrite Hc in Hin. rewrite Hseg.
  apply in_or_app. right. apply in_or_app. left. exact Hin.
Qed.

(** ** The legend *)

(** X4.  The legend never uses a layer that was not drawn.  It starts
    with the compressibility curve and the virgin line and ends with
    the in-situ stress, the point of maximum curvature and the
    preconsolidation point; the data of the linear fit come third
    exactly when [fitCc] holds; the curvature is listed exactly when no
    point was supplied, and the polynomial with its data exactly when,
    besides, a range was given; no layer is listed twice. *)
Theorem legend_layers_spec (mcp : option R) (rng : option (R * R))
    (fitCc : bool) :
  exists l,
    legend_layers mcp rng fitCc = Some l /\
    firstn 2 l = [CompressibilityCurve; CcLine] /\
    skipn (length l - 3) l
    = [InSituStress; MaxCurvaturePoint; PreconsolidationPoint] /\
    has_layer CcFitData l = fitCc /\
    (fitCc = true -> nth 2 l CompressibilityCurve = CcFitData) /\
    has_layer CurvatureCurve l
    = (match mcp with None => true | Some _ => false end) /\
    has_layer FOPCurve l
    = (match mcp, rng with None, Some _ => true | _, _ => false end) /\
    has_layer FOPData l = has_layer FOPCurve l /\
    NoDup l /\
    (5 <= length l <= 9)%nat.
Proof.
  destruct mcp as [p|], rng as [r|], fitCc;
    (eexists; split; [reflexivity|]);
    cbn [py_insert firstn skipn app length Nat.sub];
    repeat split; try reflexivity; try discriminate; try lia;
    repeat constructor; simpl; intuition discriminate.
Qed.

(** ** Calls that raise *)

Lemma py_slice_reversed {B : Type} (l : list B) (a b : Z) :
  (0 <= b <= a)%Z -> py_slice l (Some a) (Some b) = [].
Proof.
  intros H. unfold py_slice, slice_bound.
  destruct (Z.ltb_spec a 0); [lia|]. destruct (Z.ltb_spec b 0); [lia|].
  replace (Nat.min (Z.to_nat b) (length l) - Nat.min (Z.to_nat a) (length l))%nat
    with 0%nat by lia.
  reflexivity.
Qed.

Lemma search_FOP_empty lstsq d r0 r1 loglog self :
  sigmaFOP_of d r0 r1 = [] ->
  search_FOP lstsq d r0 r1 loglog self = (Raise TypeError, self).
Proof.
  intros He. unfold search_FOP, bind, lift. rewrite He. reflexivity.
Qed.

(** X6.  A range for the polynomial whose end index does not come after
    its start index (the two pressures given in decreasing order, say)
    selects no row: the call raises [TypeError], numpy's refusal to fit
    an empty vector, and assigns nothing, also when the caller supplied
    the point of maximum curvature. *)
Theorem empty_range_raises
    (interp : list R -> list R -> PPoly)
    (lstsq : list R -> list R -> nat -> list R)
    (mcp : option R) (r0 r1 : R) (loglog : bool) (self : Casagrande)
    (a b : Z) :
  valid_knots (data self) ->
  findStressIdx (data self) r0 true = Some a ->
  findStressIdx (data self) r1 true = Some b ->
  (0 <= b <= a)%Z ->
  sigmaFOP_of (data self) r0 r1 = [] /\
  getSigmaP interp lstsq mcp (Some (r0, r1)) loglog self
  = (Raise TypeError, self).
Proof.
  intros Hv Ha Hb Hab.
  assert (He : sigmaFOP_of (data self) r0 r1 = []).
  { unfold sigmaFOP_of. rewrite Ha, Hb. apply py_slice_reversed. exact Hab. }
  split; [exact He|].
  apply (getSigmaP_not_located _ _ _ _ _ _ _ self).
  rewrite (locate_run _ _ _ _ _ _ Hv). unfold search.
  rewrite (search_FOP_empty _ _ _ _ _ _ He). reflexivity.
Qed.

Lemma hill_lookup_ten : findStressIdx hill_data 10 true = Some 2%Z.
Proof.
  cbn [findStressIdx hill_data]. unfold lookup.
  rewrite hill_stresses. cbn [first_at_least].
  destruct (Rle_dec 10 0.5) as [H|_]; [lra|].
  destruct (Rle_dec 10 1) as [H|_]; [lra|].
  destruct (Rle_dec 10 10) as [_|H]; [reflexivity|lra].
Qed.

Lemma empty_range_raises_witness :
  valid_knots hill_data /\
  findStressIdx hill_data 10 true = Some 2%Z /\
  findStressIdx hill_data 1 true = Some 1%Z /\
  (0 <= 1 <= 2)%Z /\
  sigmaFOP_of hill_data 10 1 = [] /\
  getSigmaP interp_hill lstsq_hill (Some 200) (Some (10, 1)) true
    (fresh hill_data)
  = (Raise TypeError, fresh hill_data).
Proof.
  assert (Hv : valid_knots hill_data) by (apply decades_valid; reflexivity).
  split; [exact Hv|]. split; [exact hill_lookup_ten|].
  split; [exact hill_lookup_low|]. split; [lia|].
  apply (empty_range_raises interp_hill lstsq_hill (Some 200) 10 1 true
           (fresh hill_data) 2 1 Hv hill_lookup_ten hill_lookup_low).
  lia.
Defined.

Lemma short_frame_invalid d :
  (length (cleaned d) < 3)%nat -> ~ valid_knots d.
Proof.
  intros Hlen [H2 _]. unfold sigmaLog, col_stress in H2.
  rewrite length_map, length_skipn, length_map in H2. lia.
Qed.

(** X7.  With fewer than three cleaned readings (the first is dropped
    and the spline needs two knots), or with log-stresses after the
    first that do not increase strictly, every call raises
    [ValueError] and assigns nothing, whatever the mode: also with the
    point supplied, and before any range is looked at. *)
Theorem too_few_readings_raise
    (interp : list R -> list R -> PPoly)
    (lstsq : list R -> list R -> nat -> list R)
    (mcp : option R) (rng : option (R * R)) (loglog : bool)
    (self : Casagrande) :
  (length (cleaned (data self)) < 3)%nat \/
  increasingb (sigmaLog (data self)) = false ->
  getSigmaP interp lstsq mcp rng loglog self = (Raise ValueError, self).
Proof.
  intros Hbad.
  assert (Hnv : ~ valid_knots (data self)).
  { destruct Hbad as [Hlen|Hinc].
    - apply short_frame_invalid. exact Hlen.
    - intros [_ H]. rewrite H in Hinc. discriminate Hinc. }
  destruct (locate interp lstsq mcp rng loglog self) as [[r|e] s1] eqn:Hloc.
  - exfalso. apply Hnv. apply (locate_ok_valid _ _ _ _ _ _ _ _ Hloc).
  - destruct (locate_invalid _ _ _ _ _ _ _ _ Hnv Hloc) as [-> ->].
    apply (getSigmaP_not_located _ _ _ _ _ _ _ _ Hloc).
Qed.

Lemma too_few_readings_raise_witness :
  ((length (cleaned (data (init short_data))) < 3)%nat \/
   increasingb (sigmaLog (data (init short_data))) = false) /\
  getSigmaP interp_hill lstsq_hill (Some 5) None true (init short_data)
  = (Raise ValueError, init short_data).
Proof.
  assert (H : (length (cleaned (data (init short_data))) < 3)%nat \/
              increasingb (sigmaLog (data (init short_data))) = false)
    by (left; simpl; lia).
  split; [exact H|].
  exact (too_few_readings_raise interp_hill lstsq_hill (Some 5) None true
           (init short_data) H).
Defined.

(** ** Curvature without an interior peak *)

Section NoPeak.
Context {A : Type}.
Variable ltb : A -> A -> bool.
Variable eqb : A -> A -> bool.
Variable d : A.

Lemma local_maxima_loop_no_rise x i_max :
  (forall i, (1 <= i < i_max)%nat ->
     ltb (nth (i - 1) x d) (nth i x d) = false) ->
  forall fuel i, (1 <= i)%nat ->
    Signal.local_maxima_loop ltb eqb d x i i_max fuel = [].
Proof.
  intros Hflat. induction fuel as [|fuel IH]; intros i Hi;
    cbn [Signal.local_maxima_loop]; [reflexivity|].
  destruct (Nat.ltb_spec i i_max) as [Hlt|Hge]; [|reflexivity].
  rewrite Hflat by lia. apply IH. lia.
Qed.

Lemma local_maxima_loop_no_fall x :
  (forall a b, (a < b)%nat -> (b < length x)%nat ->
     ltb (nth b x d) (nth a x d) = false) ->
  forall fuel i, (1 <= i)%nat ->
    Signal.local_maxima_loop ltb eqb d x i (length x - 1) fuel = [].
Proof.
  intros Hup. induction fuel as [|fuel IH]; intros i Hi;
    cbn [Signal.local_maxima_loop]; [reflexivity|].
  destruct (Nat.ltb_spec i (length x - 1)) as [Hlt|Hge]; [|reflexivity].
  destruct (ltb (nth (i - 1) x d) (nth i x d)); [|apply IH; lia].
  pose proof (plateau_end_ge eqb d x i (length x - 1) (length x) (i + 1))
    as Hge.
  pose proof (plateau_end_le eqb d x i (length x - 1) (length x) (i + 1)
                ltac:(lia)) as Hle.
  rewrite Hup by lia. apply IH. lia.
Qed.

Lemma find_peaks_no_maxima x distance :
  Signal.local_maxima_1d ltb eqb d x = [] ->
  Signal.find_peaks ltb eqb d x distance = [].
Proof. intros H. unfold Signal.find_peaks. rewrite H. reflexivity. Qed.

End NoPeak.

Lemma adjacent_nondecreasing (c : list R) :
  (forall i, (S i < length c)%nat -> nth i c 0 <= nth (S i) c 0) ->
  forall a b, (a < b)%nat -> (b < length c)%nat -> nth a c 0 <= nth b c 0.
Proof.
  intros Hadj a b Hab. induction b as [|b IH]; intros Hb; [lia|].
  destruct (Nat.eq_dec a b) as [->|Hne]; [apply Hadj; exact Hb|].
  apply Rle_trans with (nth b c 0); [apply IH; lia|apply Hadj; exact Hb].
Qed.

Lemma monotone_samples_no_peak (c : list R) distance :
  (forall i, (S i < length c)%nat -> nth (S i) c 0 <= nth i c 0) \/
  (forall i, (S i < length c)%nat -> nth i c 0 <= nth (S i) c 0) ->
  Signal.find_peaks Rltb Reqb 0 c distance = [].
Proof.
  intros Hmono. apply find_peaks_no_maxima. unfold Signal.local_maxima_1d.
  destruct Hmono as [Hdown|Hup].
  - apply local_maxima_loop_no_rise; [|lia].
    intros i Hi. apply Rltb_false.
    replace i with (S (i - 1)) at 1 by lia. apply Hdown. lia.
  - apply local_maxima_loop_no_fall; [|lia].
    intros a b Hab Hb. apply Rltb_false.
    apply (adjacent_nondecreasing c Hup a b Hab Hb).
Qed.

(** X11.  When the curvature samples of the spline never rise from one
    sample to the next, or never fall, the largest curvature sits at an
    end of the range and there is no peak: every call without a range
    for the polynomial raises [IndexError] and assigns nothing, also
    when the caller supplied the point. *)
Theorem monotone_curvature_raises
    (interp : list R -> list R -> PPoly)
    (lstsq : list R -> list R -> nat -> list R)
    (mcp : option R) (loglog : bool) (self : Casagrande) :
  valid_knots (data self) ->
  let c := spline_curvature (the_spline interp (data self))
             (sigmaCS (data self)) in
  (forall i, (S i < 100)%nat -> nth (S i) c 0 <= nth i c 0) \/
  (forall i, (S i < 100)%nat -> nth i c 0 <= nth (S i) c 0) ->
  Signal.find_peaks Rltb Reqb 0 c 500 = [] /\
  getSigmaP interp lstsq mcp None loglog self = (Raise IndexError, self).
Proof.
  intros Hv c Hmono.
  assert (Hlen : length c = 100%nat).
  { unfold c, spline_curvature, sigmaCS, sigmaCS_of.
    rewrite length_map. apply linspace_length. }
  assert (Hnone : Signal.find_peaks Rltb Reqb 0 c 500 = []).
  { apply monotone_samples_no_peak. rewrite Hlen. exact Hmono. }
  split; [exact Hnone|].
  apply (getSigmaP_not_located _ _ _ _ _ _ _ self).
  rewrite (locate_run _ _ _ _ _ _ Hv). unfold search.
  rewrite search_spline_run. fold c. rewrite Hnone. reflexivity.
Qed.

Lemma ramp_samples_fall i :
  (S i < 100)%nat ->
  let c := spline_curvature (parabola 3 (1 / 8) 0) (linspace 0 4 100) in
  nth (S i) c 0 <= nth i c 0.
Proof.
  intros Hi c. unfold c. rewrite ramp_curvature, map_map.
  assert (Hn : forall j, (j < 100)%nat ->
            nth j (map (fun x => key_curv 9801 (ramp_key x)) (seq 0 100)) 0
            = key_curv 9801 (ramp_key j)).
  { intros j Hj.
    rewrite (nth_indep _ 0 (key_curv 9801 (ramp_key 0)))
      by (rewrite length_map, length_seq; exact Hj).
    rewrite (map_nth (fun x => key_curv 9801 (ramp_key x))).
    rewrite seq_nth by exact Hj. reflexivity. }
  rewrite !Hn by lia. left. unfold ramp_key.
  apply key_curv_decr; [lra|]. nia.
Qed.

Lemma monotone_curvature_raises_witness :
  valid_knots (data (fresh ramp_data)) /\
  getSigmaP interp_ramp lstsq_hill (Some 200) None true (fresh ramp_data)
  = (Raise IndexError, fresh ramp_data).
Proof.
  assert (Hv : valid_knots (data (fresh ramp_data)))
    by (apply decades_valid; reflexivity).
  split; [exact Hv|].
  apply (monotone_curvature_raises interp_ramp lstsq_hill (Some 200) true
           (fresh ramp_data) Hv).
  left. intros i Hi.
  change (the_spline interp_ramp (data (fresh ramp_data)))
    with (parabola 3 (1 / 8) 0).
  rewrite (decades_sigmaCS (data (fresh ramp_data)) ramp_stresses).
  apply ramp_samples_fall. exact Hi.
Defined.

Lemma empty_range_raises_hill (s : Casagrande) :
  data s = hill_data ->
  getSigmaP interp_hill lstsq_hill None (Some (10, 1)) true s
  = (Raise TypeError, s).
Proof.
  intros Hd.
  assert (Hv : valid_knots (data s))
    by (rewrite Hd; apply decades_valid; reflexivity).
  assert (He : sigmaFOP_of (data s) 10 1 = []).
  { rewrite Hd. unfold sigmaFOP_of.
    rewrite hill_lookup_ten, hill_lookup_low.
    apply py_slice_reversed. lia. }
  apply (getSigmaP_not_located _ _ _ _ _ _ _ s).
  rewrite (locate_run _ _ _ _ _ _ Hv). unfold search.
  rewrite (search_FOP_empty _ _ _ _ _ _ He). reflexivity.
Qed.

(** ** The object across calls *)

(** X15.  On an object just constructed no result can be read; after a
    call on it the five results can be read if the call returned, and
    reading any of them still raises [AttributeError] if the call
    raised. *)
Theorem results_readable_iff_returned
    (interp : list R -> list R -> PPoly)
    (lstsq : list R -> list R -> nat -> list R)
    (mcp : option R) (rng : option (R * R)) (loglog : bool) (d : Data) :
  let unreadable s :=
    attr sigmaMC s = (Raise AttributeError, s) /\
    attr eMC s = (Raise AttributeError, s) /\
    attr sigmaP s = (Raise AttributeError, s) /\
    attr eSigmaP s = (Raise AttributeError, s) /\
    attr ocr s = (Raise AttributeError, s) in
  data (init d) = d /\ unreadable (init d) /\
  ((exists e,
       getSigmaP interp lstsq mcp rng loglog (init d) = (Raise e, init d))
   \/
   (exists fig s sMC y1 sP eP o,
       getSigmaP interp lstsq mcp rng loglog (init d) = (Ok fig, s) /\
       attr sigmaMC s = (Ok sMC, s) /\ attr eMC s = (Ok y1, s) /\
       attr sigmaP s = (Ok sP, s) /\ attr eSigmaP s = (Ok eP, s) /\
       attr ocr s = (Ok o, s))).
Proof.
  intros unreadable. split; [reflexivity|].
  split; [repeat split; reflexivity|].
  destruct (getSigmaP_shape interp lstsq d mcp rng loglog)
    as [(e & _ & H)|(fig & sMC & y1 & sP & eP & o & H)].
  - left. exists e. apply H. reflexivity.
  - right. eexists fig, _, sMC, y1, sP, eP, o.
    split; [apply H; reflexivity|]. repeat split; reflexivity.
Qed.

(** X14.  A call that raises after an earlier call returned leaves the
    results of the earlier call in the object: they can still be read,
    and they are those of the earlier arguments, not of the failed
    ones. *)
Theorem failed_call_keeps_old_results
    (interp : list R -> list R -> PPoly)
    (lstsq : list R -> list R -> nat -> list R)
    (mcp mcp' : option R) (rng rng' : option (R * R)) (loglog loglog' : bool)
    (self s1 s2 : Casagrande) (fig : Fig) (e : PyExc) :
  getSigmaP interp lstsq mcp rng loglog self = (Ok fig, s1) ->
  getSigmaP interp lstsq mcp' rng' loglog' s1 = (Raise e, s2) ->
  s2 = s1 /\
  exists sMC y1 sP eP o,
    s2 = mkCasagrande (data self) (Some sMC) (Some y1) (Some sP) (Some eP)
           (Some o) /\
    attr sigmaP s2 = (Ok sP, s2) /\ attr ocr s2 = (Ok o, s2).
Proof.
  intros H1 H2.
  destruct (getSigmaP_shape interp lstsq (data self) mcp rng loglog)
    as [(e1 & _ & H)|(fig1 & sMC & y1 & sP & eP & o & H)];
    rewrite (H self eq_refl) in H1; [discriminate H1|].
  apply (f_equal snd) in H1. cbn [snd] in H1. subst s1.
  destruct (getSigmaP_shape interp lstsq (data self) mcp' rng' loglog')
    as [(e2 & _ & H')|(fig2 & sMC' & y1' & sP' & eP' & o' & H')];
    rewrite (H' (mkCasagrande (data self) (Some sMC) (Some y1) (Some sP)
                   (Some eP) (Some o)) eq_refl) in H2; [|discriminate H2].
  apply (f_equal snd) in H2. cbn [snd] in H2. subst s2.
  split; [reflexivity|].
  exists sMC, y1, sP, eP, o. repeat split; reflexivity.
Qed.

Lemma failed_call_keeps_old_results_witness :
  exists fig s1,
    getSigmaP interp_hill lstsq_hill None None true (fresh hill_data)
    = (Ok fig, s1) /\
    getSigmaP interp_hill lstsq_hill None (Some (10, 1)) true s1
    = (Raise TypeError, s1) /\
    exists sP o, attr sigmaP s1 = (Ok sP, s1) /\ attr ocr s1 = (Ok o, s1).
Proof.
  assert (Hv : valid_knots hill_data) by (apply decades_valid; reflexivity).
  pose proof (hill_locate lstsq_hill None true (fresh hill_data) eq_refl)
    as Hloc. cbv zeta in Hloc.
  pose proof (getSigmaP_located _ _ _ _ _ _ _ _ _ _ Hloc) as Hrun.
  eexists _, _. split; [exact Hrun|].
  match type of Hrun with
  | _ = (_, ?s) =>
      assert (Hfail : getSigmaP interp_hill lstsq_hill None (Some (10, 1))
                        true s = (Raise TypeError, s))
        by (apply (empty_range_raises_hill s); reflexivity)
  end.
  split; [exact Hfail|].
  destruct (failed_call_keeps_old_results interp_hill lstsq_hill
              None None None (Some (10, 1)) true true _ _ _ _ _ Hrun Hfail)
    as (_ & sMC & y1 & sP & eP & o & _ & HsP & Ho).
  exists sP, o. split; assumption.
Defined.

(** X17.  Calls compose by overwriting: when a call returns and another
    call (with any arguments) returns too, making the second after the
    first gives the figure and the object the second gives alone, and
    repeating the first changes nothing. *)
Theorem later_call_overwrites
    (interp : list R -> list R -> PPoly)
    (lstsq : list R -> list R -> nat -> list R)
    (mcpA mcpB : option R) (rngA rngB : option (R * R))
    (loglogA loglogB : bool)
    (self sA sB : Casagrande) (figA figB : Fig) :
  getSigmaP interp lstsq mcpA rngA loglogA self = (Ok figA, sA) ->
  getSigmaP interp lstsq mcpB rngB loglogB self = (Ok figB, sB) ->
  getSigmaP interp lstsq mcpB rngB loglogB sA = (Ok figB, sB) /\
  getSigmaP interp lstsq mcpA rngA loglogA sA = (Ok figA, sA).
Proof.
  intros HA HB.
  assert (Hd : data sA = data self).
  { pose proof (keeps_data_getSigmaP interp lstsq mcpA rngA loglogA self) as H.
    rewrite HA in H. exact H. }
  split.
  - destruct (getSigmaP_shape interp lstsq (data self) mcpB rngB loglogB)
      as [(e & _ & H)|(fig & sMC & y1 & sP & eP & o & H)].
    + rewrite (H self eq_refl) in HB. discriminate HB.
    + rewrite (H sA Hd). rewrite (H self eq_refl) in HB. exact HB.
  - destruct (getSigmaP_shape interp lstsq (data self) mcpA rngA loglogA)
      as [(e & _ & H)|(fig & sMC & y1 & sP & eP & o & H)].
    + rewrite (H self eq_refl) in HA. discriminate HA.
    + rewrite (H sA Hd). rewrite (H self eq_refl) in HA. exact HA.
Qed.

Lemma later_call_overwrites_witness :
  exists figA sA figB sB,
    getSigmaP interp_hill lstsq_hill None None true (fresh hill_data)
    = (Ok figA, sA) /\
    getSigmaP interp_hill lstsq_hill (Some 100) None true (fresh hill_data)
    = (Ok figB, sB) /\
    getSigmaP interp_hill lstsq_hill (Some 100) None true sA = (Ok figB, sB) /\
    getSigmaP interp_hill lstsq_hill None None true sA = (Ok figA, sA).
Proof.
  pose proof (hill_locate lstsq_hill None true (fresh hill_data) eq_refl)
    as HlocA. cbv zeta in HlocA.
  pose proof (getSigmaP_located _ _ _ _ _ _ _ _ _ _ HlocA) as HA.
  pose proof (hill_locate lstsq_hill (Some 100) true (fresh hill_data) eq_refl)
    as HlocB. cbv zeta in HlocB.
  pose proof (getSigmaP_located _ _ _ _ _ _ _ _ _ _ HlocB) as HB.
  eexists _, _, _, _. split; [exact HA|]. split; [exact HB|].
  exact (later_call_overwrites interp_hill lstsq_hill None (Some 100)
           None None true true _ _ _ _ _ HA HB).
Defined.

(** ** What the method reads of the data *)

Lemma search_reads interp lstsq (d d' : Data) rng loglog :
  cleaned d' = cleaned d -> findStressIdx d' = findStressIdx d ->
  search interp lstsq d' rng loglog = search interp lstsq d rng loglog.
Proof.
  intros Hc Hf.
  unfold search, the_spline, sigmaCS, sigmaLog, search_FOP, sigmaFOP_of,
    eFOP_of.
  rewrite Hc, Hf. reflexivity.
Qed.

Lemma valid_knots_reads (d d' : Data) :
  cleaned d' = cleaned d -> valid_knots d -> valid_knots d'.
Proof.
  intros Hc. unfold valid_knots, sigmaLog. rewrite Hc. exact (fun H => H).
Qed.

(** Two tests with the same cleaned rows and the same lookup are
    located alike. *)
Lemma locate_reads interp lstsq mcp rng loglog self self' cs found sMC y :
  cleaned (data self') = cleaned (data self) ->
  findStressIdx (data self') = findStressIdx (data self) ->
  locate interp lstsq mcp rng loglog self
  = (Ok (cs, found), with_mcp self sMC y) ->
  locate interp lstsq mcp rng loglog self'
  = (Ok (cs, found), with_mcp self' sMC y).
Proof.
  intros Hc Hf Hloc.
  destruct (locate_ok _ _ _ _ _ _ _ _ _ Hloc) as (Hv & -> & _).
  pose proof (valid_knots_reads _ _ Hc Hv) as Hv'.
  rewrite (locate_run _ _ _ _ _ _ Hv) in Hloc.
  rewrite (locate_run _ _ _ _ _ _ Hv').
  rewrite (search_reads interp lstsq _ _ rng loglog Hc Hf).
  assert (Hsp : the_spline interp (data self') = the_spline interp (data self))
    by (unfold the_spline, sigmaLog; rewrite Hc; reflexivity).
  rewrite Hsp.
  destruct (search_shape interp lstsq (data self) rng loglog)
    as [(e & _ & Hs)|(found0 & sMC0 & y0 & Hs)].
  - rewrite Hs in Hloc. discriminate Hloc.
  - rewrite Hs in Hloc. rewrite Hs.
    assert (Hfound : found0 = found).
    { apply (f_equal fst) in Hloc. cbn [fst] in Hloc.
      injection Hloc as Hloc. exact Hloc. }
    apply (f_equal snd) in Hloc. cbn [snd] in Hloc.
    pose proof (f_equal sigmaMC Hloc) as H1.
    pose proof (f_equal eMC Hloc) as H2.
    rewrite Hfound. destruct mcp as [p|]; cbn [sigmaMC eMC with_mcp] in H1, H2;
      injection H1 as H1; injection H2 as H2; rewrite <- H1, <- H2;
      reflexivity.
Qed.

Lemma line_through_reads (d d' : Data) sMC y1 k :
  cleaned d' = cleaned d ->
  line_through d' sMC y1 k = line_through d sMC y1 k.
Proof. intros Hc. unfold line_through. rewrite Hc. reflexivity. Qed.

(** X9.  The point of maximum curvature and the two lines through it
    are read off the cleaned rows (and the lookup of the range) alone:
    a test with the same cleaned rows and lookup, whatever its raw
    frame, its in-situ stress and its virgin line, gives the same
    [sigmaMC] and [eMC], the same tangent and bisector and the same
    curvature samples. *)
Theorem point_reads_cleaned_rows_only
    (interp : list R -> list R -> PPoly)
    (lstsq : list R -> list R -> nat -> list R)
    (mcp : option R) (rng : option (R * R)) (loglog : bool)
    (self self' s : Casagrande) (fig : Fig) :
  cleaned (data self') = cleaned (data self) ->
  findStressIdx (data self') = findStressIdx (data self) ->
  getSigmaP interp lstsq mcp rng loglog self = (Ok fig, s) ->
  exists fig' s',
    getSigmaP interp lstsq mcp rng loglog self' = (Ok fig', s') /\
    sigmaMC s' = sigmaMC s /\ eMC s' = eMC s /\
    tangent fig' = tangent fig /\ bisector fig' = bisector fig /\
    curvature_plot fig' = curvature_plot fig.
Proof.
  intros Hc Hf Hrun.
  destruct (getSigmaP_outcome interp lstsq mcp rng loglog self)
    as [(e & He & _)|(found & sMC & y1 & Hloc & Hok)].
  - rewrite He in Hrun. discriminate Hrun.
  - rewrite Hok in Hrun.
    pose proof (f_equal fst Hrun) as Hfig. cbn [fst] in Hfig.
    pose proof (f_equal snd Hrun) as Hs. cbn [snd] in Hs.
    assert (Hfig' : fig_at (the_spline interp (data self)) (data self) mcp
                      found sMC y1 = fig)
      by (injection Hfig as Hfig; exact Hfig).
    pose proof (locate_reads _ _ _ _ _ _ _ _ _ _ _ Hc Hf Hloc) as Hloc'.
    eexists _, _. split; [apply getSigmaP_located; exact Hloc'|].
    rewrite <- Hs, <- Hfig'. cbn [sigmaMC eMC finished with_result with_mcp
                                   tangent bisector curvature_plot fig_at].
    repeat split; try reflexivity; apply line_through_reads; exact Hc.
Qed.

Lemma point_reads_cleaned_rows_only_witness :
  cleaned (data (fresh hill_flat_data)) = cleaned (data (fresh hill_data)) /\
  findStressIdx (data (fresh hill_flat_data))
  = findStressIdx (data (fresh hill_data)) /\
  exists fig s fig' s',
    getSigmaP interp_hill lstsq_hill None None true (fresh hill_data)
    = (Ok fig, s) /\
    getSigmaP interp_hill lstsq_hill None None true (fresh hill_flat_data)
    = (Ok fig', s') /\
    sigmaMC s' = sigmaMC s /\ eMC s' = eMC s /\
    tangent fig' = tangent fig /\ bisector fig' = bisector fig /\
    curvature_plot fig' = curvature_plot fig.
Proof.
  split; [reflexivity|]. split; [reflexivity|].
  pose proof (hill_locate lstsq_hill None true (fresh hill_data) eq_refl)
    as Hloc. cbv zeta in Hloc.
  pose proof (getSigmaP_located _ _ _ _ _ _ _ _ _ _ Hloc) as Hrun.
  destruct (point_reads_cleaned_rows_only interp_hill lstsq_hill None None
              true (fresh hill_data) (fresh hill_flat_data) _ _
              eq_refl eq_refl Hrun) as (fig' & s' & H).
  eexists _, _, fig', s'. split; [exact Hrun|]. exact H.
Defined.

(** X8.  The in-situ stress enters the over-consolidation ratio only:
    with another [sigmaV] the call draws the same tangent, bisector and
    curvature curve and assigns the same point of maximum curvature,
    the same [sigmaP] and [eSigmaP], and [ocr] is [sigmaP] over the new
    [sigmaV]. *)
Theorem sigmaV_only_scales_ocr
    (interp : list R -> list R -> PPoly)
    (lstsq : list R -> list R -> nat -> list R)
    (mcp : option R) (rng : option (R * R)) (loglog : bool)
    (self s : Casagrande) (fig : Fig) (v : R) :
  getSigmaP interp lstsq mcp rng loglog self = (Ok fig, s) ->
  exists fig' s' sP,
    getSigmaP interp lstsq mcp rng loglog
      (on_data self (with_sigmaV (data self) v)) = (Ok fig', s') /\
    tangent fig' = tangent fig /\ bisector fig' = bisector fig /\
    curvature_plot fig' = curvature_plot fig /\
    sigmaMC s' = sigmaMC s /\ eMC s' = eMC s /\
    sigmaP s = Some sP /\ sigmaP s' = Some sP /\
    eSigmaP s' = eSigmaP s /\
    ocr s = Some (sP / sigmaV (data self)) /\
    ocr s' = Some (sP / v).
Proof.
  intros Hrun.
  destruct (getSigmaP_outcome interp lstsq mcp rng loglog self)
    as [(e & He & _)|(found & sMC & y1 & Hloc & Hok)].
  - rewrite He in Hrun. discriminate Hrun.
  - rewrite Hok in Hrun.
    pose proof (f_equal fst Hrun) as Hfig. cbn [fst] in Hfig.
    pose proof (f_equal snd Hrun) as Hs. cbn [snd] in Hs.
    assert (Hfig' : fig_at (the_spline interp (data self)) (data self) mcp
                      found sMC y1 = fig)
      by (injection Hfig as Hfig; exact Hfig).
    pose proof (locate_reads interp lstsq mcp rng loglog self
                  (on_data self (with_sigmaV (data self) v)) _ _ _ _
                  eq_refl eq_refl Hloc) as Hloc'.
    pose proof (getSigmaP_located _ _ _ _ _ _ _ _ _ _ Hloc') as Hrun'.
    eexists _, _, _. split; [exact Hrun'|].
    rewrite <- Hs, <- Hfig'. repeat split; reflexivity.
Qed.

Lemma sigmaV_only_scales_ocr_witness :
  exists fig s fig' s' sP,
    getSigmaP interp_hill lstsq_hill None None true (fresh hill_data)
    = (Ok fig, s) /\
    getSigmaP interp_hill lstsq_hill None None true
      (on_data (fresh hill_data) (with_sigmaV hill_data 150)) = (Ok fig', s') /\
    tangent fig' = tangent fig /\ bisector fig' = bisector fig /\
    curvature_plot fig' = curvature_plot fig /\
    sigmaP s = Some sP /\ sigmaP s' = Some sP /\
    ocr s = Some (sP / 75) /\ ocr s' = Some (sP / 150).
Proof.
  pose proof (hill_locate lstsq_hill None true (fresh hill_data) eq_refl)
    as Hloc. cbv zeta in Hloc.
  pose proof (getSigmaP_located _ _ _ _ _ _ _ _ _ _ Hloc) as Hrun.
  destruct (sigmaV_only_scales_ocr interp_hill lstsq_hill None None true
              (fresh hill_data) _ _ 150 Hrun)
    as (fig' & s' & sP & H1 & Ht & Hb & Hc & _ & _ & H2 & H3 & _ & H4 & H5).
  eexists _, _, fig', s', sP. split; [exact Hrun|].
  repeat split; assumption.
Defined.

(** ** The construction drawn *)

Lemma combine_map_same {B C D : Type} (f : B -> C) (g : B -> D) (l : list B) :
  combine (map f l) (map g l) = map (fun x => (f x, g x)) l.
Proof. induction l as [|a l IH]; simpl; [reflexivity|]. rewrite IH. reflexivity. Qed.

Lemma linspace_within a b n i :
  a <= b -> (2 <= n)%nat -> (i < n)%nat ->
  a <= nth i (linspace a b n) 0 <= b.
Proof.
  intros Hab Hn Hi. rewrite linspace_nth by exact Hi.
  assert (Hn1 : 0 < INR (n - 1)) by (apply lt_0_INR; lia).
  assert (Hi0 : 0 <= INR i) by apply pos_INR.
  assert (Hin : INR i <= INR (n - 1)) by (apply le_INR; lia).
  assert (Hq : 0 <= (b - a) / INR (n - 1)).
  { apply Rmult_le_pos; [lra|]. left. apply Rinv_0_lt_compat. exact Hn1. }
  split; [nra|].
  replace b with (INR (n - 1) * ((b - a) / INR (n - 1)) + a) at 2
    by (field; lra).
  nra.
Qed.

Lemma linspace_after_first a b n i :
  a < b -> (2 <= n)%nat -> (1 <= i < n)%nat ->
  a < nth i (linspace a b n) 0.
Proof.
  intros Hab Hn Hi. rewrite linspace_nth by lia.
  assert (Hn1 : 0 < INR (n - 1)) by (apply lt_0_INR; lia).
  assert (Hi0 : 0 < INR i) by (apply lt_0_INR; lia).
  assert (Hq : 0 < (b - a) / INR (n - 1))
    by (apply Rdiv_lt_0_compat; lra).
  nra.
Qed.

Lemma line_through_length d sMC y1 k :
  length (line_through d sMC y1 k) = 50%nat.
Proof.
  unfold line_through. rewrite combine_map_same, !length_map.
  apply linspace_length.
Qed.

Lemma line_through_nth d sMC y1 k i :
  (i < 50)%nat ->
  let x := nth i (linspace sMC (last_stress d) 50) 0 in
  nth i (line_through d sMC y1 k) (0, 0)
  = (Rpower 10 (log10 x), k * (log10 x - log10 sMC) + y1).
Proof.
  intros Hi x. unfold line_through. rewrite combine_map_same, map_map.
  fold (last_stress d).
  set (h := fun z => (Rpower 10 (log10 z), k * (log10 z - log10 sMC) + y1)).
  rewrite (nth_indep _ (0, 0) (h 0))
    by (rewrite length_map, linspace_length; exact Hi).
  rewrite (map_nth h). reflexivity.
Qed.

(** X2.  The figure shows Casagrande's construction.  For a point of
    maximum curvature at a positive stress below the last stress and a
    descending tangent there ([m < 0]), the horizontal, the tangent and
    the bisector are each drawn from the point itself to the last
    stress; the tangent and the bisector have 50 points at the same
    stresses, all to the right of the point, and at each of them the
    bisector lies strictly between the tangent below and the
    horizontal above. *)
Theorem bisector_drawn_between
    (interp : list R -> list R -> PPoly)
    (lstsq : list R -> list R -> nat -> list R)
    (mcp : option R) (rng : option (R * R)) (loglog : bool)
    (self : Casagrande) (cs : PPoly) (found : list R * list R)
    (sMC y1 : R) :
  locate interp lstsq mcp rng loglog self
  = (Ok (cs, found), with_mcp self sMC y1) ->
  0 < sMC -> sMC < last_stress (data self) ->
  call cs (log10 sMC) 1 < 0 ->
  exists fig s,
    getSigmaP interp lstsq mcp rng loglog self = (Ok fig, s) /\
    plot_horizontal s
    = (Ok [(sMC, y1); (last_stress (data self), y1)], s) /\
    length (tangent fig) = 50%nat /\ length (bisector fig) = 50%nat /\
    nth 0 (tangent fig) (0, 0) = (sMC, y1) /\
    nth 0 (bisector fig) (0, 0) = (sMC, y1) /\
    forall i, (1 <= i < 50)%nat ->
      fst (nth i (tangent fig) (0, 0)) = fst (nth i (bisector fig) (0, 0)) /\
      sMC < fst (nth i (tangent fig) (0, 0)) <= last_stress (data self) /\
      snd (nth i (tangent fig) (0, 0)) < snd (nth i (bisector fig) (0, 0)) /\
      snd (nth i (bisector fig) (0, 0)) < y1.
Proof.
  intros Hloc Hpos Hlast Hm.
  destruct (locate_ok _ _ _ _ _ _ _ _ _ Hloc) as (Hv & _ & _).
  pose proof (valid_knots_cleaned _ Hv) as Hne.
  pose proof (slopeBisect_negative _ Hm) as [Hb1 Hb2].
  eexists _, _. split; [apply getSigmaP_located; exact Hloc|].
  split.
  { unfold plot_horizontal, bind, attr, get_data, lift.
    cbn [sigmaMC eMC finished with_result with_mcp data].
    rewrite (iloc_last_ok _ 0 Hne). reflexivity. }
  cbn [tangent bisector fig_at].
  split; [apply line_through_length|]. split; [apply line_through_length|].
  assert (H0 : forall k, nth 0 (line_through (data self) sMC y1 k) (0, 0)
                         = (sMC, y1)).
  { intros k. rewrite line_through_nth by lia. cbv zeta.
    rewrite linspace_first by lia. rewrite (pow10_log10 _ Hpos).
    f_equal. lra. }
  split; [apply H0|]. split; [apply H0|].
  intros i Hi. rewrite !line_through_nth by lia. cbv zeta. cbn [fst snd].
  set (x := nth i (linspace sMC (last_stress (data self)) 50) 0).
  assert (Hx1 : sMC < x)
    by (apply linspace_after_first; [exact Hlast|lia|lia]).
  assert (Hx2 : x <= last_stress (data self)).
  { apply (linspace_within sMC (last_stress (data self)) 50 i); [lra|lia|lia]. }
  assert (Hlog : log10 sMC < log10 x) by (apply log10_lt; assumption).
  rewrite (pow10_log10 x) by lra.
  unfold slopeMP_at.
  set (m := call cs (log10 sMC) 1) in *.
  set (b := slopeBisect_of m) in *.
  repeat split; try lra; nra.
Qed.

Lemma hill_tangent_1000 :
  call (parabola 1 (1 / 8) 2) (log10 1000) 1 < 0.
Proof. rewrite log10_1000. unfold parabola, call. lra. Qed.

Lemma bisector_drawn_between_witness :
  let cs := parabola 1 (1 / 8) 2 in
  let found := (map (Rpower 10) (linspace 0 4 100),
                spline_curvature cs (linspace 0 4 100)) in
  let self := fresh hill_data in
  let y1 := call cs (log10 1000) 0 in
  locate interp_hill lstsq_hill (Some 1000) None true self
  = (Ok (cs, found), with_mcp self 1000 y1) /\
  0 < 1000 /\ 1000 < last_stress (data self) /\
  call cs (log10 1000) 1 < 0 /\
  exists fig s,
    getSigmaP interp_hill lstsq_hill (Some 1000) None true self
    = (Ok fig, s) /\
    nth 0 (tangent fig) (0, 0) = (1000, y1) /\
    nth 0 (bisector fig) (0, 0) = (1000, y1) /\
    forall i, (1 <= i < 50)%nat ->
      snd (nth i (tangent fig) (0, 0)) < snd (nth i (bisector fig) (0, 0)) /\
      snd (nth i (bisector fig) (0, 0)) < y1.
Proof.
  intros cs found self y1.
  assert (Hloc : locate interp_hill lstsq_hill (Some 1000) None true self
                 = (Ok (cs, found), with_mcp self 1000 y1))
    by (apply (hill_locate lstsq_hill (Some 1000) true self); reflexivity).
  assert (Hlast : 1000 < last_stress (data self))
    by (rewrite (decades_last (data self) hill_stresses); lra).
  split; [exact Hloc|]. split; [lra|]. split; [exact Hlast|].
  split; [exact hill_tangent_1000|].
  destruct (bisector_drawn_between interp_hill lstsq_hill (Some 1000) None
              true self cs found 1000 y1 Hloc ltac:(lra) Hlast
              hill_tangent_1000)
    as (fig & s & Hrun & _ & _ & _ & Ht & Hb & Hall).
  exists fig, s. split; [exact Hrun|]. split; [exact Ht|]. split; [exact Hb|].
  intros i Hi. destruct (Hall i Hi) as (_ & _ & H1 & H2).
  split; assumption.
Defined.

Lemma combine_with_map {B C : Type} (g : B -> C) (l : list B) :
  combine l (map g l) = map (fun x => (x, g x)) l.
Proof. induction l as [|a l IH]; simpl; [reflexivity|]. rewrite IH. reflexivity. Qed.

Lemma intersection_on_virgin_line cs d sMC y1 :
  - idxCc d - slopeBisect_of (slopeMP_at cs sMC) <> 0 ->
  eSigmaP_at cs d sMC y1
  = - idxCc d * log10 (sigmaP_at cs d sMC y1) + idxCcInt d.
Proof.
  intros Hden. unfold eSigmaP_at.
  assert (Hlog : log10 (sigmaP_at cs d sMC y1)
                 = (y1 - slopeBisect_of (slopeMP_at cs sMC) * log10 sMC
                    - idxCcInt d)
                   / (- idxCc d - slopeBisect_of (slopeMP_at cs sMC))).
  { unfold sigmaP_at. apply log10_pow10. }
  rewrite Hlog. field. exact Hden.
Qed.

(** X3.  The virgin compression line of the figure starts at the
    preconsolidation point: for a point of maximum curvature at a
    positive stress, a bisector that is not parallel to the virgin line
    and an exponent of [sigmaP] that a double carries, the first of
    its 50 points is [(sigmaP, eSigmaP)], the marker of the result, and
    each point lies on [e = -idxCc * log10(stress) + idxCcInt]. *)
Theorem Cc_line_starts_at_result
    (interp : list R -> list R -> PPoly)
    (lstsq : list R -> list R -> nat -> list R)
    (mcp : option R) (rng : option (R * R)) (loglog : bool)
    (self : Casagrande) (cs : PPoly) (found : list R * list R)
    (sMC y1 : R) :
  locate interp lstsq mcp rng loglog self
  = (Ok (cs, found), with_mcp self sMC y1) ->
  0 < sMC ->
  let b := slopeBisect_of (call cs (log10 sMC) 1) in
  - idxCc (data self) - b <> 0 ->
  double_exponent
    ((y1 - b * log10 sMC - idxCcInt (data self)) / (- idxCc (data self) - b)) ->
  exists fig s line sP eP,
    getSigmaP interp lstsq mcp rng loglog self = (Ok fig, s) /\
    plot_Cc s = (Ok line, s) /\
    sigmaP s = Some sP /\ eSigmaP s = Some eP /\
    length line = 50%nat /\
    nth 0 line (0, 0) = (sP, eP) /\
    forall i, (i < 50)%nat ->
      snd (nth i line (0, 0))
      = - idxCc (data self) * log10 (fst (nth i line (0, 0)))
        + idxCcInt (data self).
Proof.
  intros Hloc _ b Hden _.
  destruct (locate_ok _ _ _ _ _ _ _ _ _ Hloc) as (Hv & _ & _).
  pose proof (valid_knots_cleaned _ Hv) as Hne.
  set (d := data self) in *.
  set (sP := sigmaP_at cs d sMC y1).
  set (h := fun x => (x, - idxCc d * log10 x + idxCcInt d)).
  exists (fig_at cs d mcp found sMC y1),
    (finished cs (with_mcp self sMC y1) sMC y1),
    (map h (linspace sP (last_stress d) 50)),
    sP, (eSigmaP_at cs d sMC y1).
  split; [apply getSigmaP_located; exact Hloc|].
  split.
  { unfold plot_Cc, bind, attr, get_data, lift.
    cbn [sigmaP finished with_result with_mcp data]. fold d.
    rewrite (iloc_last_ok _ 0 Hne). unfold ret. fold (last_stress d).
    fold sP. rewrite combine_with_map. reflexivity. }
  split; [reflexivity|]. split; [reflexivity|].
  split; [rewrite length_map; apply linspace_length|].
  assert (Hn : forall i, (i < 50)%nat ->
            nth i (map h (linspace sP (last_stress d) 50)) (0, 0)
            = h (nth i (linspace sP (last_stress d) 50) 0)).
  { intros i Hi.
    rewrite (nth_indep _ (0, 0) (h 0))
      by (rewrite length_map, linspace_length; exact Hi).
    apply (map_nth h). }
  split.
  - rewrite Hn by lia. rewrite linspace_first by lia. unfold h. f_equal.
    symmetry. apply intersection_on_virgin_line. exact Hden.
  - intros i Hi. rewrite Hn by exact Hi. reflexivity.
Qed.

Lemma Cc_line_starts_at_result_witness :
  let cs := parabola 1 (1 / 8) 2 in
  let found := (map (Rpower 10) (linspace 0 4 100),
                spline_curvature cs (linspace 0 4 100)) in
  let self := fresh hill_data in
  let y1 := call cs (log10 1000) 0 in
  let b := slopeBisect_of (call cs (log10 1000) 1) in
  locate interp_hill lstsq_hill (Some 1000) None true self
  = (Ok (cs, found), with_mcp self 1000 y1) /\
  0 < 1000 /\
  - idxCc (data self) - b <> 0 /\
  double_exponent
    ((y1 - b * log10 1000 - idxCcInt (data self)) / (- idxCc (data self) - b)) /\
  exists fig s line sP eP,
    getSigmaP interp_hill lstsq_hill (Some 1000) None true self
    = (Ok fig, s) /\
    plot_Cc s = (Ok line, s) /\
    sigmaP s = Some sP /\ eSigmaP s = Some eP /\
    nth 0 line (0, 0) = (sP, eP).
Proof.
  intros cs found self y1 b.
  assert (Hloc : locate interp_hill lstsq_hill (Some 1000) None true self
                 = (Ok (cs, found), with_mcp self 1000 y1))
    by (apply (hill_locate lstsq_hill (Some 1000) true self); reflexivity).
  assert (Hpos : 0 < 1000) by lra.
  destruct hill_exponent_1000 as (_ & Hden & Hq).
  split; [exact Hloc|]. split; [exact Hpos|]. split; [exact Hden|].
  split; [exact Hq|].
  destruct (Cc_line_starts_at_result interp_hill lstsq_hill (Some 1000) None
              true self cs found 1000 y1 Hloc Hpos Hden Hq)
    as (fig & s & line & sP & eP & H1 & H2 & H3 & H4 & _ & H5 & _).
  exists fig, s, line, sP, eP. repeat split; assumption.
Defined.

(** ** Where the point of maximum curvature lies *)

Lemma with_mcp_inj self a b a' b' :
  with_mcp self a b = with_mcp self a' b' -> a = a' /\ b = b'.
Proof.
  intros H. pose proof (f_equal sigmaMC H) as H1.
  pose proof (f_equal eMC H) as H2. cbn [sigmaMC eMC with_mcp] in H1, H2.
  split; apply Some_eq; assumption.
Qed.

Lemma search_spline_on_spline cs xs self found sMC y :
  search_spline cs xs self = (Ok found, with_mcp self sMC y) ->
  y = call cs (log10 sMC) 0.
Proof.
  rewrite search_spline_run.
  destruct (Signal.find_peaks Rltb Reqb 0 (spline_curvature cs xs) 500)
    as [|i l]; [discriminate|].
  intros H. apply (f_equal snd) in H. cbn [snd] in H.
  apply with_mcp_inj in H. destruct H as [<- <-].
  rewrite log10_pow10. reflexivity.
Qed.

Lemma search_None_on_spline interp lstsq d loglog self found sMC y :
  search interp lstsq d None loglog self = (Ok found, with_mcp self sMC y) ->
  y = call (the_spline interp d) (log10 sMC) 0.
Proof.
  intros H.
  assert (Hs : search interp lstsq d None loglog self
               = search_spline (the_spline interp d) (sigmaCS d) self)
    by reflexivity.
  rewrite Hs in H.
  exact (search_spline_on_spline (the_spline interp d) (sigmaCS d) self
           found sMC y H).
Qed.

Lemma locate_spline_on_spline interp lstsq loglog self r sMC y :
  locate interp lstsq None None loglog self = (Ok r, with_mcp self sMC y) ->
  y = call (the_spline interp (data self)) (log10 sMC) 0.
Proof.
  intros Hloc. pose proof (locate_ok_valid _ _ _ _ _ _ _ _ Hloc) as Hv.
  rewrite (locate_run _ _ _ _ _ _ Hv) in Hloc.
  destruct (search interp lstsq (data self) None loglog self)
    as [[found|e] s1] eqn:Hs; [|discriminate Hloc].
  apply (f_equal snd) in Hloc. cbn [snd] in Hloc. subst s1.
  exact (search_None_on_spline interp lstsq (data self) loglog self found
           sMC y Hs).
Qed.

(** X10.  Unless the point of maximum curvature comes from the
    polynomial (a range given and no point supplied), it lies on the
    cubic spline: [eMC] is the spline at [log10 sigmaMC]. *)
Theorem point_lies_on_spline
    (interp : list R -> list R -> PPoly)
    (lstsq : list R -> list R -> nat -> list R)
    (mcp : option R) (rng : option (R * R)) (loglog : bool)
    (self s : Casagrande) (fig : Fig) :
  getSigmaP interp lstsq mcp rng loglog self = (Ok fig, s) ->
  rng = None \/ mcp <> None ->
  exists sMC y1,
    sigmaMC s = Some sMC /\ eMC s = Some y1 /\
    y1 = call (interp (sigmaLog (data self))
                 (skipn 1 (col_e (cleaned (data self)))))
           (log10 sMC) 0.
Proof.
  intros Hrun Hmode.
  destruct (getSigmaP_outcome interp lstsq mcp rng loglog self)
    as [(e & He & _)|(found & sMC & y1 & Hloc & Hok)].
  - rewrite He in Hrun. discriminate Hrun.
  - rewrite Hok in Hrun.
    apply (f_equal snd) in Hrun. cbn [snd] in Hrun. subst s.
    exists sMC, y1. split; [reflexivity|]. split; [reflexivity|].
    fold (the_spline interp (data self)).
    destruct mcp as [p|].
    + destruct (locate_manual _ _ _ _ _ _ _ _ Hloc) as (found' & _ & Hs).
      apply with_mcp_inj in Hs. destruct Hs as [-> ->]. reflexivity.
    + destruct Hmode as [->|Hm]; [|congruence].
      apply (locate_spline_on_spline _ _ _ _ _ _ _ Hloc).
Qed.

Lemma point_lies_on_spline_witness :
  exists fig s sMC y1,
    getSigmaP interp_hill lstsq_hill None None true (fresh hill_data)
    = (Ok fig, s) /\
    ((None : option (R * R)) = None \/ (None : option R) <> None) /\
    sigmaMC s = Some sMC /\ eMC s = Some y1 /\
    y1 = call (parabola 1 (1 / 8) 2) (log10 sMC) 0.
Proof.
  pose proof (hill_locate lstsq_hill None true (fresh hill_data) eq_refl)
    as Hloc. cbv zeta in Hloc.
  pose proof (getSigmaP_located _ _ _ _ _ _ _ _ _ _ Hloc) as Hrun.
  destruct (point_lies_on_spline interp_hill lstsq_hill None None true
              (fresh hill_data) _ _ Hrun (or_introl eq_refl))
    as (sMC & y1 & H1 & H2 & H3).
  eexists _, _, sMC, y1. split; [exact Hrun|].
  split; [left; reflexivity|]. repeat split; assumption.
Defined.

(** ** The point found on the polynomial *)

Lemma nth_map_in_range {B : Type} (f : R -> B) (dflt : B) (l : list R) i :
  (i < length l)%nat -> nth i (map f l) dflt = f (nth i l 0).
Proof.
  intros Hi. rewrite (nth_indep _ dflt (f 0)) by (rewrite length_map; exact Hi).
  apply (map_nth f).
Qed.

(** X13.  In polynomial mode on rows in ascending order, above 1 kPa
    with [loglog] and positive without, the stress of the point of
    maximum curvature is one of the 1000 sampled stresses and lies
    between the first and the last stress of the rows selected. *)
Theorem polynomial_point_within_range
    (interp : list R -> list R -> PPoly)
    (lstsq : list R -> list R -> nat -> list R)
    (r0 r1 : R) (loglog : bool) (self : Casagrande)
    (p0 p1 p2 p3 p4 : R) :
  let d := data self in
  let f0 := hd 0 (sigmaFOP_of d r0 r1) in
  let fN := last (sigmaFOP_of d r0 r1) 0 in
  valid_knots d ->
  sigmaFOP_of d r0 r1 <> [] ->
  lstsq (map (fun x => transform loglog x false) (sigmaFOP_of d r0 r1))
    (eFOP_of d r0 r1) 4%nat = [p0; p1; p2; p3; p4] ->
  f0 <= fN ->
  (if loglog then 1 < f0 else 0 < f0) ->
  exists fig s idx,
    getSigmaP interp lstsq None (Some (r0, r1)) loglog self = (Ok fig, s) /\
    (idx < 1000)%nat /\
    sigmaMC s = Some (nth idx (linspace f0 fN 1000) 0) /\
    f0 <= nth idx (linspace f0 fN 1000) 0 <= fN.
Proof.
  intros d f0 fN Hv Hne Hfit Hord Hdom.
  destruct (search_FOP_ok lstsq d r0 r1 loglog self p0 p1 p2 p3 p4 Hne Hfit)
    as (idx & _ & Hidx & _ & _ & Hrun).
  fold f0 fN in Hrun.
  assert (Hin : f0 <= nth idx (linspace f0 fN 1000) 0 <= fN)
    by (apply linspace_within; [exact Hord|lia|exact Hidx]).
  assert (Hx : nth idx (map (fun x => transform loglog x false)
                          (linspace f0 fN 1000)) 0
               = transform loglog (nth idx (linspace f0 fN 1000) 0) false).
  { apply nth_map_in_range. rewrite linspace_length. exact Hidx. }
  rewrite Hx in Hrun.
  rewrite transform_inverse in Hrun
    by (destruct loglog; lra).
  eexists _, _, idx. split.
  - apply getSigmaP_located.
    rewrite (locate_run _ _ _ _ _ _ Hv). unfold search. fold d.
    rewrite Hrun. reflexivity.
  - split; [exact Hidx|]. split; [reflexivity|exact Hin].
Qed.

Lemma polynomial_point_within_range_witness :
  valid_knots hill_data /\
  sigmaFOP_of hill_data 1 20000 <> [] /\
  hd 0 (sigmaFOP_of hill_data 1 20000)
  <= last (sigmaFOP_of hill_data 1 20000) 0 /\
  0 < hd 0 (sigmaFOP_of hill_data 1 20000) /\
  exists fig s idx,
    getSigmaP interp_hill lstsq_hill None (Some (1, 20000)) false
      (fresh hill_data) = (Ok fig, s) /\
    sigmaMC s = Some (nth idx (linspace 1 10000 1000) 0) /\
    1 <= nth idx (linspace 1 10000 1000) 0 <= 10000.
Proof.
  assert (Hv : valid_knots hill_data) by (apply decades_valid; reflexivity).
  assert (Hne : sigmaFOP_of hill_data 1 20000 <> [])
    by (rewrite hill_sigmaFOP; discriminate).
  assert (Hord : hd 0 (sigmaFOP_of hill_data 1 20000)
                 <= last (sigmaFOP_of hill_data 1 20000) 0)
    by (rewrite hill_sigmaFOP; cbn [hd last]; lra).
  assert (Hdom : 0 < hd 0 (sigmaFOP_of hill_data 1 20000))
    by (rewrite hill_sigmaFOP; cbn [hd]; lra).
  split; [exact Hv|]. split; [exact Hne|]. split; [exact Hord|].
  split; [exact Hdom|].
  destruct (polynomial_point_within_range interp_hill lstsq_hill 1 20000
              false (fresh hill_data) 0.5 0.5 (- 0.125) 0 0 Hv Hne eq_refl
              Hord Hdom)
    as (fig & s & idx & Hrun & _ & HsMC & Hin).
  change (data (fresh hill_data)) with hill_data in HsMC, Hin.
  rewrite hill_sigmaFOP in HsMC, Hin. cbn [hd last] in HsMC, Hin.
  exists fig, s, idx. split; [exact Hrun|]. split; [exact HsMC|exact Hin].
Defined.

Lemma FOP_curvature_of_line p0 p1 x :
  FOP_curvature (p0, p1, 0, 0, 0) x = 0.
Proof.
  unfold FOP_curvature, FOP_secondDer.
  replace (2 * 0 + 6 * 0 * x + 12 * 0 * x ^ 2) with 0 by ring.
  rewrite Rabs_R0. unfold Rdiv. apply Rmult_0_l.
Qed.

Lemma nth_map_zero (f : R -> R) (l : list R) i :
  (forall x, f x = 0) -> nth i (map f l) 0 = 0.
Proof.
  intros Hf. destruct (Nat.lt_ge_cases i (length l)) as [Hi|Hi].
  - rewrite nth_map_in_range by exact Hi. apply Hf.
  - apply nth_overflow. rewrite length_map. exact Hi.
Qed.

(** X12.  When the fit comes out as a straight line (no quadratic,
    cubic or quartic term) its curvature is zero at every sample, and
    the call does not fail: the point of maximum curvature is the first
    row selected, at the first stress of the range, with the void ratio
    the line gives there. *)
Theorem straight_fit_gives_first_stress
    (interp : list R -> list R -> PPoly)
    (lstsq : list R -> list R -> nat -> list R)
    (r0 r1 : R) (loglog : bool) (self : Casagrande) (p0 p1 : R) :
  let d := data self in
  let f0 := hd 0 (sigmaFOP_of d r0 r1) in
  valid_knots d ->
  sigmaFOP_of d r0 r1 <> [] ->
  lstsq (map (fun x => transform loglog x false) (sigmaFOP_of d r0 r1))
    (eFOP_of d r0 r1) 4%nat = [p0; p1; 0; 0; 0] ->
  (if loglog then 1 < f0 else 0 < f0) ->
  exists fig s,
    getSigmaP interp lstsq None (Some (r0, r1)) loglog self = (Ok fig, s) /\
    sigmaMC s = Some f0 /\
    eMC s = Some (p0 + p1 * transform loglog f0 false).
Proof.
  intros d f0 Hv Hne Hfit Hdom.
  destruct (search_FOP_ok lstsq d r0 r1 loglog self p0 p1 0 0 0 Hne Hfit)
    as (idx & _ & Hidx & _ & Hfirst & Hrun).
  fold f0 in Hrun, Hfirst.
  assert (H0 : idx = 0%nat).
  { destruct idx as [|k]; [reflexivity|exfalso].
    specialize (Hfirst 0%nat ltac:(lia)).
    rewrite !(nth_map_zero _ _ _ (FOP_curvature_of_line p0 p1)) in Hfirst.
    lra. }
  subst idx.
  set (fN := last (sigmaFOP_of d r0 r1) 0) in *.
  assert (Hx : nth 0 (map (fun x => transform loglog x false)
                        (linspace f0 fN 1000)) 0
               = transform loglog f0 false).
  { rewrite nth_map_in_range by (rewrite linspace_length; lia).
    rewrite linspace_first by lia. reflexivity. }
  assert (Hy : nth 0 (map (FOP_value (p0, p1, 0, 0, 0))
                        (map (fun x => transform loglog x false)
                           (linspace f0 fN 1000))) 0
               = p0 + p1 * transform loglog f0 false).
  { rewrite map_map.
    rewrite (nth_map_in_range
               (fun x => FOP_value (p0, p1, 0, 0, 0) (transform loglog x false)))
      by (rewrite linspace_length; lia).
    rewrite linspace_first by lia. unfold FOP_value.
    rewrite polyval_quartic. ring. }
  rewrite Hx, Hy in Hrun.
  rewrite (transform_inverse _ _ Hdom) in Hrun.
  eexists _, _. split.
  - apply getSigmaP_located.
    rewrite (locate_run _ _ _ _ _ _ Hv). unfold search. fold d.
    rewrite Hrun. reflexivity.
  - split; reflexivity.
Qed.

Lemma decades_lookup_low df b :
  col_stress df = [0.5; 1; 10; 100; 1000; 10000] -> lookup df 1 b = Some 1%Z.
Proof.
  intros Hs. unfold lookup. rewrite Hs. cbn [first_at_least].
  destruct (Rle_dec 1 0.5) as [H|_]; [lra|].
  destruct (Rle_dec 1 1) as [_|H]; [reflexivity|lra].
Qed.

Lemma decades_lookup_high df b :
  col_stress df = [0.5; 1; 10; 100; 1000; 10000] -> lookup df 20000 b = None.
Proof.
  intros Hs. unfold lookup. rewrite Hs. cbn [first_at_least].
  repeat (destruct (Rle_dec _ _) as [H|_]; [lra|]). reflexivity.
Qed.

Lemma line_sigmaFOP :
  sigmaFOP_of line_data 1 20000 = [1; 10; 100; 1000; 10000].
Proof.
  unfold sigmaFOP_of. cbn [findStressIdx line_data].
  rewrite (decades_lookup_low line_cleaned true eq_refl).
  rewrite (decades_lookup_high line_cleaned true eq_refl).
  reflexivity.
Qed.

Lemma line_polynomial_interpolates :
  map (fun x => polyval x (lstsq_line [] [] 4)) [0; 1; 2; 3; 4]
  = skipn 1 (col_e (cleaned line_data)).
Proof.
  unfold lstsq_line.
  cbn [map skipn col_e cleaned line_data line_cleaned snd polyval].
  repeat (f_equal; try lra).
Qed.

Lemma straight_fit_gives_first_stress_witness :
  valid_knots line_data /\
  sigmaFOP_of line_data 1 20000 <> [] /\
  0 < hd 0 (sigmaFOP_of line_data 1 20000) /\
  exists fig s,
    getSigmaP interp_line lstsq_line None (Some (1, 20000)) false
      (fresh line_data) = (Ok fig, s) /\
    sigmaMC s = Some 1 /\
    eMC s = Some (1 + - 0.125 * transform false 1 false).
Proof.
  assert (Hv : valid_knots line_data) by (apply decades_valid; reflexivity).
  assert (Hne : sigmaFOP_of line_data 1 20000 <> [])
    by (rewrite line_sigmaFOP; discriminate).
  assert (Hdom : 0 < hd 0 (sigmaFOP_of line_data 1 20000))
    by (rewrite line_sigmaFOP; cbn [hd]; lra).
  split; [exact Hv|]. split; [exact Hne|]. split; [exact Hdom|].
  destruct (straight_fit_gives_first_stress interp_line lstsq_line 1 20000
              false (fresh line_data) 1 (- 0.125) Hv Hne eq_refl Hdom)
    as (fig & s & Hrun & HsMC & HeMC).
  change (data (fresh line_data)) with line_data in HsMC, HeMC.
  rewrite line_sigmaFOP in HsMC, HeMC. cbn [hd] in HsMC, HeMC.
  exists fig, s. split; [exact Hrun|]. split; [exact HsMC|exact HeMC].
Defined.

(** ** The peak search against the largest sample *)

(** X16.  When one interior curvature sample of the spline is strictly
    above every other sample, the peak search selects exactly it: the
    index reported by [find_peaks] is the one [np.argmax] would give,
    and the call returns with the stress of that sample. *)
Theorem unique_interior_maximum_is_selected
    (interp : list R -> list R -> PPoly)
    (lstsq : list R -> list R -> nat -> list R)
    (loglog : bool) (self : Casagrande) (j : nat) :
  valid_knots (data self) ->
  let d := data self in
  let c := spline_curvature (the_spline interp d) (sigmaCS d) in
  (1 <= j <= 98)%nat ->
  (forall k, (k < 100)%nat -> k <> j -> nth k c 0 < nth j c 0) ->
  Signal.find_peaks Rltb Reqb 0 c 500 = [j] /\
  Signal.argmax Rltb c = Ok j /\
  exists fig s,
    getSigmaP interp lstsq None None loglog self = (Ok fig, s) /\
    sigmaMC s = Some (Rpower 10 (nth j (sigmaCS d) 0)).
Proof.
  intros Hv d c Hj Htop.
  assert (Hlen : length c = 100%nat).
  { unfold c, spline_curvature, sigmaCS, sigmaCS_of.
    rewrite length_map. apply linspace_length. }
  assert (Hin : In j (Signal.local_maxima_1d Rltb Reqb 0 c)).
  { apply (local_maxima_1d_complete Rltb Reqb 0 Reqb_eq Rltb_irrefl
             Rltb_trans); try lia; apply Rltb_true; apply Htop; lia. }
  assert (Hfp : Signal.find_peaks Rltb Reqb 0 c 500 = [j]).
  { destruct (find_peaks_far Rltb Reqb 0 Rltb_irrefl Rltb_trans c 500
                ltac:(lia)) as [[Hnil _]|(p & Hp & Hpin & Hmax)].
    - rewrite Hnil in Hin. destruct Hin.
    - rewrite Hp. f_equal.
      destruct (Nat.eq_dec p j) as [E|E]; [exact E|exfalso].
      pose proof (local_maxima_1d_sound _ _ _ _ _ Hpin) as Hpk.
      apply plateau_peak_interior in Hpk.
      specialize (Hmax j Hin). apply Rltb_false in Hmax.
      specialize (Htop p ltac:(lia) E). lra. }
  split; [exact Hfp|]. split.
  - assert (Hne : c <> []) by (intros E; rewrite E in Hlen; discriminate).
    destruct (argmax_spec c Hne) as (r & Hr & Hrlt & Hrmax & _).
    rewrite Hr. f_equal.
    destruct (Nat.eq_dec r j) as [E|E]; [exact E|exfalso].
    specialize (Hrmax j ltac:(lia)). specialize (Htop r ltac:(lia) E). lra.
  - assert (Hsearch : search interp lstsq d None loglog self
                      = search_spline (the_spline interp d) (sigmaCS d) self)
      by reflexivity.
    rewrite search_spline_run in Hsearch. fold c in Hsearch.
    rewrite Hfp in Hsearch.
    eexists _, _. split.
    + apply getSigmaP_located.
      rewrite (locate_run _ _ _ _ _ _ Hv). fold d. rewrite Hsearch.
      reflexivity.
    + reflexivity.
Qed.

Lemma left_stresses :
  col_stress left_cleaned = [0.5; 1; 10; 100; 1000; 10000].
Proof. reflexivity. Qed.

Lemma left_interpolates :
  map (fun x => call (the_spline interp_left left_data) x 0)
      (sigmaLog left_data)
  = skipn 1 (col_e (cleaned left_data)).
Proof.
  rewrite (decades_sigmaLog left_data left_stresses). reflexivity.
Qed.

Lemma left_key_INR i :
  key_curv 9801 (left_key i)
  = (1 / 4) / Rpower (1 + ((INR i * ((4 - 0) / 99) + 0 - 40 / 33) / 4) ^ 2)
                (3 / 2).
Proof.
  unfold left_key, key_curv. do 2 f_equal. f_equal.
  rewrite INR_IZR_INZ, Z2Nat.id by (apply Z.pow_even_nonneg; exists 1%Z; lia).
  rewrite Z.pow_2_r, mult_IZR, minus_IZR, <- INR_IZR_INZ.
  field.
Qed.

Lemma left_curvature :
  spline_curvature (parabola 1 (1 / 8) (40 / 33)) (linspace 0 4 100)
  = map (fun i => key_curv 9801 (left_key i)) (seq 0 100).
Proof.
  unfold spline_curvature, linspace. rewrite !map_map.
  apply map_ext. intros i.
  rewrite parabola_curvature, left_key_INR, INR_99. reflexivity.
Qed.

Lemma left_samples_below k :
  (k < 100)%nat -> k <> 30%nat ->
  let c := spline_curvature (parabola 1 (1 / 8) (40 / 33))
             (linspace 0 4 100) in
  nth k c 0 < nth 30 c 0.
Proof.
  intros Hk Hne c. unfold c. rewrite left_curvature.
  assert (Hn : forall j, (j < 100)%nat ->
            nth j (map (fun i => key_curv 9801 (left_key i)) (seq 0 100)) 0
            = key_curv 9801 (left_key j)).
  { intros j Hj.
    rewrite (nth_indep _ 0 (key_curv 9801 (left_key 0)))
      by (rewrite length_map, length_seq; exact Hj).
    rewrite (map_nth (fun i => key_curv 9801 (left_key i))).
    rewrite seq_nth by exact Hj. reflexivity. }
  rewrite !Hn by lia. unfold left_key.
  apply key_curv_decr; [lra|].
  change (Z.to_nat ((Z.of_nat 30 - 30) ^ 2)) with 0%nat.
  assert (0 < (Z.of_nat k - 30) ^ 2)%Z by nia.
  lia.
Qed.

Lemma unique_interior_maximum_is_selected_witness :
  valid_knots (data (fresh left_data)) /\
  (1 <= 30 <= 98)%nat /\
  Signal.find_peaks Rltb Reqb 0
    (spline_curvature (parabola 1 (1 / 8) (40 / 33)) (linspace 0 4 100)) 500
  = [30%nat] /\
  exists fig s,
    getSigmaP interp_left lstsq_hill None None true (fresh left_data)
    = (Ok fig, s) /\
    sigmaMC s = Some (Rpower 10 (nth 30 (linspace 0 4 100) 0)).
Proof.
  assert (Hv : valid_knots (data (fresh left_data)))
    by (apply decades_valid; reflexivity).
  split; [exact Hv|]. split; [lia|].
  pose proof (unique_interior_maximum_is_selected interp_left lstsq_hill true
                (fresh left_data) 30 Hv) as H.
  cbv zeta in H.
  change (the_spline interp_left (data (fresh left_data)))
    with (parabola 1 (1 / 8) (40 / 33)) in H.
  rewrite (decades_sigmaCS (data (fresh left_data)) left_stresses) in H.
  destruct (H ltac:(lia) (fun k Hk Hne => left_samples_below k Hk Hne))
    as (Hfp & _ & Hrun).
  split; [exact Hfp|exact Hrun].
Defined.
